(** * TaskGuru server: the mutation-broadcast layer of [index.js]

    A shallow embedding of the Express handlers of [index.js]
    ([POST /tasks], [PUT /tasks/:id], [DELETE /tasks/:id], [GET /tasks],
    [POST /users], [GET /]), of the Socket.IO authentication middleware and
    of the start-up, together with a reference model of the two libraries
    they drive: the MongoDB collections, with [$set] read as the database
    reads it, and the Socket.IO server [io], with the recovery of sessions
    that [index.js] switches on.

    Handlers are written as command trees ([prog]): every [await] of a store
    call is a node at which the handler is suspended, every [io.emit] is a
    node as well.  Two semantics are given to the same trees: [run], where a
    request is served alone from its first line to its response, and
    [sys_step], where the event loop interleaves the requests in flight. *)

From Stdlib Require Import List String Ascii ZArith NArith Bool Arith Lia.
From Stdlib Require Import Decimal DecimalString DecimalN.
From ExtLib Require Import Structures.Monad Structures.MonadExc.
Import ListNotations.
Import MonadNotation.
Local Open Scope string_scope.
Local Open Scope list_scope.
Local Open Scope monad_scope.

(* ===================================================================== *)
(** ** JavaScript values and documents *)
(* ===================================================================== *)

(** The values that travel through the handlers: what [express.json()]
    parses from a request body, plus the [ObjectId]s made by the driver.
    Numbers are kept to the integers.  An object is the list of its
    properties in insertion order. *)
#[warnings="-register-all"] Inductive value : Type :=
| VNull
| VBool (b : bool)
| VNum (z : Z)
| VStr (s : string)
| VOid (n : N)
| VArr (items : list value)
| VObj (fields : list (string * value)).

Definition document := list (string * value).

(** [if (v)]: JavaScript truthiness. *)
Definition truthy (v : value) : bool :=
  match v with
  | VNull => false
  | VBool b => b
  | VNum z => negb (Z.eqb z 0)
  | VStr s => negb (String.eqb s "")
  | VOid _ | VArr _ | VObj _ => true
  end.

(** A property that is absent reads as [undefined], which is falsy. *)
Definition truthy_prop (o : option value) : bool :=
  match o with
  | Some v => truthy v
  | None => false
  end.

(** [x == null]: true of [null] and of [undefined]. *)
Definition nullish (o : option value) : bool :=
  match o with
  | None | Some VNull => true
  | Some _ => false
  end.

Fixpoint value_eqb (a b : value) {struct a} : bool :=
  match a, b with
  | VNull, VNull => true
  | VBool x, VBool y => Bool.eqb x y
  | VNum x, VNum y => Z.eqb x y
  | VStr x, VStr y => String.eqb x y
  | VOid x, VOid y => N.eqb x y
  | VArr l, VArr m =>
      (fix items_eqb (l m : list value) {struct l} : bool :=
         match l, m with
         | [], [] => true
         | x :: l', y :: m' => value_eqb x y && items_eqb l' m'
         | _, _ => false
         end) l m
  | VObj l, VObj m =>
      (fix fields_eqb (l m : list (string * value)) {struct l} : bool :=
         match l, m with
         | [], [] => true
         | (k, x) :: l', (k', y) :: m' =>
             String.eqb k k' && value_eqb x y && fields_eqb l' m'
         | _, _ => false
         end) l m
  | _, _ => false
  end.

Definition doc_eqb (a b : document) : bool := value_eqb (VObj a) (VObj b).

(** Induction on values that reaches inside arrays and objects. *)
Section value_induction.
Variable P : value -> Prop.
Hypothesis HNull : P VNull.
Hypothesis HBool : forall b, P (VBool b).
Hypothesis HNum : forall z, P (VNum z).
Hypothesis HStr : forall s, P (VStr s).
Hypothesis HOid : forall n, P (VOid n).
Hypothesis HArr : forall l, Forall P l -> P (VArr l).
Hypothesis HObj : forall l, Forall (fun kv => P (snd kv)) l -> P (VObj l).

Fixpoint value_nested_ind (v : value) : P v :=
  match v with
  | VNull => HNull
  | VBool b => HBool b
  | VNum z => HNum z
  | VStr s => HStr s
  | VOid n => HOid n
  | VArr l =>
      HArr l ((fix items (l : list value) : Forall P l :=
               match l with
               | [] => Forall_nil P
               | x :: l' => Forall_cons x (value_nested_ind x) (items l')
               end) l)
  | VObj l =>
      HObj l ((fix fields (l : list (string * value))
               : Forall (fun kv => P (snd kv)) l :=
               match l with
               | [] => Forall_nil _
               | kv :: l' =>
                   Forall_cons kv (value_nested_ind (snd kv)) (fields l')
               end) l)
  end.
End value_induction.

(** [o[k]] *)
Fixpoint obj_get (k : string) (o : document) : option value :=
  match o with
  | [] => None
  | (k', v) :: o' => if String.eqb k k' then Some v else obj_get k o'
  end.

(** [o[k] = v]: an existing property keeps its place, a new one goes last. *)
Fixpoint obj_set (k : string) (v : value) (o : document) : document :=
  match o with
  | [] => [(k, v)]
  | (k', v') :: o' =>
      if String.eqb k k' then (k, v) :: o' else (k', v') :: obj_set k v o'
  end.

(** [delete o[k]] *)
Fixpoint obj_delete (k : string) (o : document) : document :=
  match o with
  | [] => []
  | (k', v) :: o' =>
      if String.eqb k k' then obj_delete k o' else (k', v) :: obj_delete k o'
  end.

(** [{ ...target, ...src }] *)
Definition obj_assign (target src : document) : document :=
  fold_left (fun acc kv => obj_set (fst kv) (snd kv) acc) src target.

Definition has_key (k : string) (o : document) : bool :=
  match obj_get k o with Some _ => true | None => false end.

(** An object as [JSON.parse] builds it: no property twice. *)
Definition unique_keys (o : document) : Prop := NoDup (map fst o).

(* ===================================================================== *)
(** ** ObjectId *)
(* ===================================================================== *)

Definition hex_digit (c : ascii) : option N :=
  let n := N_of_ascii c in
  if (48 <=? n)%N && (n <=? 57)%N then Some (n - 48)%N
  else if (97 <=? n)%N && (n <=? 102)%N then Some (n - 87)%N
  else if (65 <=? n)%N && (n <=? 70)%N then Some (n - 55)%N
  else None.

Fixpoint hex_value (acc : N) (s : string) : option N :=
  match s with
  | EmptyString => Some acc
  | String c s' =>
      match hex_digit c with
      | Some d => hex_value (16 * acc + d)%N s'
      | None => None
      end
  end.

(** [new ObjectId(id)] on a string: the 24 hexadecimal digits of a
    twelve-byte identifier, or the constructor throws. *)
Definition ObjectId_of_string (id : string) : option N :=
  if Nat.eqb (String.length id) 24 then hex_value 0 id else None.

Definition hex_char (d : N) : ascii :=
  if (d <? 10)%N then ascii_of_N (48 + d) else ascii_of_N (87 + d).

(** The [n] lowest hexadecimal digits of [x], written before [acc]. *)
Fixpoint hex_digits (n : nat) (x : N) (acc : string) : string :=
  match n with
  | 0 => acc
  | S n' => hex_digits n' (x / 16)%N (String (hex_char (x mod 16)%N) acc)
  end.

(* ===================================================================== *)
(** ** The store: the [tasks] collection behind the MongoDB driver *)
(* ===================================================================== *)

(** The driver and the database are not part of [index.js]; what follows is
    their behaviour on the four calls the handlers make, as the driver and
    the database document it.  The client is built with
    [serverApi: { version: ServerApiVersion.v1, strict: true }], so the
    database is one that has the stable API: MongoDB 5.0 or later. *)

Inductive js_error : Type := JsError (message : string).

Record InsertOneResult := { insertedId : value }.
Record UpdateResult := { matchedCount : nat; modifiedCount : nat }.
Record DeleteResult := { deletedCount : nat }.

(** The four calls the handlers make on [tasksCollection].  The filter is
    always [{ _id: new ObjectId(id) }]. *)
Inductive store_call : Type :=
| InsertOne (doc : document)
| UpdateOne (oid : N) (set : document)
| FindOne (oid : N)
| DeleteOne (oid : N).

(** What a call resolves to.  [insertOne] adds [_id] to the object it is
    given when that has none, so its reply carries that object as the
    caller sees it afterwards. *)
Inductive store_reply : Type :=
| RInsert (r : InsertOneResult) (doc : document)
| RUpdate (r : UpdateResult)
| RFind (found : option document)
| RDelete (r : DeleteResult).

(** A promise settles: it resolves to a reply or rejects with an error. *)
Inductive settled : Type :=
| Resolved (r : store_reply)
| Rejected (e : js_error).

Definition doc_id (d : document) : option value := obj_get "_id" d.

Definition id_is (v : value) (d : document) : bool :=
  match doc_id d with
  | Some v' => value_eqb v v'
  | None => false
  end.

Definition is_array (v : value) : bool :=
  match v with VArr _ => true | _ => false end.

(** [insertOne(doc)].  The driver gives [doc] a fresh [_id] when
    [doc._id == null]; the server refuses an array as [_id] and an [_id]
    already in the collection, and stores the document with [_id] first. *)
Definition coll_insertOne (doc : document) (docs : list document) (pk : N)
  : settled * list document * N :=
  let fresh := nullish (obj_get "_id" doc) in
  let doc' := if fresh then obj_set "_id" (VOid pk) doc else doc in
  let pk' := if fresh then N.succ pk else pk in
  match obj_get "_id" doc' with
  | Some idv =>
      if is_array idv then
        (Rejected (JsError "The '_id' value cannot be of type array"), docs, pk')
      else if existsb (id_is idv) docs then
        (Rejected (JsError "E11000 duplicate key error"), docs, pk')
      else
        (Resolved (RInsert {| insertedId := idv |} doc'),
         docs ++ [("_id", idv) :: obj_delete "_id" doc'], pk')
  | None => (Rejected (JsError "unreachable"), docs, pk')
  end.

(** *** [$set]

    [updateOne] is given [{ $set: fields }], and the database reads every
    field name as a path: the names between its dots lead into embedded
    documents and into arrays.  A path that does not exist yet is created;
    a path that runs into a value that is neither a document nor an array
    makes the update fail, and so does an update in which one path runs
    through the end of another. *)

(** The names between the dots of [s]. *)
Fixpoint path_parts (s : string) : list string :=
  match s with
  | EmptyString => [EmptyString]
  | String c s' =>
      if Ascii.eqb c "."%char then EmptyString :: path_parts s'
      else
        match path_parts s' with
        | part :: later => String c part :: later
        | [] => [String c EmptyString]
        end
  end.

Definition starts_with_dollar (k : string) : bool :=
  match k with
  | String c _ => Ascii.eqb c "$"%char
  | EmptyString => false
  end.

Fixpoint ends_with (c : ascii) (s : string) : bool :=
  match s with
  | EmptyString => false
  | String c' EmptyString => Ascii.eqb c c'
  | String _ s' => ends_with c s'
  end.

(** What a name of a path stands for. *)
Inductive part_kind : Type :=
| Name
| AllElements
| Positional
| Filtered
| Nameless.

(** [$[]] is every element of an array, [$] the element the query matched,
    [$[<identifier>]] the elements an array filter selects; any other name
    is the name of a field or the index of an element. *)
Definition kind_of (part : string) : part_kind :=
  if String.eqb part "" then Nameless
  else if String.eqb part "$" then Positional
  else if String.eqb part "$[]" then AllElements
  else if String.prefix "$[" part && ends_with "]"%char part then Filtered
  else Name.

(** The index a name stands for in an array: the name is a decimal
    numeral, and leading zeros are allowed, so one element has many names. *)
Definition array_index (part : string) : option N :=
  if String.eqb part "" then None
  else
    match NilEmpty.uint_of_string part with
    | Some u => Some (N.of_uint u)
    | None => None
    end.

(** The name is not a number written with leading zeros: as an index it is
    the one such name of its element. *)
Definition canonical_name (part : string) : bool :=
  match array_index part with
  | Some i => String.eqb (NilZero.string_of_uint (N.to_uint i)) part
  | None => true
  end.

Fixpoint list_set {A : Type} (i : nat) (x : A) (l : list A) : list A :=
  match l, i with
  | [], _ => []
  | _ :: l', 0 => x :: l'
  | y :: l', S i' => y :: list_set i' x l'
  end.

Fixpoint all_some {A : Type} (l : list (option A)) : option (list A) :=
  match l with
  | [] => Some []
  | Some x :: l' =>
      match all_some l' with
      | Some xs => Some (x :: xs)
      | None => None
      end
  | None :: _ => None
  end.

(** The value that holds [v] at the end of a path none of which exists:
    one embedded document per name. *)
Fixpoint create_path (path : list string) (v : value) : option value :=
  match path with
  | [] => Some v
  | part :: rest =>
      match kind_of part with
      | Name =>
          match create_path rest v with
          | Some c => Some (VObj [(part, c)])
          | None => None
          end
      | _ => None
      end
  end.

(** An array is padded with [null] up to a new index, by 1500000 elements
    at most. *)
Definition max_padding : N := 1500000.

(** [cur] with [v] at the end of [path], or nothing when the path cannot be
    followed in [cur]. *)
Fixpoint set_at (path : list string) (v : value) (cur : value) {struct path}
  : option value :=
  match path with
  | [] => Some v
  | part :: rest =>
      match kind_of part with
      | Name =>
          match cur with
          | VObj o =>
              match obj_get part o with
              | Some child =>
                  match set_at rest v child with
                  | Some c => Some (VObj (obj_set part c o))
                  | None => None
                  end
              | None =>
                  match create_path rest v with
                  | Some c => Some (VObj (o ++ [(part, c)]))
                  | None => None
                  end
              end
          | VArr items =>
              match array_index part with
              | Some i =>
                  let len := N.of_nat (List.length items) in
                  if (i <? len)%N then
                    match nth_error items (N.to_nat i) with
                    | Some child =>
                        match set_at rest v child with
                        | Some c => Some (VArr (list_set (N.to_nat i) c items))
                        | None => None
                        end
                    | None => None
                    end
                  else if (i - len <=? max_padding)%N then
                    match create_path rest v with
                    | Some c =>
                        Some (VArr (items ++ repeat VNull (N.to_nat (i - len)) ++ [c]))
                    | None => None
                    end
                  else None
              | None => None
              end
          | _ => None
          end
      | AllElements =>
          match cur with
          | VArr items =>
              match all_some (map (set_at rest v) items) with
              | Some items' => Some (VArr items')
              | None => None
              end
          | _ => None
          end
      | _ => None
      end
  end.

(** One path of a [$set] applied to a document.  A field of the document
    itself cannot be given a name that starts with [$]. *)
Definition set_path (path : list string) (v : value) (d : document)
  : option document :=
  match path with
  | part :: rest =>
      if starts_with_dollar part
         && (match rest with [] => true | _ => false end || negb (has_key part d))
      then None
      else
        match set_at path v (VObj d) with
        | Some (VObj d') => Some d'
        | _ => None
        end
  | [] => None
  end.

(** The path does not end in a [$] name for a field of the document
    itself. *)
Definition top_ok (path : list string) : bool :=
  match path with
  | part :: rest =>
      negb (starts_with_dollar part && match rest with [] => true | _ => false end)
  | [] => false
  end.

Definition is_digit (c : ascii) : bool :=
  let n := N_of_ascii c in (48 <=? n)%N && (n <=? 57)%N.

Fixpoint all_digits (s : string) : bool :=
  match s with
  | EmptyString => true
  | String c s' => is_digit c && all_digits s'
  end.

(** The order in which the database takes the paths of an update: names
    that are numbers in the order of the numbers, other names in the order
    of their bytes. *)
Definition part_ltb (a b : string) : bool :=
  if all_digits a && all_digits b then
    Nat.ltb (String.length a) (String.length b)
    || (Nat.eqb (String.length a) (String.length b) && String.ltb a b)
  else String.ltb a b.

Fixpoint path_ltb (p q : list string) : bool :=
  match p, q with
  | [], [] => false
  | [], _ :: _ => true
  | _ :: _, [] => false
  | a :: p', b :: q' => part_ltb a b || (String.eqb a b && path_ltb p' q')
  end.

Definition update := (list string * value)%type.

Fixpoint insert_update (u : update) (l : list update) : list update :=
  match l with
  | [] => [u]
  | x :: l' =>
      if path_ltb (fst u) (fst x) then u :: l else x :: insert_update u l'
  end.

(** The paths of [{ $set: set }] with their values, in the order in which
    they are applied. *)
Definition updates_of (set : document) : list update :=
  fold_right insert_update []
             (map (fun kv => (path_parts (fst kv), snd kv)) set).

Definition is_positional (part : string) : bool :=
  match kind_of part with Positional => true | _ => false end.

Definition is_all_elements (part : string) : bool :=
  match kind_of part with AllElements => true | _ => false end.

(** A path the database accepts before it looks at any document: no empty
    name, no array filter (the handlers pass none), at most one [$], and a
    field name first. *)
Definition path_well_formed (path : list string) : bool :=
  forallb (fun part => match kind_of part with
                       | Nameless | Filtered => false
                       | _ => true
                       end) path
  && match path with
     | part :: _ => match kind_of part with Name => true | _ => false end
     | [] => false
     end
  && Nat.leb (List.length (filter is_positional path)) 1.

(** Two paths of one update are in conflict when one runs through the end
    of the other, or when they part where one takes every element of an
    array and the other a single name. *)
Fixpoint conflict (p q : list string) : bool :=
  match p, q with
  | [], _ | _, [] => true
  | a :: p', b :: q' =>
      if String.eqb a b then conflict p' q'
      else xorb (is_all_elements a) (is_all_elements b)
  end.

Fixpoint conflict_free (l : list update) : bool :=
  match l with
  | [] => true
  | u :: later =>
      forallb (fun x => negb (conflict (fst u) (fst x))) later
      && conflict_free later
  end.

(** The update is one the database accepts whatever the documents are. *)
Definition update_parses (set : document) : bool :=
  forallb (fun u => path_well_formed (fst u)) (updates_of set)
  && conflict_free (updates_of set).

Definition apply_updates (ups : list update) (d : document) : option document :=
  fold_left (fun acc u =>
               match acc with
               | Some x => set_path (fst u) (snd u) x
               | None => None
               end) ups (Some d).

(** Whether one of the paths, taken in turn, changes what it finds.  This is
    what the database counts as a modification. *)
Fixpoint modifies (ups : list update) (d : document) : bool :=
  match ups with
  | [] => false
  | u :: later =>
      match set_path (fst u) (snd u) d with
      | Some x => negb (doc_eqb x d) || modifies later x
      | None => false
      end
  end.

Definition same_id (d d' : document) : bool :=
  match doc_id d, doc_id d' with
  | Some a, Some b => value_eqb a b
  | None, None => true
  | _, _ => false
  end.

(** What [{ $set: set }] makes of the document [d], or nothing when the
    database refuses the update: a path that cannot be followed in [d], or
    an [_id] that would change. *)
Definition set_update (set : document) (d : document) : option document :=
  if update_parses set then
    match apply_updates (updates_of set) d with
    | Some d' => if same_id d d' then Some d' else None
    | None => None
    end
  else None.

(** The document has [v] at the end of [path]. *)
Fixpoint at_path (path : list string) (v : value) (cur : value) {struct path} : Prop :=
  match path with
  | [] => cur = v
  | part :: rest =>
      match kind_of part with
      | Name =>
          match cur with
          | VObj o =>
              match obj_get part o with
              | Some c => at_path rest v c
              | None => False
              end
          | VArr items =>
              match array_index part with
              | Some i =>
                  match nth_error items (N.to_nat i) with
                  | Some c => at_path rest v c
                  | None => False
                  end
              | None => False
              end
          | _ => False
          end
      | AllElements =>
          match cur with
          | VArr items => Forall (at_path rest v) items
          | _ => False
          end
      | _ => False
      end
  end.

(** A field name with nothing of the path language in it: not empty, no
    dot, no [$] in front, no number written with leading zeros. *)
Definition plain_name (k : string) : bool :=
  match path_parts k with
  | [part] =>
      match kind_of part with
      | Name => negb (starts_with_dollar part) && canonical_name part
      | _ => false
      end
  | _ => false
  end.

Definition plain_fields (o : document) : bool :=
  forallb (fun kv => plain_name (fst kv)) o.

(** No name in a path of the update is a number written with leading zeros,
    so no two paths lead to one element of an array under two names. *)
Definition canonical_paths (set : document) : bool :=
  forallb (fun kv => forallb canonical_name (path_parts (fst kv))) set.

(** [d'] is [d] with the fields of [set] merged in: every path [set] names
    has the value [set] gives it, and every field of the document that no
    path of [set] starts with is as it was.  The first holds of a name
    without a dot, and of every path when no two of them can be two names of
    one array element.  When the names of [set] are plain, this is a merge
    field by field. *)
Definition merged (set d d' : document) : Prop :=
  (forall k v, In (k, v) set ->
     canonical_paths set = true \/ tl (path_parts k) = [] ->
     at_path (path_parts k) v (VObj d'))
  /\ (forall f,
        (forall k v, In (k, v) set -> hd_error (path_parts k) <> Some f) ->
        obj_get f d' = obj_get f d)
  /\ (plain_fields set = true ->
      forall k, obj_get k d' = match obj_get k set with
                               | Some v => Some v
                               | None => obj_get k d
                               end).

(** [updateOne({ _id: oid }, { $set: set })] on the first document with
    that [_id].  [modifiedCount] counts the documents in which a path of
    the update changed something, so it is 0 when a document matched and
    already had these values.  An update the database refuses is a
    rejection, and changes nothing. *)
Fixpoint update_first (oid : N) (set : document) (docs : list document)
  : settled * list document :=
  match docs with
  | [] => (Resolved (RUpdate {| matchedCount := 0; modifiedCount := 0 |}), [])
  | d :: rest =>
      if id_is (VOid oid) d then
        match set_update set d with
        | Some d' =>
            (Resolved (RUpdate {| matchedCount := 1;
                                  modifiedCount :=
                                    if modifies (updates_of set) d then 1 else 0 |}),
             d' :: rest)
        | None => (Rejected (JsError "WriteError"), docs)
        end
      else
        let (r, rest') := update_first oid set rest in (r, d :: rest')
  end.

Definition coll_updateOne (oid : N) (set : document) (docs : list document)
  : settled * list document :=
  if update_parses set then update_first oid set docs
  else (Rejected (JsError "WriteError"), docs).

(** [findOne({ _id: oid })]: the first such document, or [null]. *)
Definition coll_findOne (oid : N) (docs : list document) : option document :=
  find (id_is (VOid oid)) docs.

(** [deleteOne({ _id: oid })]: removes the first such document. *)
Fixpoint coll_deleteOne (oid : N) (docs : list document) : nat * list document :=
  match docs with
  | [] => (0, [])
  | d :: rest =>
      if id_is (VOid oid) d then (1, rest)
      else let (n, rest') := coll_deleteOne oid rest in (n, d :: rest')
  end.

(** The database as the server process sees it.  [faults] is the schedule of
    the store's availability: each store call takes the head, and [true]
    makes that call reject (network loss, timeout) without touching the
    collection.  [journal] records every call with what it settled to. *)
Record store := {
  tasks : list document;
  pk_counter : N;
  faults : list bool;
  journal : list (store_call * settled)
}.

Definition store_apply (c : store_call) (s : store) : settled * list document * N :=
  match c with
  | InsertOne doc => coll_insertOne doc (tasks s) (pk_counter s)
  | UpdateOne oid set =>
      let (r, docs) := coll_updateOne oid set (tasks s) in (r, docs, pk_counter s)
  | FindOne oid => (Resolved (RFind (coll_findOne oid (tasks s))), tasks s, pk_counter s)
  | DeleteOne oid =>
      let (n, docs) := coll_deleteOne oid (tasks s) in
      (Resolved (RDelete {| deletedCount := n |}), docs, pk_counter s)
  end.

Definition store_exec (c : store_call) (s : store) : settled * store :=
  match faults s with
  | true :: later =>
      let r := Rejected (JsError "MongoNetworkError") in
      (r, {| tasks := tasks s; pk_counter := pk_counter s; faults := later;
             journal := journal s ++ [(c, r)] |})
  | _ =>
      let '(r, docs, pk) := store_apply c s in
      (r, {| tasks := docs; pk_counter := pk; faults := tl (faults s);
             journal := journal s ++ [(c, r)] |})
  end.

(* ===================================================================== *)
(** ** The Socket.IO server [io] *)
(* ===================================================================== *)

(** Socket.IO is not part of [index.js] either.  A client first opens a
    transport connection with the engine, and then asks over it to join the
    namespace, sending its [auth] object; the middlewares registered with
    [io.use] decide on that request.  The server is built with
    [connectionStateRecovery: {}]: the adapter keeps the packets it
    broadcasts and the sessions of the sockets whose transport was lost, and
    a client that names one of those sessions in its handshake gets it back
    without the middlewares ([skipMiddlewares] is [true] unless set). *)

Record event := { ev_name : string; ev_payload : value }.

(** A socket of the main namespace: the connection it rides on, its private
    session id, and the [userEmail] the middleware stored on it.  A socket
    that came in by recovery has no [userEmail]: the middleware has not seen
    it. *)
Record socket := { sid : nat; pid : string; userEmail : option value }.

(** [engine_clients] are the open transport connections, the ones
    [io.engine.clientsCount] counts.  [sockets] are the connections the
    namespace has admitted.  [wire] lists what the server has sent, each
    packet with the connections it went to, oldest first.  [packets] and
    [sessions] are what the adapter keeps for recovery: the packets
    broadcast, each under its offset, and the private ids of the sessions
    that lost their transport.  Where the library draws random identifiers,
    [minted] counts the ones drawn so far. *)
Record hub := {
  engine_clients : list nat;
  sockets : list socket;
  wire : list (event * list nat);
  minted : N;
  packets : list (string * event);
  sessions : list string
}.

Definition clientsCount (h : hub) : nat := List.length (engine_clients h).

(** The identifier drawn when [n] have been drawn before. *)
Definition id_string (n : N) : string := hex_digits 20 n "".

(** [io.emit(name, payload)]: to every socket of the namespace.  The adapter
    keeps the packet under a new offset. *)
Definition io_emit (name : string) (payload : value) (h : hub) : hub :=
  {| engine_clients := engine_clients h;
     sockets := sockets h;
     wire := wire h ++ [({| ev_name := name; ev_payload := payload |},
                         map sid (sockets h))];
     minted := N.succ (minted h);
     packets := packets h ++ [(id_string (minted h),
                               {| ev_name := name; ev_payload := payload |})];
     sessions := sessions h |}.

(** The outcome of a middleware: [next()] or [next(err)]. *)
Inductive next_result : Type :=
| Next (email : value)
| NextError (e : js_error).

(** [io.use((socket, next) => ...)], on [socket.handshake.auth]. *)
Definition auth_middleware (auth : document) : next_result :=
  match obj_get "email" auth with
  | Some email =>
      if truthy email then Next email else NextError (JsError "Unauthorized")
  | None => NextError (JsError "Unauthorized")
  end.

Inductive connect_result : Type :=
| Connected
| ConnectError (e : js_error)
| NoTransport.

(** A transport connection opens: the engine counts it from here on. *)
Definition engine_open (c : nat) (h : hub) : hub :=
  {| engine_clients := engine_clients h ++ [c];
     sockets := sockets h;
     wire := wire h;
     minted := minted h;
     packets := packets h;
     sessions := sessions h |}.

(** The session a handshake asks to get back: [auth.pid] and [auth.offset],
    when both are strings. *)
Definition session_credentials (auth : document) : option (string * string) :=
  match obj_get "pid" auth, obj_get "offset" auth with
  | Some (VStr p), Some (VStr offset) => Some (p, offset)
  | _, _ => None
  end.

(** The packets kept after the one with this offset, or nothing when no
    packet kept has it. *)
Fixpoint packets_after (offset : string) (kept : list (string * event))
  : option (list event) :=
  match kept with
  | [] => None
  | (o, _) :: later =>
      if String.eqb o offset then Some (map snd later)
      else packets_after offset later
  end.

(** [adapter.restoreSession(pid, offset)]: the packets the session has
    missed, when the adapter still keeps the session and the packet of the
    offset.  Every packet of this server is a broadcast to the whole
    namespace, so every later packet has been missed. *)
Definition restoreSession (p offset : string) (h : hub) : option (list event) :=
  if existsb (String.eqb p) (sessions h) then packets_after offset (packets h)
  else None.

(** The session a handshake recovers, with the packets to send again. *)
Definition recovery (auth : document) (h : hub) : option (string * list event) :=
  match session_credentials auth with
  | Some (p, offset) =>
      match restoreSession p offset h with
      | Some missed => Some (p, missed)
      | None => None
      end
  | None => None
  end.

(** The client asks to join the namespace over an open connection, sending
    its [auth] object.  When the handshake recovers a session, the socket is
    sent the packets it has missed and joins at once, the middleware being
    skipped.  Otherwise the namespace runs the middleware and adds the
    socket only on [next()]; on [next(err)] the client is sent the error and
    the namespace is left as it was. *)
Definition ns_connect (c : nat) (auth : document) (h : hub) : connect_result * hub :=
  if existsb (Nat.eqb c) (engine_clients h) then
    match recovery auth h with
    | Some (p, missed) =>
        (Connected,
         {| engine_clients := engine_clients h;
            sockets := sockets h ++ [{| sid := c; pid := p; userEmail := None |}];
            wire := wire h ++ map (fun ev => (ev, [c])) missed;
            minted := minted h;
            packets := packets h;
            sessions := sessions h |})
    | None =>
        match auth_middleware auth with
        | Next email =>
            (Connected,
             {| engine_clients := engine_clients h;
                sockets := sockets h ++ [{| sid := c; pid := id_string (minted h);
                                            userEmail := Some email |}];
                wire := wire h;
                minted := N.succ (minted h);
                packets := packets h;
                sessions := sessions h |})
        | NextError e => (ConnectError e, h)
        end
    end
  else (NoTransport, h).

(** The transport closes: the engine forgets the connection, its socket
    leaves the namespace, and the adapter keeps the session of that socket
    for recovery. *)
Definition engine_close (c : nat) (h : hub) : hub :=
  {| engine_clients := filter (fun c' => negb (Nat.eqb c c')) (engine_clients h);
     sockets := filter (fun s => negb (Nat.eqb c (sid s))) (sockets h);
     wire := wire h;
     minted := minted h;
     packets := packets h;
     sessions := sessions h ++
                 map pid (filter (fun s => Nat.eqb c (sid s)) (sockets h)) |}.

(** The clean-up timer of the adapter drops the sessions and the packets
    that are older than the recovery window.  How old they are is a matter
    of real time, which is left open here: a sweep may drop any sessions
    and any number of the oldest packets. *)
Definition adapter_sweep (gone : list string) (old : nat) (h : hub) : hub :=
  {| engine_clients := engine_clients h;
     sockets := sockets h;
     wire := wire h;
     minted := minted h;
     packets := skipn old (packets h);
     sessions := filter (fun p => negb (existsb (String.eqb p) gone)) (sessions h) |}.

(** The events of [l] that went to connection [c]. *)
Definition sent_to (c : nat) (l : list (event * list nat)) : list event :=
  map fst (filter (fun d => existsb (Nat.eqb c) (snd d)) l).

(** The events connection [c] has been sent, oldest first. *)
Definition received (c : nat) (h : hub) : list event := sent_to c (wire h).


(* ===================================================================== *)
(** ** Handlers as command trees *)
(* ===================================================================== *)

(** The server process: the database, the Socket.IO server and the state of
    the driver's connection that [client.topology.isConnected()] reads. *)
Record world := {
  db : store;
  io : hub;
  topology_connected : bool
}.

Definition with_db (s : store) (w : world) : world :=
  {| db := s; io := io w; topology_connected := topology_connected w |}.

Definition with_io (h : hub) (w : world) : world :=
  {| db := db w; io := h; topology_connected := topology_connected w |}.

(** An [async] handler body.  [Await c k] suspends the handler on the store
    call [c] and resumes it in [k] with what the call settled to; [Emit] is
    an [io.emit]; [Throw] is an exception on its way to the enclosing
    [catch]. *)
Inductive prog (A : Type) : Type :=
| Ret (a : A)
| Throw (e : js_error)
| Await (c : store_call) (k : settled -> prog A)
| Emit (name : string) (payload : value) (k : prog A).

Arguments Ret {A} a.
Arguments Throw {A} e.
Arguments Await {A} c k.
Arguments Emit {A} name payload k.

Fixpoint prog_bind {A B : Type} (p : prog A) (f : A -> prog B) : prog B :=
  match p with
  | Ret a => f a
  | Throw e => Throw e
  | Await c k => Await c (fun r => prog_bind (k r) f)
  | Emit n v k => Emit n v (prog_bind k f)
  end.

(** [try { p } catch (error) { h error }] *)
Fixpoint prog_catch {A : Type} (p : prog A) (h : js_error -> prog A) : prog A :=
  match p with
  | Ret a => Ret a
  | Throw e => h e
  | Await c k => Await c (fun r => prog_catch (k r) h)
  | Emit n v k => Emit n v (prog_catch k h)
  end.

#[global] Instance Monad_prog : Monad prog :=
  {| ret := @Ret; bind := @prog_bind |}.

#[global] Instance Exception_prog : MonadExc js_error prog :=
  {| raise := @Throw; catch := @prog_catch |}.

(** [await c]: the reply when the promise resolves, a throw when it rejects. *)
Definition await (c : store_call) : prog store_reply :=
  Await c (fun r => match r with
                    | Resolved reply => Ret reply
                    | Rejected e => Throw e
                    end).

Definition unexpected {A : Type} : prog A := Throw (JsError "TypeError").

Definition insertOne (doc : document) : prog (InsertOneResult * document) :=
  reply <- await (InsertOne doc) ;;
  match reply with RInsert r doc' => ret (r, doc') | _ => unexpected end.

Definition updateOne (oid : N) (set : document) : prog UpdateResult :=
  reply <- await (UpdateOne oid set) ;;
  match reply with RUpdate r => ret r | _ => unexpected end.

Definition findOne (oid : N) : prog (option document) :=
  reply <- await (FindOne oid) ;;
  match reply with RFind d => ret d | _ => unexpected end.

Definition deleteOne (oid : N) : prog DeleteResult :=
  reply <- await (DeleteOne oid) ;;
  match reply with RDelete r => ret r | _ => unexpected end.

(** [new ObjectId(id)] *)
Definition new_ObjectId (id : string) : prog N :=
  match ObjectId_of_string id with
  | Some oid => ret oid
  | None => raise (JsError "input must be a 24 character hex string")
  end.

Definition emit (name : string) (payload : value) : prog unit :=
  Emit name payload (Ret tt).

Record response := { status : nat; json : value }.

(** [res.status(code).json(body)] *)
Definition res_json (code : nat) (body : value) : prog response :=
  ret {| status := code; json := body |}.

Definition error_body (msg : string) : value := VObj [("error", VStr msg)].

(** What [findOne] hands back as a JavaScript value: the document or [null]. *)
Definition doc_or_null (d : option document) : value :=
  match d with Some doc => VObj doc | None => VNull end.

(** [app.post("/tasks", ...)].  After [insertOne], [task] is the request
    body with the [_id] the driver has put on it. *)
Definition post_tasks (body : document) : prog response :=
  catch
    (let task := body in
     '(result, task) <- insertOne task ;;
     if truthy (insertedId result) then
       let insertedTask := obj_assign [("_id", insertedId result)] task in
       emit "taskAdded" (VObj insertedTask) ;;
       res_json 201 (VObj insertedTask)
     else
       res_json 500 (error_body "Task creation failed"))
    (fun _ => res_json 500 (error_body "Internal server error")).

(** [app.put("/tasks/:id", ...)].  [new ObjectId(id)] is evaluated twice, as
    in the source; [res.json] answers 200. *)
Definition put_tasks (id : string) (body : document) : prog response :=
  catch
    (let updatedTask := obj_delete "_id" body in
     oid <- new_ObjectId id ;;
     result <- updateOne oid updatedTask ;;
     if Nat.eqb (modifiedCount result) 0 then
       res_json 404 (error_body "Task not found")
     else
       oid <- new_ObjectId id ;;
       fullUpdatedTask <- findOne oid ;;
       emit "taskUpdated" (doc_or_null fullUpdatedTask) ;;
       res_json 200 (doc_or_null fullUpdatedTask))
    (fun _ => res_json 500 (error_body "Task update failed")).

(** [app.delete("/tasks/:id", ...)] *)
Definition delete_tasks (id : string) : prog response :=
  catch
    (oid <- new_ObjectId id ;;
     result <- deleteOne oid ;;
     if Nat.eqb (deletedCount result) 0 then
       res_json 404 (error_body "Task not found")
     else
       emit "taskDeleted" (VStr id) ;;
       res_json 200 (VObj [("message", VStr "Task deleted successfully")]))
    (fun _ => res_json 500 (error_body "Task deletion failed")).

(** [app.get("/", ...)]: the health snapshot.  It awaits nothing. *)
Definition get_health (w : world) : response :=
  let mongoStatus := if topology_connected w then "connected" else "disconnected" in
  {| status := 200;
     json := VObj [("status", VStr "ok");
                   ("mongo", VStr mongoStatus);
                   ("websockets", VNum (Z.of_nat (clientsCount (io w))))] |}.

(* ===================================================================== *)
(** ** One request served alone *)
(* ===================================================================== *)

Inductive completion (A : Type) : Type :=
| Normal (a : A)
| Abrupt (e : js_error).

Arguments Normal {A} a.
Arguments Abrupt {A} e.

(** Runs a handler to its end with no other request in between: each awaited
    call is carried out by the store at once. *)
Fixpoint run {A : Type} (p : prog A) (w : world) : completion A * world :=
  match p with
  | Ret a => (Normal a, w)
  | Throw e => (Abrupt e, w)
  | Await c k =>
      let (r, s') := store_exec c (db w) in run (k r) (with_db s' w)
  | Emit n v k => run k (with_io (io_emit n v (io w)) w)
  end.

(* ===================================================================== *)
(** ** The event loop: requests in flight, interleaved *)
(* ===================================================================== *)

Inductive request : Type :=
| ReqPost (body : document)
| ReqPut (id : string) (body : document)
| ReqDelete (id : string).

Definition handler (req : request) : prog response :=
  match req with
  | ReqPost body => post_tasks body
  | ReqPut id body => put_tasks id body
  | ReqDelete id => delete_tasks id
  end.

(** Where a handler stands after a turn of the event loop: at its end, or
    suspended on a store call. *)
Inductive paused (A : Type) : Type :=
| Finished (c : completion A)
| Parked (call : store_call) (k : settled -> prog A).

Arguments Finished {A} c.
Arguments Parked {A} call k.

(** One turn: the handler runs, emitting as it goes, up to its next [await]
    or to its end. *)
Fixpoint advance {A : Type} (p : prog A) (h : hub) : paused A * hub :=
  match p with
  | Ret a => (Finished (Normal a), h)
  | Throw e => (Finished (Abrupt e), h)
  | Await c k => (Parked c k, h)
  | Emit n v k => advance k (io_emit n v h)
  end.

(** The call a handler is suspended on once the calls before it have settled
    to [hist], with the continuation that waits for it. *)
Fixpoint pending_after {A : Type} (p : prog A) (hist : list settled)
  : option (store_call * (settled -> prog A)) :=
  match p with
  | Ret _ | Throw _ => None
  | Emit _ _ k => pending_after k hist
  | Await c k =>
      match hist with
      | [] => Some (c, k)
      | r :: later => pending_after (k r) later
      end
  end.

(** The promise of a store call: the store has not carried the call out yet,
    or it has and the handler has not been resumed yet. *)
Inductive promise : Type :=
| Pending
| Settled (r : settled).

Record inflight := {
  fl_id : nat;
  fl_req : request;
  fl_call : store_call;
  fl_promise : promise;
  fl_k : settled -> prog response
}.

Record system := {
  sys_world : world;
  sys_pool : list inflight;
  sys_done : list (nat * completion response)
}.

Inductive action : Type :=
| Arrive (rid : nat) (req : request)
| Exec (rid : nat)
| Resume (rid : nat)
| Open (c : nat)
| Join (c : nat) (auth : document)
| Close (c : nat)
| Sweep (gone : list string) (old : nat).

Fixpoint pool_find (rid : nat) (pool : list inflight) : option inflight :=
  match pool with
  | [] => None
  | e :: rest => if Nat.eqb rid (fl_id e) then Some e else pool_find rid rest
  end.

Fixpoint pool_remove (rid : nat) (pool : list inflight) : list inflight :=
  match pool with
  | [] => []
  | e :: rest =>
      if Nat.eqb rid (fl_id e) then pool_remove rid rest else e :: pool_remove rid rest
  end.

Fixpoint pool_put (e : inflight) (pool : list inflight) : list inflight :=
  match pool with
  | [] => [e]
  | e' :: rest =>
      if Nat.eqb (fl_id e) (fl_id e') then e :: rest else e' :: pool_put e rest
  end.

(** The turn in which handler [rid] of request [req] runs [p]. *)
Definition take_turn (rid : nat) (req : request) (p : prog response) (s : system)
  : system :=
  let w := sys_world s in
  match advance p (io w) with
  | (Finished c, h) =>
      {| sys_world := with_io h w;
         sys_pool := pool_remove rid (sys_pool s);
         sys_done := sys_done s ++ [(rid, c)] |}
  | (Parked call k, h) =>
      {| sys_world := with_io h w;
         sys_pool := pool_put {| fl_id := rid; fl_req := req; fl_call := call;
                                 fl_promise := Pending; fl_k := k |} (sys_pool s);
         sys_done := sys_done s |}
  end.

Definition sys_step (a : action) (s : system) : option system :=
  let w := sys_world s in
  match a with
  | Arrive rid req =>
      match pool_find rid (sys_pool s) with
      | Some _ => None
      | None => Some (take_turn rid req (handler req) s)
      end
  | Exec rid =>
      match pool_find rid (sys_pool s) with
      | Some e =>
          match fl_promise e with
          | Pending =>
              let (r, st) := store_exec (fl_call e) (db w) in
              Some {| sys_world := with_db st w;
                      sys_pool := pool_put {| fl_id := rid; fl_req := fl_req e;
                                              fl_call := fl_call e;
                                              fl_promise := Settled r;
                                              fl_k := fl_k e |} (sys_pool s);
                      sys_done := sys_done s |}
          | Settled _ => None
          end
      | None => None
      end
  | Resume rid =>
      match pool_find rid (sys_pool s) with
      | Some e =>
          match fl_promise e with
          | Settled r => Some (take_turn rid (fl_req e) (fl_k e r) s)
          | Pending => None
          end
      | None => None
      end
  | Open c =>
      Some {| sys_world := with_io (engine_open c (io w)) w;
              sys_pool := sys_pool s; sys_done := sys_done s |}
  | Join c auth =>
      Some {| sys_world := with_io (snd (ns_connect c auth (io w))) w;
              sys_pool := sys_pool s; sys_done := sys_done s |}
  | Close c =>
      Some {| sys_world := with_io (engine_close c (io w)) w;
              sys_pool := sys_pool s; sys_done := sys_done s |}
  | Sweep gone old =>
      Some {| sys_world := with_io (adapter_sweep gone old (io w)) w;
              sys_pool := sys_pool s; sys_done := sys_done s |}
  end.

Fixpoint sys_run (tr : list action) (s : system) : option system :=
  match tr with
  | [] => Some s
  | a :: later =>
      match sys_step a s with
      | Some s' => sys_run later s'
      | None => None
      end
  end.

Definition sys_wire (s : system) : list (event * list nat) := wire (io (sys_world s)).

(** The store call that returns to its handler when [Resume rid] is taken. *)
Definition returning (rid : nat) (s : system) : option (request * store_call * settled) :=
  match pool_find rid (sys_pool s) with
  | Some e =>
      match fl_promise e with
      | Settled r => Some (fl_req e, fl_call e, r)
      | Pending => None
      end
  | None => None
  end.

(** The store call request [rid] is suspended on and the store has not
    carried out yet. *)
Definition waiting (rid : nat) (s : system) : option (request * store_call) :=
  match pool_find rid (sys_pool s) with
  | Some e =>
      match fl_promise e with
      | Pending => Some (fl_req e, fl_call e)
      | Settled _ => None
      end
  | None => None
  end.

Definition idle (w : world) : system :=
  {| sys_world := w; sys_pool := []; sys_done := [] |}.

(** The schedule that serves request [rid] alone: each store call is carried
    out and returns before anything else happens. *)
Fixpoint serial (rid : nat) (calls : nat) : list action :=
  match calls with
  | 0 => []
  | S n => Exec rid :: Resume rid :: serial rid n
  end.

(* ===================================================================== *)
(** ** What a request is seen to do *)
(* ===================================================================== *)

(** What an observer of one handler sees, in order: each store call with
    what it settled to, and each emission. *)
Inductive obs : Type :=
| Called (c : store_call) (r : settled)
| Emitted (ev : event).

Fixpoint history {A : Type} (p : prog A) (s : store) : list obs :=
  match p with
  | Ret _ | Throw _ => []
  | Await c k =>
      let (r, s') := store_exec c s in Called c r :: history (k r) s'
  | Emit n v k => Emitted {| ev_name := n; ev_payload := v |} :: history k s
  end.

Fixpoint calls_of (h : list obs) : list (store_call * settled) :=
  match h with
  | [] => []
  | Called c r :: later => (c, r) :: calls_of later
  | Emitted _ :: later => calls_of later
  end.

Fixpoint events_of (h : list obs) : list event :=
  match h with
  | [] => []
  | Called _ _ :: later => events_of later
  | Emitted ev :: later => ev :: events_of later
  end.

(** The store call reports that it changed the collection: an [insertedId]
    that passes [if (result.insertedId)], a [modifiedCount] or a
    [deletedCount] other than 0. *)
Definition reports_change (r : settled) : bool :=
  match r with
  | Resolved (RInsert res _) => truthy (insertedId res)
  | Resolved (RUpdate res) => negb (Nat.eqb (modifiedCount res) 0)
  | Resolved (RDelete res) => negb (Nat.eqb (deletedCount res) 0)
  | Resolved (RFind _) => false
  | Rejected _ => false
  end.




(** The event a request announces its change with. *)
Definition event_name (req : request) : string :=
  match req with
  | ReqPost _ => "taskAdded"
  | ReqPut _ _ => "taskUpdated"
  | ReqDelete _ => "taskDeleted"
  end.

(** The store answers every call: no fault is scheduled. *)
Definition no_faults (s : store) : Prop := forallb negb (faults s) = true.

(** No two documents of the collection carry the same [_id]. *)
Definition unique_ids (docs : list document) : Prop := NoDup (map doc_id docs).

Definition holds (oid : N) (docs : list document) : bool :=
  existsb (id_is (VOid oid)) docs.

(** Requests served one after the other. *)
Definition run_all (reqs : list request) (w : world) : world :=
  fold_left (fun w req => snd (run (handler req) w)) reqs w.

Definition deliveries (evs : list event) (h : hub) : list (event * list nat) :=
  map (fun ev => (ev, map sid (sockets h))) evs.

(** Connection [c] is a socket of the namespace: an active session. *)
Definition admitted (c : nat) (h : hub) : bool :=
  existsb (fun s => Nat.eqb c (sid s)) (sockets h).

(** The action is a handshake of connection [c] that supplies an identity
    claim: an [auth.email] that passes [if (email)]. *)
Definition claims_identity (c : nat) (a : action) : bool :=
  match a with
  | Join c' auth => Nat.eqb c c' && truthy_prop (obj_get "email" auth)
  | _ => false
  end.

(** The entry of the pool is a handler of its request, suspended where that
    handler suspends after some calls have settled. *)
Definition entry_ok (e : inflight) : Prop :=
  exists hist,
    pending_after (handler (fl_req e)) hist = Some (fl_call e, fl_k e).

Definition pool_ok (s : system) : Prop :=
  forall e, In e (sys_pool s) -> entry_ok e.

Definition sys_hub (s : system) : hub := io (sys_world s).

(** The action is a handshake of connection [c] that a server in state [h]
    lets in: it supplies an identity claim, or it recovers a session. *)
Definition lets_in (c : nat) (a : action) (h : hub) : bool :=
  match a with
  | Join c' auth =>
      Nat.eqb c c'
      && (truthy_prop (obj_get "email" auth)
          || match recovery auth h with Some _ => true | None => false end)
  | _ => false
  end.

(** Along the run [tr] from [s], no handshake of connection [c] supplies an
    identity claim or recovers a session. *)
Fixpoint unauthenticated (c : nat) (tr : list action) (s : system) : bool :=
  match tr with
  | [] => true
  | a :: later =>
      negb (lets_in c a (sys_hub s))
      && match sys_step a s with
         | Some s' => unauthenticated c later s'
         | None => true
         end
  end.

(* ===================================================================== *)
(** ** A server to run the handlers on *)
(* ===================================================================== *)

(** The identifier string of [ObjectId] 1. *)
Definition id1 : string := "000000000000000000000001".

Definition task1 : document :=
  [("_id", VOid 1); ("userEmail", VStr "a@x.com"); ("title", VStr "T1")].

(** No task yet, nobody connected. *)
Definition world_empty : world :=
  {| db := {| tasks := []; pk_counter := 1; faults := []; journal := [] |};
     io := {| engine_clients := []; sockets := []; wire := [];
              minted := 0; packets := []; sessions := [] |};
     topology_connected := true |}.

(** One stored task, one session (connection 7), and a schedule of faults
    for the store. *)
Definition world_one (schedule : list bool) : world :=
  {| db := {| tasks := [task1]; pk_counter := 2; faults := schedule; journal := [] |};
     io := {| engine_clients := [7];
              sockets := [{| sid := 7; pid := id_string 0;
                             userEmail := Some (VStr "a@x.com") |}];
              wire := []; minted := 1; packets := []; sessions := [] |};
     topology_connected := true |}.

(** The state a run of the event loop ends in. *)
Definition after (tr : list action) (s : system) : system :=
  match sys_run tr s with
  | Some s' => s'
  | None => s
  end.

(** An update and a deletion of the same task, interleaved: the update's
    [updateOne] returns (third action); its [findOne] is carried out by the
    store before the deletion's [deleteOne], but the reply to [deleteOne]
    reaches the event loop first. *)
Definition race : list action :=
  [Arrive 1 (ReqPut id1 [("title", VStr "T2")]); Exec 1; Resume 1; Exec 1;
   Arrive 2 (ReqDelete id1); Exec 2; Resume 2; Resume 1].

(** Another interleaving: the deletion is served between the return of the
    update's [updateOne] and its [findOne], which then reads [null]. *)
Definition race_reread_late : list action :=
  [Arrive 1 (ReqPut id1 [("title", VStr "T2")]); Exec 1; Resume 1;
   Arrive 2 (ReqDelete id1); Exec 2; Resume 2; Exec 1; Resume 1].

(** The same two requests, the update's [findOne] returning first. *)
Definition in_order : list action :=
  [Arrive 1 (ReqPut id1 [("title", VStr "T2")]); Exec 1; Resume 1; Exec 1;
   Arrive 2 (ReqDelete id1); Exec 2; Resume 1; Resume 2].

(* ===================================================================== *)
(** ** The whole server: the [users] collection and the reading routes *)
(* ===================================================================== *)

(** The filter value names a query operator ([$ne], [$in], ...). *)
Definition has_operator (o : document) : bool :=
  existsb (fun kv => starts_with_dollar (fst kv)) o.

(** [{ field: q }] as an equality condition: the field has the value [q],
    or is an array with an element that has; [null] also matches a document
    without the field. *)
Definition eq_match (q : value) (field : option value) : bool :=
  match field with
  | Some v =>
      value_eqb q v
      || match v with
         | VArr items => existsb (value_eqb q) items
         | _ => false
         end
  | None => match q with VNull => true | _ => false end
  end.

(** The server process with everything it talks to.  [operators] is what the
    database makes of a filter value that names query operators: the test it
    applies to the field, or nothing when it refuses the query.  That
    language is not modelled; it is whatever the database at hand has. *)
Record server := {
  srv_world : world;
  users : list document;
  operators : document -> option (option value -> bool)
}.

Definition with_world (w : world) (sv : server) : server :=
  {| srv_world := w; users := users sv; operators := operators sv |}.

(** A call outside the four of the mutation handlers takes its turn in the
    schedule of faults all the same. *)
Definition take_fault (s : store) : bool * store :=
  (match faults s with true :: _ => true | _ => false end,
   {| tasks := tasks s; pk_counter := pk_counter s;
      faults := tl (faults s); journal := journal s |}).

Definition condition (sv : server) (q : value) : option (option value -> bool) :=
  match q with
  | VObj o => if has_operator o then operators sv o else Some (eq_match q)
  | _ => Some (eq_match q)
  end.

(** [tasksCollection.find({ field: q }).toArray()]: the matching documents
    in the order of the collection, or a rejection. *)
Definition tasks_find (field : string) (q : value) (sv : server)
  : option (list document) * server :=
  let (fault, s) := take_fault (db (srv_world sv)) in
  let sv' := with_world (with_db s (srv_world sv)) sv in
  if fault then (None, sv')
  else
    match condition sv q with
    | Some test => (Some (filter (fun d => test (obj_get field d)) (tasks s)), sv')
    | None => (None, sv')
    end.

(** [usersCollection.insertOne(user)] *)
Definition users_insertOne (user : document) (sv : server) : settled * server :=
  let (fault, s) := take_fault (db (srv_world sv)) in
  if fault then
    (Rejected (JsError "MongoNetworkError"),
     with_world (with_db s (srv_world sv)) sv)
  else
    let '(r, docs, pk) := coll_insertOne user (users sv) (pk_counter s) in
    (r, {| srv_world :=
             with_db {| tasks := tasks s; pk_counter := pk;
                        faults := faults s; journal := journal s |}
                     (srv_world sv);
           users := docs;
           operators := operators sv |}).

(** [app.post("/users", ...)].  The answer is the driver's result object. *)
Definition post_users (body : document) (sv : server) : response * server :=
  let user := body in
  match users_insertOne user sv with
  | (Resolved (RInsert result _), sv') =>
      ({| status := 201;
          json := VObj [("acknowledged", VBool true);
                        ("insertedId", insertedId result)] |}, sv')
  | (_, sv') =>
      ({| status := 500; json := error_body "User creation failed" |}, sv')
  end.

(** [app.get("/tasks", ...)], on [req.query]. *)
Definition get_tasks (query : document) (sv : server) : response * server :=
  match obj_get "email" query with
  | Some userEmail =>
      if negb (truthy userEmail) then
        ({| status := 400; json := error_body "Email required" |}, sv)
      else
        match tasks_find "userEmail" userEmail sv with
        | (Some found, sv') =>
            ({| status := 200; json := VArr (map VObj found) |}, sv')
        | (None, sv') =>
            ({| status := 500; json := error_body "Failed to fetch tasks" |}, sv')
        end
  | None => ({| status := 400; json := error_body "Email required" |}, sv)
  end.

(** A mutation request served by the whole server. *)
Definition serve (req : request) (sv : server) : completion response * server :=
  let (c, w) := run (handler req) (srv_world sv) in (c, with_world w sv).

(** The server on [w] with no user, on a database that refuses every
    operator. *)
Definition server_on (w : world) : server :=
  {| srv_world := w; users := []; operators := fun _ => None |}.

(* ===================================================================== *)
(** ** Identifiers on the wire *)
(* ===================================================================== *)

(** [oid.toHexString()], which is how [res.json] and [io.emit] write an
    [ObjectId]: its twelve bytes as 24 lower-case hexadecimal digits. *)
Definition ObjectId_toHexString (oid : N) : string := hex_digits 24 oid "".

(** An [ObjectId] is twelve bytes. *)
Definition ObjectId_range (oid : N) : Prop := (oid < 16 ^ 24)%N.

(** The [ObjectId]s of the collection were all generated before [pk]. *)
Definition ids_below (pk : N) (docs : list document) : Prop :=
  forall d n, In d docs -> doc_id d = Some (VOid n) -> (n < pk)%N.

(** The body comes from [express.json()]: JSON has no [ObjectId], so its
    [_id], if any, is none. *)
Definition json_id (body : document) : bool :=
  match obj_get "_id" body with
  | Some (VOid _) => false
  | _ => true
  end.

(** The request is one a client can send. *)
Definition json_request (req : request) : bool :=
  match req with
  | ReqPost body => json_id body
  | ReqPut _ _ | ReqDelete _ => true
  end.

(** Every [ObjectId] among the tasks is older than the next one the driver
    will generate. *)
Definition fresh_ids (w : world) : Prop :=
  ids_below (pk_counter (db w)) (tasks (db w)).

(* ===================================================================== *)
(** ** Start-up *)
(* ===================================================================== *)

(** What [connectDB] and [initializeServer] read and write: the globals
    [isConnected] and [db], the calls made on the driver, the routes
    registered on [app], whether [httpServer] listens, and the code the
    process exited with, if it did. *)
Record process := {
  isConnected : bool;
  db_assigned : bool;
  driver_calls : list string;
  routes : list string;
  listening : bool;
  exited : option nat
}.

(** What the deployment does to the two calls of [connectDB]. *)
Record deployment := { connect_succeeds : bool; ping_succeeds : bool }.

Definition driver_call (name : string) (p : process) : process :=
  {| isConnected := isConnected p; db_assigned := db_assigned p;
     driver_calls := driver_calls p ++ [name]; routes := routes p;
     listening := listening p; exited := exited p |}.

(** [process.exit(code)] *)
Definition process_exit (code : nat) (p : process) : process :=
  {| isConnected := isConnected p; db_assigned := db_assigned p;
     driver_calls := driver_calls p; routes := routes p;
     listening := listening p; exited := Some code |}.

(** [connectDB()] *)
Definition connectDB (env : deployment) (p : process) : process :=
  if isConnected p then p
  else
    let p1 := driver_call "connect" p in
    if connect_succeeds env then
      let p2 := driver_call "ping" p1 in
      if ping_succeeds env then
        {| isConnected := true; db_assigned := true;
           driver_calls := driver_calls p2; routes := routes p2;
           listening := listening p2; exited := exited p2 |}
      else process_exit 1 p2
    else process_exit 1 p1.


(** The process as [node index.js] starts it. *)
Definition process_start : process :=
  {| isConnected := false; db_assigned := false; driver_calls := [];
     routes := []; listening := false; exited := None |}.

(* ===================================================================== *)
(** ** Values and objects: basic facts *)
(* ===================================================================== *)

Lemma value_eqb_eq (a b : value) : value_eqb a b = true <-> a = b.
Proof.
  revert b.
  induction a as [ | x | x | x | x | l H | l H ] using value_nested_ind;
    intros [ | y | y | y | y | m | m ]; cbn;
    try (split; [discriminate | congruence]).
  - split; trivial.
  - rewrite Bool.eqb_true_iff. split; congruence.
  - rewrite Z.eqb_eq. split; congruence.
  - rewrite String.eqb_eq. split; congruence.
  - rewrite N.eqb_eq. split; congruence.
  - revert m. induction H as [|x l Hx Hl IH]; intros [|y m];
      try (split; [discriminate | congruence]).
    + split; trivial.
    + rewrite andb_true_iff, Hx, IH. split.
      * intros [-> E]. injection E as ->. reflexivity.
      * intros E. injection E as -> ->. auto.
  - revert m. induction H as [|[k x] l Hx Hl IH]; intros [|[k' y] m];
      try (split; [discriminate | congruence]).
    + split; trivial.
    + cbn in Hx. rewrite !andb_true_iff, String.eqb_eq, Hx, IH. split.
      * intros [[-> ->] E]. injection E as ->. reflexivity.
      * intros E. injection E as -> -> ->. auto.
Qed.

Lemma value_eqb_refl (a : value) : value_eqb a a = true.
Proof. apply value_eqb_eq. reflexivity. Qed.

Lemma doc_eqb_eq (a b : document) : doc_eqb a b = true <-> a = b.
Proof.
  unfold doc_eqb. rewrite value_eqb_eq. split; congruence.
Qed.

Lemma doc_eqb_neq (a b : document) : doc_eqb a b = false <-> a <> b.
Proof.
  rewrite <- doc_eqb_eq. destruct (doc_eqb a b); split; congruence.
Qed.

Lemma obj_get_set_same (k : string) (v : value) (o : document) :
  obj_get k (obj_set k v o) = Some v.
Proof.
  induction o as [|[k' v'] o IH]; cbn.
  - rewrite String.eqb_refl. reflexivity.
  - destruct (String.eqb k k') eqn:E; cbn; rewrite ?String.eqb_refl, ?E; auto.
Qed.

Lemma obj_get_set_other (k k' : string) (v : value) (o : document) :
  k <> k' -> obj_get k (obj_set k' v o) = obj_get k o.
Proof.
  intros N. apply String.eqb_neq in N.
  induction o as [|[k2 v2] o IH]; cbn.
  - rewrite N. reflexivity.
  - destruct (String.eqb k' k2) eqn:E; cbn.
    + apply String.eqb_eq in E. subst k2. rewrite N. reflexivity.
    + destruct (String.eqb k k2); auto.
Qed.

Lemma obj_get_delete_same (k : string) (o : document) :
  obj_get k (obj_delete k o) = None.
Proof.
  induction o as [|[k' v'] o IH]; cbn; auto.
  destruct (String.eqb k k') eqn:E; cbn; rewrite ?E; auto.
Qed.

Lemma obj_get_delete_other (k k' : string) (o : document) :
  k <> k' -> obj_get k (obj_delete k' o) = obj_get k o.
Proof.
  intros N. apply String.eqb_neq in N.
  induction o as [|[k2 v2] o IH]; cbn; auto.
  destruct (String.eqb k' k2) eqn:E; cbn.
  - apply String.eqb_eq in E. subst k2. rewrite N. auto.
  - destruct (String.eqb k k2); auto.
Qed.

Lemma has_key_delete (k : string) (o : document) :
  has_key k (obj_delete k o) = false.
Proof. unfold has_key. rewrite obj_get_delete_same. reflexivity. Qed.

(** Assigning the fields of [src] leaves a field [src] does not name alone. *)
Lemma obj_get_assign_absent (k : string) (src target : document) :
  obj_get k src = None -> obj_get k (obj_assign target src) = obj_get k target.
Proof.
  unfold obj_assign. revert target.
  induction src as [|[k' v'] src IH]; intros target H; cbn in *; auto.
  destruct (String.eqb k k') eqn:E; [discriminate|].
  rewrite IH by exact H. apply obj_get_set_other.
  apply String.eqb_neq. exact E.
Qed.

Lemma obj_get_In (k : string) (o : document) :
  obj_get k o = None -> ~ In k (map fst o).
Proof.
  induction o as [|[k' v'] o IH]; cbn; auto.
  destruct (String.eqb k k') eqn:E; [discriminate|].
  apply String.eqb_neq in E. intros H [F|F]; [congruence | exact (IH H F)].
Qed.

Lemma obj_get_notin (k : string) (o : document) :
  ~ In k (map fst o) -> obj_get k o = None.
Proof.
  induction o as [|[k' v'] o IH]; cbn; auto.
  intros H. destruct (String.eqb_spec k k') as [->|N].
  - exfalso. auto.
  - apply IH. auto.
Qed.

(** Assigning the fields of [src] gives a field [src] names the value [src]
    has for it. *)
Lemma obj_get_assign_present (k : string) (v : value) (src target : document) :
  unique_keys src -> obj_get k src = Some v ->
  obj_get k (obj_assign target src) = Some v.
Proof.
  unfold obj_assign, unique_keys. revert target.
  induction src as [|[k' v'] src IH]; intros target U H; cbn in *; [discriminate|].
  inversion U as [|? ? Hnotin U']; subst.
  destruct (String.eqb_spec k k') as [->|N].
  - injection H as ->.
    change (obj_get k' (obj_assign (obj_set k' v target) src) = Some v).
    rewrite obj_get_assign_absent by (apply obj_get_notin; exact Hnotin).
    apply obj_get_set_same.
  - apply IH; assumption.
Qed.

Lemma obj_get_assign (k : string) (src target : document) :
  unique_keys src ->
  obj_get k (obj_assign target src) =
  match obj_get k src with
  | Some v => Some v
  | None => obj_get k target
  end.
Proof.
  intros U. destruct (obj_get k src) eqn:E.
  - apply obj_get_assign_present; assumption.
  - apply obj_get_assign_absent; assumption.
Qed.

Lemma keys_set (k : string) (v : value) (o : document) :
  map fst (obj_set k v o) =
  if has_key k o then map fst o else map fst o ++ [k].
Proof.
  unfold has_key. induction o as [|[k' v'] o IH]; cbn; auto.
  destruct (String.eqb_spec k k') as [->|N]; cbn; auto.
  rewrite IH. destruct (obj_get k o); reflexivity.
Qed.

Lemma unique_keys_set (k : string) (v : value) (o : document) :
  unique_keys o -> unique_keys (obj_set k v o).
Proof.
  unfold unique_keys. intros U. rewrite keys_set. unfold has_key.
  destruct (obj_get k o) eqn:E; auto.
  apply obj_get_In in E.
  apply NoDup_app; auto.
  - repeat constructor. intros [].
  - intros x Hx [<-|[]]. contradiction.
Qed.

(* ===================================================================== *)
(** ** Paths of an update *)
(* ===================================================================== *)

Lemma obj_set_same_value (k : string) (v : value) (o : document) :
  obj_get k o = Some v -> obj_set k v o = o.
Proof.
  induction o as [|[k' v'] o IH]; cbn; [discriminate|].
  destruct (String.eqb_spec k k') as [->|N].
  - intros E. injection E as ->. reflexivity.
  - intros E. rewrite IH by exact E. reflexivity.
Qed.

Lemma obj_set_absent (k : string) (v : value) (o : document) :
  obj_get k o = None -> obj_set k v o = o ++ [(k, v)].
Proof.
  induction o as [|[k' v'] o IH]; cbn; auto.
  destruct (String.eqb k k'); [discriminate|].
  intros H. rewrite IH by exact H. reflexivity.
Qed.

Lemma obj_get_app (k : string) (o more : document) :
  obj_get k (o ++ more) =
  match obj_get k o with
  | Some v => Some v
  | None => obj_get k more
  end.
Proof.
  induction o as [|[k' v'] o IH]; cbn; auto.
  destruct (String.eqb k k'); auto.
Qed.

Lemma nth_error_list_set_same {A : Type} (i : nat) (x : A) (l : list A) :
  i < List.length l -> nth_error (list_set i x l) i = Some x.
Proof.
  revert i. induction l as [|y l IH]; intros [|i] H; cbn in *; try lia; auto.
  all: try (apply IH; lia).
Qed.

Lemma nth_error_list_set_other {A : Type} (i j : nat) (x : A) (l : list A) :
  i <> j -> nth_error (list_set j x l) i = nth_error l i.
Proof.
  revert i j. induction l as [|y l IH]; intros [|i] [|j] H; cbn; auto; try lia.
  all: try (apply IH; lia).
Qed.

Lemma list_set_same_value {A : Type} (i : nat) (x : A) (l : list A) :
  nth_error l i = Some x -> list_set i x l = l.
Proof.
  revert i. induction l as [|y l IH]; intros [|i] H; cbn in *; try discriminate.
  - injection H as ->. reflexivity.
  - rewrite IH by exact H. reflexivity.
Qed.

Lemma all_some_map {A B : Type} (f : A -> option B) (l : list A) (l' : list B) :
  all_some (map f l) = Some l' -> Forall2 (fun x y => f x = Some y) l l'.
Proof.
  revert l'. induction l as [|x l IH]; intros l'; cbn.
  - intros E. injection E as <-. constructor.
  - destruct (f x) as [y|] eqn:F; [|discriminate].
    destruct (all_some (map f l)) as [ys|]; [|discriminate].
    intros E. injection E as <-. constructor; auto.
Qed.

Lemma all_some_fixed {A : Type} (f : A -> option A) (l : list A) :
  Forall (fun x => f x = Some x) l -> all_some (map f l) = Some l.
Proof.
  induction 1 as [|x l Hx Hl IH]; cbn; auto.
  rewrite Hx, IH. reflexivity.
Qed.

(** Among the names that are not written with leading zeros, an element of
    an array has one name only. *)
Lemma canonical_index (a b : string) (i : N) :
  canonical_name a = true ->
  canonical_name b = true ->
  array_index a = Some i ->
  array_index b = Some i ->
  a = b.
Proof.
  unfold canonical_name. intros Ca Cb Ia Ib. rewrite Ia in Ca. rewrite Ib in Cb.
  apply String.eqb_eq in Ca. apply String.eqb_eq in Cb. congruence.
Qed.

Lemma kind_all_elements (part : string) :
  kind_of part = AllElements -> part = "$[]".
Proof.
  unfold kind_of.
  destruct (String.eqb part ""); [discriminate|].
  destruct (String.eqb part "$"); [discriminate|].
  destruct (String.eqb_spec part "$[]") as [->|_]; [reflexivity|].
  destruct (String.prefix "$[" part && ends_with "]" part); discriminate.
Qed.

Lemma create_path_at (path : list string) (v c : value) :
  create_path path v = Some c -> at_path path v c.
Proof.
  revert c. induction path as [|part rest IH]; intros c; cbn.
  - intros E. injection E as <-. reflexivity.
  - destruct (kind_of part); try discriminate.
    destruct (create_path rest v) as [c'|]; [|discriminate].
    intros E. injection E as <-. cbn. rewrite String.eqb_refl. apply IH. reflexivity.
Qed.

(** After [set_at], the value is at the end of the path. *)
Lemma set_at_at (path : list string) (v cur cur' : value) :
  set_at path v cur = Some cur' -> at_path path v cur'.
Proof.
  revert cur cur'. induction path as [|part rest IH]; intros cur cur'; cbn.
  - intros E. injection E as <-. reflexivity.
  - destruct (kind_of part); try discriminate.
    + destruct cur as [ | | | | |items|o]; try discriminate.
      * destruct (array_index part) as [i|]; [|discriminate]. cbv zeta.
        destruct (N.ltb_spec i (N.of_nat (List.length items))) as [L|L].
        -- destruct (nth_error items (N.to_nat i)) as [child|] eqn:Nth; [|discriminate].
           destruct (set_at rest v child) as [c|] eqn:S; [|discriminate].
           intros E. injection E as <-.
           rewrite nth_error_list_set_same by lia. eapply IH. exact S.
        -- destruct (i - N.of_nat (List.length items) <=? max_padding)%N; [|discriminate].
           destruct (create_path rest v) as [c|] eqn:C; [|discriminate].
           intros E. injection E as <-.
           rewrite nth_error_app2 by lia.
           rewrite nth_error_app2 by (rewrite repeat_length; lia).
           rewrite repeat_length.
           replace (N.to_nat i - List.length items - N.to_nat (i - N.of_nat (List.length items)))
             with 0 by lia.
           cbn. apply create_path_at. exact C.
      * destruct (obj_get part o) as [child|] eqn:G.
        -- destruct (set_at rest v child) as [c|] eqn:S; [|discriminate].
           intros E. injection E as <-. rewrite obj_get_set_same. eapply IH. exact S.
        -- destruct (create_path rest v) as [c|] eqn:C; [|discriminate].
           intros E. injection E as <-. rewrite obj_get_app, G. cbn.
           rewrite String.eqb_refl. apply create_path_at. exact C.
    + destruct cur as [ | | | | |items|o]; try discriminate.
      destruct (all_some (map (set_at rest v) items)) as [items'|] eqn:A; [|discriminate].
      intros E. injection E as <-.
      apply all_some_map in A.
      induction A as [|x y l l' Hxy Hl IHl]; constructor; auto.
      eapply IH. exact Hxy.
Qed.

(** Setting a value that is there already changes nothing. *)
Lemma at_path_set_at (path : list string) (v cur : value) :
  at_path path v cur -> set_at path v cur = Some cur.
Proof.
  revert cur. induction path as [|part rest IH]; intros cur; cbn.
  - intros ->. reflexivity.
  - destruct (kind_of part); try tauto.
    + destruct cur as [ | | | | |items|o]; try tauto.
      * destruct (array_index part) as [i|]; [|tauto]. cbv zeta.
        destruct (nth_error items (N.to_nat i)) as [child|] eqn:Nth; [|tauto].
        intros H.
        assert (N.to_nat i < List.length items) as L
            by (apply nth_error_Some; congruence).
        destruct (N.ltb_spec i (N.of_nat (List.length items))) as [_|L']; [|lia].
        rewrite (IH _ H), (list_set_same_value _ _ _ Nth). reflexivity.
      * destruct (obj_get part o) as [child|] eqn:G; [|tauto].
        intros H. rewrite (IH _ H), (obj_set_same_value _ _ _ G). reflexivity.
    + destruct cur as [ | | | | |items|o]; try tauto.
      intros H. rewrite all_some_fixed; [reflexivity|].
      induction H as [|x l Hx Hl IHl]; constructor; auto.
Qed.

(** A value at the end of a path stays there when another path of the same
    update, not in conflict with it, is set, as long as the two cannot be
    two names of one array element. *)
Lemma at_path_kept (p q : list string) (v w cur cur' : value) :
  conflict p q = false ->
  forallb canonical_name p = true ->
  forallb canonical_name q = true ->
  at_path p v cur ->
  set_at q w cur = Some cur' ->
  at_path p v cur'.
Proof.
  revert q cur cur'. induction p as [|a p IH]; intros [|b q] cur cur';
    cbn [conflict]; try discriminate.
  cbn [forallb]. rewrite !andb_true_iff.
  destruct (String.eqb_spec a b) as [<-|N].
  - intros C [Ca Cp] [_ Cq]. cbn. destruct (kind_of a); try tauto.
    + destruct cur as [ | | | | |items|o]; try tauto.
      * destruct (array_index a) as [i|]; [|tauto]. cbv zeta.
        destruct (nth_error items (N.to_nat i)) as [child|] eqn:Nth; [|tauto].
        assert (N.to_nat i < List.length items) as L
            by (apply nth_error_Some; congruence).
        destruct (N.ltb_spec i (N.of_nat (List.length items))) as [_|L']; [|lia].
        intros H. destruct (set_at q w child) as [c|] eqn:S; [|discriminate].
        intros E. injection E as <-.
        rewrite nth_error_list_set_same by exact L. eapply IH; eauto.
      * destruct (obj_get a o) as [child|] eqn:G; [|tauto].
        intros H. destruct (set_at q w child) as [c|] eqn:S; [|discriminate].
        intros E. injection E as <-.
        rewrite obj_get_set_same. eapply IH; eauto.
    + destruct cur as [ | | | | |items|o]; try tauto.
      intros H.
      destruct (all_some (map (set_at q w) items)) as [items'|] eqn:A; [|discriminate].
      intros E. injection E as <-.
      apply all_some_map in A. revert H.
      induction A as [|x y l l' Hxy Hl IHl]; intros H; constructor;
        inversion H; subst; eauto.
  - intros X [Ca Cp] [Cb Cq]. cbn [at_path set_at].
    destruct (kind_of a) eqn:Ka; try tauto;
      destruct (kind_of b) eqn:Kb; try discriminate.
    + destruct cur as [ | | | | |items|o]; try tauto.
      * destruct (array_index a) as [i|] eqn:Ia; [|tauto].
        destruct (array_index b) as [j|] eqn:Ib; [|discriminate]. cbv zeta.
        destruct (nth_error items (N.to_nat i)) as [child|] eqn:Nth; [|tauto].
        assert (N.to_nat i < List.length items) as L
            by (apply nth_error_Some; congruence).
        assert (i <> j) as NE.
        { intros ->. apply N. exact (canonical_index _ _ _ Ca Cb Ia Ib). }
        intros H.
        destruct (N.ltb_spec j (N.of_nat (List.length items))) as [Lj|Lj].
        -- destruct (nth_error items (N.to_nat j)) as [cj|]; [|discriminate].
           destruct (set_at q w cj) as [c|]; [|discriminate].
           intros E. injection E as <-.
           rewrite nth_error_list_set_other by lia. rewrite Nth. exact H.
        -- destruct (j - N.of_nat (List.length items) <=? max_padding)%N; [|discriminate].
           destruct (create_path q w) as [c|]; [|discriminate].
           intros E. injection E as <-.
           rewrite nth_error_app1 by exact L. rewrite Nth. exact H.
      * destruct (obj_get a o) as [child|] eqn:G; [|tauto].
        intros H. destruct (obj_get b o) as [cb|] eqn:Gb.
        -- destruct (set_at q w cb) as [c|]; [|discriminate].
           intros E. injection E as <-.
           rewrite obj_get_set_other by exact N. rewrite G. exact H.
        -- destruct (create_path q w) as [c|]; [|discriminate].
           intros E. injection E as <-. rewrite obj_get_app, G. exact H.
    + unfold is_all_elements in X. rewrite Ka, Kb in X. discriminate X.
    + unfold is_all_elements in X. rewrite Ka, Kb in X. discriminate X.
    + exfalso. apply N.
      rewrite (kind_all_elements _ Ka), (kind_all_elements _ Kb). reflexivity.
Qed.

Lemma set_path_at (path : list string) (v : value) (d d' : document) :
  set_path path v d = Some d' ->
  at_path path v (VObj d') /\ top_ok path = true.
Proof.
  unfold set_path, top_ok. destruct path as [|part rest]; [discriminate|].
  destruct (starts_with_dollar part); cbn [andb negb].
  - destruct rest; cbn [orb]; [discriminate|].
    destruct (negb (has_key part d)); [discriminate|].
    destruct (set_at (part :: s :: rest) v (VObj d)) as [[ | | | | | |o]|] eqn:S;
      try discriminate.
    intros E. injection E as <-. split; [|reflexivity]. eapply set_at_at. exact S.
  - destruct (set_at (part :: rest) v (VObj d)) as [[ | | | | | |o]|] eqn:S;
      try discriminate.
    intros E. injection E as <-. split; [|reflexivity]. eapply set_at_at. exact S.
Qed.


Lemma set_path_noop (path : list string) (v : value) (d : document) :
  top_ok path = true ->
  at_path path v (VObj d) ->
  set_path path v d = Some d.
Proof.
  unfold set_path, top_ok. destruct path as [|part rest]; [discriminate|].
  intros T H. rewrite (at_path_set_at _ _ _ H).
  assert (has_key part d = true) as K.
  { cbn in H. unfold has_key. destruct (kind_of part); try tauto.
    destruct (obj_get part d); [reflexivity|tauto]. }
  rewrite K. cbn [negb]. rewrite orb_false_r.
  apply negb_true_iff in T. rewrite T. reflexivity.
Qed.

(** A path changes no field of the document but the one it starts with. *)
Lemma set_path_other_fields (path : list string) (v : value) (d d' : document)
      (f : string) :
  set_path path v d = Some d' ->
  hd_error path <> Some f ->
  obj_get f d' = obj_get f d.
Proof.
  unfold set_path. destruct path as [|part rest]; [discriminate|].
  destruct (starts_with_dollar part
            && (match rest with [] => true | _ => false end || negb (has_key part d)));
    [discriminate|].
  cbn [set_at hd_error]. intros E N.
  assert (f <> part) as N' by congruence.
  destruct (kind_of part); try discriminate.
  destruct (obj_get part d) as [child|] eqn:G.
  - destruct (set_at rest v child) as [c|]; [|discriminate].
    injection E as <-. apply obj_get_set_other. exact N'.
  - destruct (create_path rest v) as [c|]; [|discriminate].
    injection E as <-. rewrite obj_get_app. cbn.
    apply String.eqb_neq in N'. rewrite N'. destruct (obj_get f d); reflexivity.
Qed.

(** A field of the document is at the end of no other path, whatever the
    names in it; a longer path needs names that are not written with leading
    zeros. *)
Lemma set_path_kept (p q : list string) (v w : value) (d d' : document) :
  conflict p q = false ->
  tl p = [] \/ (forallb canonical_name p = true /\ forallb canonical_name q = true) ->
  at_path p v (VObj d) ->
  set_path q w d = Some d' ->
  at_path p v (VObj d').
Proof.
  intros C [T|[Cp Cq]] H S.
  - destruct p as [|a p]; [destruct q; discriminate C|]. cbn in T. subst p.
    assert (obj_get a d' = obj_get a d) as G.
    { eapply set_path_other_fields; [exact S|].
      destruct q as [|b q]; [discriminate S|]. cbn [hd_error]. intros E.
      injection E as ->. cbn [conflict] in C. rewrite String.eqb_refl in C.
      destruct q; discriminate C. }
    cbn in H |- *. destruct (kind_of a); try tauto. rewrite G. exact H.
  - revert S. unfold set_path. destruct q as [|part rest]; [discriminate|].
    destruct (starts_with_dollar part
              && (match rest with [] => true | _ => false end || negb (has_key part d)));
      [discriminate|].
    destruct (set_at (part :: rest) w (VObj d)) as [[ | | | | | |o]|] eqn:S;
      try discriminate.
    intros E. injection E as <-. eapply at_path_kept; eauto.
Qed.

(** *** The paths of an update, one after the other *)

Lemma apply_updates_cons (u : update) (ups : list update) (d : document) :
  apply_updates (u :: ups) d =
  match set_path (fst u) (snd u) d with
  | Some x => apply_updates ups x
  | None => None
  end.
Proof.
  unfold apply_updates. cbn [fold_left].
  destruct (set_path (fst u) (snd u) d); [reflexivity|].
  induction ups as [|x ups IH]; cbn; auto.
Qed.

Lemma apply_updates_kept (p : list string) (v : value) (ups : list update)
      (d d' : document) :
  forallb (fun x => negb (conflict p (fst x))) ups = true ->
  tl p = [] \/ (forallb canonical_name p = true
                /\ forall u, In u ups -> forallb canonical_name (fst u) = true) ->
  at_path p v (VObj d) ->
  apply_updates ups d = Some d' ->
  at_path p v (VObj d').
Proof.
  revert d. induction ups as [|u ups IH]; intros d.
  - intros _ _ H E. injection E as <-. exact H.
  - cbn [forallb]. rewrite andb_true_iff, negb_true_iff. intros [C F] K H.
    rewrite apply_updates_cons.
    destruct (set_path (fst u) (snd u) d) as [x|] eqn:S; [|discriminate].
    apply IH; [exact F| |].
    + destruct K as [K|[Kp K]]; [left; exact K|right].
      split; [exact Kp|]. intros u' Hu. apply K. right. exact Hu.
    + eapply set_path_kept; [exact C| |exact H|exact S].
      destruct K as [K|[Kp K]]; [left; exact K|right].
      split; [exact Kp|]. apply K. left. reflexivity.
Qed.

(** When the paths of an update are free of conflicts, each of them has its
    value once all of them are applied: a field of the document always, a
    longer path when no name of the update is written with leading zeros. *)
Lemma apply_updates_at (ups : list update) (d d' : document) :
  conflict_free ups = true ->
  apply_updates ups d = Some d' ->
  forall u, In u ups ->
    top_ok (fst u) = true
    /\ (tl (fst u) = []
        \/ (forall x, In x ups -> forallb canonical_name (fst x) = true) ->
        at_path (fst u) (snd u) (VObj d')).
Proof.
  revert d. induction ups as [|u0 ups IH]; intros d; [intros _ _ u []|].
  cbn [conflict_free]. rewrite andb_true_iff. intros [C F].
  rewrite apply_updates_cons.
  destruct (set_path (fst u0) (snd u0) d) as [x|] eqn:S; [|discriminate].
  intros E u [<-|Hin].
  - destruct (set_path_at _ _ _ _ S) as [A T]. split; [exact T|]. intros K.
    eapply apply_updates_kept; [exact C| |exact A|exact E].
    destruct K as [K|K]; [left; exact K|right]. split.
    + apply K. left. reflexivity.
    + intros u' Hu. apply K. right. exact Hu.
  - destruct (IH x F E u Hin) as [T A]. split; [exact T|]. intros K. apply A.
    destruct K as [K|K]; [left; exact K|right].
    intros u' Hu. apply K. right. exact Hu.
Qed.

Lemma apply_updates_noop (ups : list update) (d : document) :
  Forall (fun u => at_path (fst u) (snd u) (VObj d) /\ top_ok (fst u) = true) ups ->
  apply_updates ups d = Some d.
Proof.
  induction 1 as [|u ups [A T] Hl IH]; [reflexivity|].
  rewrite apply_updates_cons, (set_path_noop _ _ _ T A). exact IH.
Qed.

(** Paths that find their values in place modify nothing. *)
Lemma modifies_noop (ups : list update) (d : document) :
  Forall (fun u => at_path (fst u) (snd u) (VObj d) /\ top_ok (fst u) = true) ups ->
  modifies ups d = false.
Proof.
  induction 1 as [|u ups [A T] Hl IH]; [reflexivity|].
  cbn [modifies]. rewrite (set_path_noop _ _ _ T A), IH.
  rewrite (proj2 (doc_eqb_eq d d) eq_refl). reflexivity.
Qed.

(** An update that modifies nothing leaves the document as it is. *)
Lemma modifies_same (ups : list update) (d d' : document) :
  apply_updates ups d = Some d' ->
  modifies ups d = false ->
  d' = d.
Proof.
  revert d. induction ups as [|u ups IH]; intros d.
  - intros E _. injection E as <-. reflexivity.
  - rewrite apply_updates_cons. cbn [modifies].
    destruct (set_path (fst u) (snd u) d) as [x|]; [|discriminate].
    intros E M. apply orb_false_iff in M. destruct M as [M1 M2].
    apply negb_false_iff in M1. apply doc_eqb_eq in M1. subst x.
    exact (IH d E M2).
Qed.

Lemma modifies_changed (ups : list update) (d d' : document) :
  apply_updates ups d = Some d' ->
  d' <> d ->
  modifies ups d = true.
Proof.
  intros E N. destruct (modifies ups d) eqn:M; [reflexivity|].
  exfalso. apply N. exact (modifies_same _ _ _ E M).
Qed.

Lemma apply_updates_other_fields (ups : list update) (d d' : document) (f : string) :
  apply_updates ups d = Some d' ->
  (forall u, In u ups -> hd_error (fst u) <> Some f) ->
  obj_get f d' = obj_get f d.
Proof.
  revert d. induction ups as [|u ups IH]; intros d.
  - intros E _. injection E as <-. reflexivity.
  - rewrite apply_updates_cons.
    destruct (set_path (fst u) (snd u) d) as [x|] eqn:S; [|discriminate].
    intros E H. rewrite (IH x E) by (intros u' Hu; apply H; right; exact Hu).
    eapply set_path_other_fields; [exact S|]. apply H. left. reflexivity.
Qed.

(** *** The order of the paths *)

Lemma In_insert_update (u x : update) (l : list update) :
  In x (insert_update u l) <-> x = u \/ In x l.
Proof.
  induction l as [|y l IH]; cbn.
  - intuition auto.
  - destruct (path_ltb (fst u) (fst y)); cbn; [intuition auto|].
    rewrite IH. intuition auto.
Qed.

Lemma In_updates_of (set : document) (u : update) :
  In u (updates_of set) <->
  exists k v, In (k, v) set /\ u = (path_parts k, v).
Proof.
  unfold updates_of. induction set as [|[k v] set IH]; cbn.
  - split; [tauto|]. intros (k & v & [] & _).
  - rewrite In_insert_update, IH. split.
    + intros [->|(k' & v' & Hin & ->)]; eauto 6.
    + intros (k' & v' & [E|Hin] & ->); [injection E as -> ->; auto|eauto 6].
Qed.

Lemma conflict_sym (p q : list string) : conflict p q = conflict q p.
Proof.
  revert q. induction p as [|a p IH]; intros [|b q]; cbn; auto.
  rewrite (String.eqb_sym b a). destruct (String.eqb a b); auto.
  apply xorb_comm.
Qed.

Lemma conflict_free_insert (u : update) (l : list update) :
  forallb (fun x => negb (conflict (fst u) (fst x))) l = true ->
  conflict_free l = true ->
  conflict_free (insert_update u l) = true.
Proof.
  induction l as [|y l IH]; cbn [insert_update conflict_free forallb]; auto.
  rewrite !andb_true_iff. intros [Cy Cl] [Fy Fl].
  destruct (path_ltb (fst u) (fst y)); cbn [conflict_free forallb].
  - rewrite Cy, Cl, Fy, Fl. reflexivity.
  - rewrite (IH Cl Fl), andb_true_r.
    apply forallb_forall. intros x Hx. apply In_insert_update in Hx.
    destruct Hx as [->|Hx].
    + rewrite conflict_sym. exact Cy.
    + rewrite forallb_forall in Fy. apply Fy. exact Hx.
Qed.

(** *** What [$set] makes of a document *)

Lemma same_id_eq (d d' : document) : same_id d d' = true <-> doc_id d' = doc_id d.
Proof.
  unfold same_id. destruct (doc_id d) as [a|], (doc_id d') as [b|];
    try (split; [discriminate|congruence]); [|tauto].
  rewrite value_eqb_eq. split; congruence.
Qed.

Lemma set_update_inv (set : document) (d d' : document) :
  set_update set d = Some d' ->
  update_parses set = true
  /\ apply_updates (updates_of set) d = Some d'
  /\ doc_id d' = doc_id d.
Proof.
  unfold set_update. destruct (update_parses set); [|discriminate].
  destruct (apply_updates (updates_of set) d) as [x|]; [|discriminate].
  destruct (same_id d x) eqn:I; [|discriminate].
  intros E. injection E as <-. apply same_id_eq in I. auto.
Qed.

(** An update does not touch [_id]. *)
Lemma set_update_id (set : document) (d d' : document) :
  set_update set d = Some d' -> doc_id d' = doc_id d.
Proof. intros H. apply set_update_inv in H. tauto. Qed.

Lemma canonical_paths_updates (set : document) :
  canonical_paths set = true ->
  forall u, In u (updates_of set) -> forallb canonical_name (fst u) = true.
Proof.
  unfold canonical_paths. rewrite forallb_forall. intros C u Hu.
  apply In_updates_of in Hu. destruct Hu as (k & v & Hin & ->).
  exact (C (k, v) Hin).
Qed.

(** A path of the update has its value in the updated document: a name
    without a dot always, a longer path when no name of the update is
    written with leading zeros. *)
Lemma set_update_at (set : document) (d d' : document) (k : string) (v : value) :
  set_update set d = Some d' ->
  In (k, v) set ->
  canonical_paths set = true \/ tl (path_parts k) = [] ->
  at_path (path_parts k) v (VObj d').
Proof.
  intros H Hin K. destruct (set_update_inv _ _ _ H) as (P & A & _).
  unfold update_parses in P. apply andb_true_iff in P. destruct P as [_ C].
  destruct (apply_updates_at _ _ _ C A (path_parts k, v)) as [_ At].
  - apply In_updates_of. eauto.
  - apply At. cbn [fst]. destruct K as [K|K]; [right|left; exact K].
    exact (canonical_paths_updates set K).
Qed.

(** A field no path of the update starts with keeps its value. *)
Lemma set_update_other_fields (set : document) (d d' : document) (f : string) :
  set_update set d = Some d' ->
  (forall k v, In (k, v) set -> hd_error (path_parts k) <> Some f) ->
  obj_get f d' = obj_get f d.
Proof.
  intros H Hf. destruct (set_update_inv _ _ _ H) as (_ & A & _).
  eapply apply_updates_other_fields; [exact A|].
  intros u Hu. apply In_updates_of in Hu. destruct Hu as (k & v & Hin & ->).
  exact (Hf k v Hin).
Qed.

(** The same update a second time changes nothing, when no name in it is
    written with leading zeros. *)
Lemma set_update_idem (set : document) (d d' : document) :
  canonical_paths set = true ->
  set_update set d = Some d' ->
  set_update set d' = Some d' /\ modifies (updates_of set) d' = false.
Proof.
  intros K H. destruct (set_update_inv _ _ _ H) as (P & A & _).
  unfold set_update. rewrite P.
  unfold update_parses in P. apply andb_true_iff in P. destruct P as [_ C].
  assert (Forall (fun u => at_path (fst u) (snd u) (VObj d') /\ top_ok (fst u) = true)
                 (updates_of set)) as F.
  { apply Forall_forall. intros u Hu.
    destruct (apply_updates_at _ _ _ C A u Hu) as [T At]. split; [|exact T].
    apply At. right. exact (canonical_paths_updates set K). }
  rewrite (apply_updates_noop _ _ F), (modifies_noop _ _ F).
  rewrite (proj2 (same_id_eq d' d') eq_refl). auto.
Qed.

Lemma set_update_nil (d : document) : set_update [] d = Some d.
Proof.
  unfold set_update. cbn.
  rewrite (proj2 (same_id_eq d d) eq_refl). reflexivity.
Qed.

(** *** Plain field names *)

Lemma path_parts_single (s p : string) : path_parts s = [p] -> p = s.
Proof.
  revert p. induction s as [|c s IH]; intros p; cbn.
  - intros E. injection E as <-. reflexivity.
  - destruct (Ascii.eqb c "."%char).
    + destruct (path_parts s) as [|x l] eqn:P; [|discriminate].
      destruct s; cbn in P; [discriminate|].
      destruct (Ascii.eqb a "."%char); [discriminate|].
      destruct (path_parts s); discriminate.
    + destruct (path_parts s) as [|x l] eqn:P.
      * intros E. injection E as <-. destruct s; cbn in P; [discriminate|].
        destruct (Ascii.eqb a "."%char); [discriminate|].
        destruct (path_parts s); discriminate.
      * intros E. injection E as <- ->. rewrite (IH x eq_refl). reflexivity.
Qed.

Lemma plain_name_parts (k : string) :
  plain_name k = true ->
  path_parts k = [k] /\ kind_of k = Name /\ starts_with_dollar k = false.
Proof.
  unfold plain_name. destruct (path_parts k) as [|p [|q l]] eqn:P; try discriminate.
  pose proof (path_parts_single k p P) as ->.
  destruct (kind_of k); try discriminate.
  intros H. apply andb_true_iff in H. destruct H as [H _].
  apply negb_true_iff in H. auto.
Qed.

Lemma plain_canonical (set : document) :
  plain_fields set = true -> canonical_paths set = true.
Proof.
  unfold plain_fields, canonical_paths. rewrite !forallb_forall.
  intros P [k v] Hin. specialize (P (k, v) Hin). cbn [fst] in *.
  revert P. unfold plain_name.
  destruct (path_parts k) as [|p [|q l]]; try discriminate.
  destruct (kind_of p); try discriminate.
  intros H. apply andb_true_iff in H. destruct H as [_ H].
  cbn. rewrite H. reflexivity.
Qed.

Lemma plain_fields_In (set : document) (k : string) (v : value) :
  plain_fields set = true -> In (k, v) set -> plain_name k = true.
Proof.
  unfold plain_fields. rewrite forallb_forall. intros F Hin. exact (F (k, v) Hin).
Qed.

Lemma obj_get_In_value (k : string) (v : value) (o : document) :
  unique_keys o -> In (k, v) o -> obj_get k o = Some v.
Proof.
  unfold unique_keys. induction o as [|[k' v'] o IH]; cbn; [tauto|].
  intros U [E|Hin].
  - injection E as -> ->. rewrite String.eqb_refl. reflexivity.
  - inversion U as [|? ? Hnotin U']; subst.
    destruct (String.eqb_spec k k') as [->|N]; [|auto].
    exfalso. apply Hnotin. apply in_map_iff. exists (k', v). auto.
Qed.

Lemma obj_get_Some_In (k : string) (v : value) (o : document) :
  obj_get k o = Some v -> In (k, v) o.
Proof.
  induction o as [|[k' v'] o IH]; cbn; [discriminate|].
  destruct (String.eqb_spec k k') as [->|N].
  - intros E. injection E as ->. auto.
  - auto.
Qed.

(** A plain name is set as a field of the document, whatever the document. *)
Lemma set_path_plain (k : string) (v : value) (d : document) :
  plain_name k = true ->
  set_path (path_parts k) v d = Some (obj_set k v d).
Proof.
  intros P. destruct (plain_name_parts k P) as (-> & K & D).
  unfold set_path. rewrite D. cbn [andb set_at]. rewrite K.
  destruct (obj_get k d) as [child|] eqn:G; [reflexivity|].
  cbn [create_path]. rewrite (obj_set_absent _ _ _ G). reflexivity.
Qed.

Lemma apply_updates_plain (ups : list update) (d : document) :
  (forall u, In u ups -> exists k, plain_name k = true /\ fst u = path_parts k) ->
  exists d', apply_updates ups d = Some d'.
Proof.
  revert d. induction ups as [|u ups IH]; intros d H; [eexists; reflexivity|].
  rewrite apply_updates_cons.
  destruct (H u (or_introl eq_refl)) as (k & P & ->).
  rewrite (set_path_plain k _ d P).
  apply IH. intros u' Hu. apply H. right. exact Hu.
Qed.

Lemma plain_conflict (a b : string) :
  plain_name a = true -> plain_name b = true -> a <> b ->
  conflict (path_parts a) (path_parts b) = false.
Proof.
  intros Pa Pb N.
  destruct (plain_name_parts a Pa) as (-> & Ka & _).
  destruct (plain_name_parts b Pb) as (-> & Kb & _).
  cbn. apply String.eqb_neq in N. rewrite N.
  unfold is_all_elements. rewrite Ka, Kb. reflexivity.
Qed.

Lemma plain_update_parses (set : document) :
  plain_fields set = true -> unique_keys set -> update_parses set = true.
Proof.
  intros P U. unfold update_parses. apply andb_true_iff. split.
  - apply forallb_forall. intros u Hu. apply In_updates_of in Hu.
    destruct Hu as (k & v & Hin & ->). cbn [fst].
    destruct (plain_name_parts k (plain_fields_In _ _ _ P Hin)) as (-> & K & _).
    unfold path_well_formed, is_positional. cbn. rewrite K. reflexivity.
  - unfold updates_of. revert P U. unfold unique_keys.
    induction set as [|[k v] set IH]; intros P U; [reflexivity|].
    cbn [map fold_right fst snd]. cbn [plain_fields forallb fst] in P.
    apply andb_true_iff in P. destruct P as [Pk P].
    cbn [map fst] in U. inversion U as [|? ? Hnotin U']; subst.
    apply conflict_free_insert; [|exact (IH P U')].
    apply forallb_forall. intros x Hx.
    change (In x (updates_of set)) in Hx. apply In_updates_of in Hx.
    destruct Hx as (k' & v' & Hin & ->). cbn [fst]. apply negb_true_iff.
    apply plain_conflict; [exact Pk|exact (plain_fields_In _ _ _ P Hin)|].
    intros ->. apply Hnotin. apply in_map_iff. exists (k', v'). auto.
Qed.

(** With plain field names, [$set] is a merge of fields: the update goes
    through, each field it names has the value it gives, each other field
    is as before. *)
Lemma set_update_plain (set : document) (d : document) :
  plain_fields set = true ->
  unique_keys set ->
  obj_get "_id" set = None ->
  exists d',
    set_update set d = Some d'
    /\ (forall k, obj_get k d' =
                  match obj_get k set with
                  | Some v => Some v
                  | None => obj_get k d
                  end).
Proof.
  intros P U NoId.
  pose proof (plain_update_parses set P U) as Parses.
  assert (forall k v, In (k, v) set -> path_parts k = [k]) as Single.
  { intros k v Hin.
    destruct (plain_name_parts k (plain_fields_In _ _ _ P Hin)) as (E & _). exact E. }
  assert (forall f, obj_get f set = None ->
                    forall k v, In (k, v) set -> hd_error (path_parts k) <> Some f)
    as Other.
  { intros f Hf k v Hin. rewrite (Single k v Hin). cbn. intros E. injection E as ->.
    rewrite (obj_get_In_value _ _ _ U Hin) in Hf. discriminate Hf. }
  destruct (apply_updates_plain (updates_of set) d) as [d' A].
  { intros u Hu. apply In_updates_of in Hu. destruct Hu as (k & v & Hin & ->).
    exists k. split; [exact (plain_fields_In _ _ _ P Hin)|reflexivity]. }
  assert (set_update set d = Some d') as S.
  { unfold set_update. rewrite Parses, A.
    assert (same_id d d' = true) as ->; [|reflexivity].
    apply same_id_eq. unfold doc_id.
    eapply apply_updates_other_fields; [exact A|].
    intros u Hu. apply In_updates_of in Hu. destruct Hu as (k & v & Hin & ->).
    exact (Other "_id" NoId k v Hin). }
  exists d'. split; [exact S|]. intros k.
  destruct (obj_get k set) as [v|] eqn:G.
  - pose proof (obj_get_Some_In _ _ _ G) as Hin.
    pose proof (set_update_at _ _ _ _ _ S Hin
                  (or_intror (f_equal (@tl string) (Single k v Hin)))) as At.
    rewrite (Single k v Hin) in At. cbn in At.
    destruct (plain_name_parts k (plain_fields_In _ _ _ P Hin)) as (_ & K & _).
    rewrite K in At. destruct (obj_get k d') as [c|]; [|tauto]. congruence.
  - eapply set_update_other_fields; [exact S|]. exact (Other k G).
Qed.

(* ===================================================================== *)
(** ** The store *)
(* ===================================================================== *)

Lemma id_is_oid (oid : N) (d : document) :
  id_is (VOid oid) d = true <-> doc_id d = Some (VOid oid).
Proof.
  unfold id_is. destruct (doc_id d) as [v|]; [|split; discriminate].
  rewrite value_eqb_eq. split; congruence.
Qed.

Lemma update_first_ids (oid : N) (set : document) (docs : list document) :
  map doc_id (snd (update_first oid set docs)) = map doc_id docs.
Proof.
  induction docs as [|d rest IH]; cbn; auto.
  destruct (id_is (VOid oid) d) eqn:E.
  - destruct (set_update set d) as [d'|] eqn:S; cbn; [|reflexivity].
    rewrite (set_update_id _ _ _ S). reflexivity.
  - destruct (update_first oid set rest) as [r rest']. cbn in *. congruence.
Qed.

(** No update changes an [_id], whatever it sets. *)
Lemma coll_updateOne_ids (oid : N) (set : document) (docs : list document) :
  map doc_id (snd (coll_updateOne oid set docs)) = map doc_id docs.
Proof.
  unfold coll_updateOne.
  destruct (update_parses set); [apply update_first_ids|reflexivity].
Qed.

Lemma store_exec_update_ids (oid : N) (set : document) (s : store) :
  map doc_id (tasks (snd (store_exec (UpdateOne oid set) s))) = map doc_id (tasks s).
Proof.
  unfold store_exec.
  destruct (faults s) as [|[|] later]; cbn; auto;
    pose proof (coll_updateOne_ids oid set (tasks s)) as H;
    destruct (coll_updateOne oid set (tasks s)); cbn in *; exact H.
Qed.

Lemma store_exec_find_tasks (oid : N) (s : store) :
  tasks (snd (store_exec (FindOne oid) s)) = tasks s.
Proof.
  unfold store_exec. destruct (faults s) as [|[|] later]; reflexivity.
Qed.

(* ===================================================================== *)
(** ** Identifiers the driver cannot build (C10) *)
(* ===================================================================== *)

(** C10.  When the [:id] of a [PUT /tasks/:id] or [DELETE /tasks/:id] is not
    a well-formed ObjectId string, [new ObjectId(id)] throws: the request is
    answered 500 ("Task update failed", "Task deletion failed"), not 404,
    and the server is left exactly as it was: no store call is made and no
    event is emitted. *)
Theorem C10_malformed_id_is_500 (id : string) (body : document) (w : world) :
  ObjectId_of_string id = None ->
  run (put_tasks id body) w =
    (Normal {| status := 500; json := error_body "Task update failed" |}, w)
  /\ run (delete_tasks id) w =
    (Normal {| status := 500; json := error_body "Task deletion failed" |}, w)
  /\ history (put_tasks id body) (db w) = []
  /\ history (delete_tasks id) (db w) = [].
Proof.
  intros H. unfold put_tasks, delete_tasks, new_ObjectId. rewrite H. cbn.
  repeat split.
Qed.

(** The theorem on an identifier that is no hexadecimal string. *)
Lemma C10_malformed_id_witness :
  let w := {| db := {| tasks := [[("_id", VOid 1); ("title", VStr "T1")]];
                       pk_counter := 2; faults := []; journal := [] |};
              io := {| engine_clients := [7];
                       sockets := [{| sid := 7; pid := id_string 0;
                                      userEmail := Some (VStr "a@x.com") |}];
                       wire := []; minted := 1; packets := []; sessions := [] |};
              topology_connected := true |} in
  ObjectId_of_string "not-an-id" = None
  /\ run (put_tasks "not-an-id" [("title", VStr "T2")]) w =
       (Normal {| status := 500; json := error_body "Task update failed" |}, w)
  /\ run (delete_tasks "not-an-id") w =
       (Normal {| status := 500; json := error_body "Task deletion failed" |}, w).
Proof.
  cbv zeta. split; [reflexivity|].
  pose proof (C10_malformed_id_is_500 "not-an-id" [("title", VStr "T2")]) as H.
  split; apply H; reflexivity.
Defined.

(* ===================================================================== *)
(** ** Identifiers are immutable under updates (C6) *)
(* ===================================================================== *)

Lemma put_tasks_ids (id : string) (body : document) (w : world) :
  map doc_id (tasks (db (snd (run (put_tasks id body) w)))) =
  map doc_id (tasks (db w)).
Proof.
  unfold put_tasks, new_ObjectId.
  destruct (ObjectId_of_string id) as [oid|]; cbn; [|reflexivity].
  pose proof (store_exec_update_ids oid (obj_delete "_id" body) (db w)) as U.
  destruct (store_exec (UpdateOne oid (obj_delete "_id" body)) (db w)) as [r s1].
  cbn in U.
  destruct r as [[res doc|res|found|res]|e]; cbn; auto.
  destruct (Nat.eqb (modifiedCount res) 0); cbn; auto.
  pose proof (store_exec_find_tasks oid s1) as F.
  destruct (store_exec (FindOne oid) s1) as [r2 s2]. cbn in F.
  destruct r2 as [[res2 doc2|res2|found2|res2]|e2]; cbn; congruence.
Qed.

Lemma put_tasks_strips_id (id : string) (body : document) (s : store)
      (c : store_call) (r : settled) :
  In (Called c r) (history (put_tasks id body) s) ->
  match c with
  | UpdateOne _ set => obj_get "_id" set = None
  | FindOne _ => True
  | InsertOne _ | DeleteOne _ => False
  end.
Proof.
  unfold put_tasks, new_ObjectId.
  destruct (ObjectId_of_string id) as [oid|]; cbn; [|tauto].
  destruct (store_exec (UpdateOne oid (obj_delete "_id" body)) s) as [r1 s1].
  intros [E|H].
  - injection E as <- _. apply obj_get_delete_same.
  - destruct r1 as [[res doc|res|found|res]|e]; cbn in H; try tauto.
    destruct (Nat.eqb (modifiedCount res) 0); cbn in H; [tauto|].
    destruct (store_exec (FindOne oid) s1) as [r2 s2].
    destruct H as [E|H].
    + injection E as <- _. exact I.
    + destruct r2 as [[res2 doc2|res2|found2|res2]|e2]; cbn in H;
        repeat (destruct H as [H|H]; try discriminate H); tauto.
Qed.

(** C6.  Every [PUT /tasks/:id] removes [_id] from the body before the
    update reaches the store: the [$set] document of the [updateOne] it
    issues has no [_id].  Hence no sequence of update requests, whatever
    their identifiers and bodies and whether or not the store answers,
    changes the identifier of any stored task: document by document, the
    [_id]s of the collection after the updates are the ones before them. *)
Theorem C6_update_keeps_identifier (updates : list (string * document)) (w : world) :
  map doc_id (tasks (db (run_all (map (fun u => ReqPut (fst u) (snd u)) updates) w)))
  = map doc_id (tasks (db w))
  /\ (forall id body s oid set r,
        In (Called (UpdateOne oid set) r) (history (put_tasks id body) s) ->
        obj_get "_id" set = None).
Proof.
  split.
  - revert w. unfold run_all.
    induction updates as [|[id body] rest IH]; intros w; cbn; [reflexivity|].
    rewrite IH. apply put_tasks_ids.
  - intros id body s oid set r H.
    exact (put_tasks_strips_id id body s _ _ H).
Qed.

(** The theorem on an update whose body carries a forged [_id]. *)
Lemma C6_update_keeps_identifier_witness :
  let forged := [("_id", VStr "forged"); ("title", VStr "T2")] in
  let w := world_one [] in
  map doc_id (tasks (db (run_all [ReqPut id1 forged] w))) = [Some (VOid 1)]
  /\ In (Called (UpdateOne 1 [("title", VStr "T2")])
                (Resolved (RUpdate {| matchedCount := 1; modifiedCount := 1 |})))
        (history (put_tasks id1 forged) (db w))
  /\ obj_get "_id" [("title", VStr "T2")] = None.
Proof.
  cbv zeta.
  destruct (C6_update_keeps_identifier
              [(id1, [("_id", VStr "forged"); ("title", VStr "T2")])]
              (world_one [])) as [H1 H2].
  split; [exact H1|].
  assert (In (Called (UpdateOne 1 [("title", VStr "T2")])
                     (Resolved (RUpdate {| matchedCount := 1; modifiedCount := 1 |})))
             (history (put_tasks id1 [("_id", VStr "forged"); ("title", VStr "T2")])
                      (db (world_one [])))) as Hin.
  { left. reflexivity. }
  split; [exact Hin|].
  exact (H2 _ _ _ _ _ _ Hin).
Defined.

(* ===================================================================== *)
(** ** Creation (C3, C9) *)
(* ===================================================================== *)

(** What a resolved [insertOne] has done. *)
Lemma coll_insertOne_resolved {body : document} {docs docs' : list document}
      {pk pk' : N} {reply : store_reply} :
  coll_insertOne body docs pk = (Resolved reply, docs', pk') ->
  exists idv task,
    reply = RInsert {| insertedId := idv |} task
    /\ obj_get "_id" task = Some idv
    /\ (forall k, k <> "_id" -> obj_get k task = obj_get k body)
    /\ (unique_keys body -> unique_keys task)
    /\ docs' = docs ++ [("_id", idv) :: obj_delete "_id" task]
    /\ existsb (id_is idv) docs = false.
Proof.
  unfold coll_insertOne.
  set (task := if nullish (obj_get "_id" body)
               then obj_set "_id" (VOid pk) body else body).
  assert (Hother : forall k, k <> "_id" -> obj_get k task = obj_get k body).
  { intros k N. subst task. destruct (nullish (obj_get "_id" body)); auto.
    apply obj_get_set_other. exact N. }
  assert (Huniq : unique_keys body -> unique_keys task).
  { intros U. subst task. destruct (nullish (obj_get "_id" body)); auto.
    apply unique_keys_set. exact U. }
  destruct (obj_get "_id" task) as [idv|] eqn:G; [|discriminate].
  destruct (is_array idv); [discriminate|].
  destruct (existsb (id_is idv) docs) eqn:D; [discriminate|].
  intros E. injection E as <- <- _.
  exists idv, task. auto 10.
Qed.

Lemma store_exec_insert_resolved {body : document} {s s' : store} {reply : store_reply} :
  store_exec (InsertOne body) s = (Resolved reply, s') ->
  exists idv task,
    reply = RInsert {| insertedId := idv |} task
    /\ obj_get "_id" task = Some idv
    /\ (forall k, k <> "_id" -> obj_get k task = obj_get k body)
    /\ (unique_keys body -> unique_keys task)
    /\ tasks s' = tasks s ++ [("_id", idv) :: obj_delete "_id" task]
    /\ existsb (id_is idv) (tasks s) = false.
Proof.
  unfold store_exec. intros E.
  assert (exists docs' pk',
             coll_insertOne body (tasks s) (pk_counter s) = (Resolved reply, docs', pk')
             /\ tasks s' = docs') as (docs' & pk' & C & T).
  { destruct (faults s) as [|[|] later]; cbn in E; try discriminate;
      destruct (coll_insertOne body (tasks s) (pk_counter s)) as [[r docs'] pk'];
      injection E as -> <-; eauto. }
  destruct (coll_insertOne_resolved C) as (idv & task & H).
  exists idv, task. rewrite T. exact H.
Qed.

(** The three ways [POST /tasks] can end, read off the one store call. *)
Lemma post_tasks_run (body : document) (w : world) :
  run (post_tasks body) w =
  let (r, s1) := store_exec (InsertOne body) (db w) in
  match r with
  | Resolved (RInsert res task) =>
      if truthy (insertedId res) then
        let payload := VObj (obj_assign [("_id", insertedId res)] task) in
        (Normal {| status := 201; json := payload |},
         with_io (io_emit "taskAdded" payload (io w)) (with_db s1 w))
      else
        (Normal {| status := 500; json := error_body "Task creation failed" |},
         with_db s1 w)
  | _ =>
      (Normal {| status := 500; json := error_body "Internal server error" |},
       with_db s1 w)
  end.
Proof.
  unfold post_tasks. cbn.
  destruct (store_exec (InsertOne body) (db w)) as [r s1].
  destruct r as [[res doc|res|found|res]|e]; cbn; auto.
  destruct (truthy (insertedId res)); reflexivity.
Qed.

(** C3.  [POST /tasks] when [insertOne] has stored the task and reports its
    [insertedId].  The task is stored under that identifier.  When the
    identifier passes [if (result.insertedId)], as every identifier the
    driver generates does, the request is answered 201 and one [taskAdded]
    goes on the wire, for every socket; both carry the same task, whose
    [_id] is the [insertedId] and whose other fields are those of the body.
    When the identifier does not pass (it is the 0, the empty string or the
    [false] that the body brought as [_id]), the request is answered 500
    "Task creation failed" and nothing goes on the wire, although the task
    is stored. *)
Theorem C3_created_task_carries_inserted_id
        (body : document) (w : world) (idv : value) (task : document) (s1 : store) :
  unique_keys body ->
  store_exec (InsertOne body) (db w) =
    (Resolved (RInsert {| insertedId := idv |} task), s1) ->
  tasks s1 = tasks (db w) ++ [("_id", idv) :: obj_delete "_id" task]
  /\ exists resp w',
       run (post_tasks body) w = (Normal resp, w')
       /\ db w' = s1
       /\ if truthy idv then
            exists payload,
              resp = {| status := 201; json := VObj payload |}
              /\ wire (io w') =
                   wire (io w) ++
                   [({| ev_name := "taskAdded"; ev_payload := VObj payload |},
                     map sid (sockets (io w)))]
              /\ obj_get "_id" payload = Some idv
              /\ (forall k, k <> "_id" -> obj_get k payload = obj_get k body)
          else
            resp = {| status := 500; json := error_body "Task creation failed" |}
            /\ wire (io w') = wire (io w).
Proof.
  intros U E. rewrite post_tasks_run, E.
  destruct (store_exec_insert_resolved E)
    as (idv' & task' & Hr & Hid & Hother & Huniq & Htasks & _).
  injection Hr as <- <-. split; [exact Htasks|].
  cbn [insertedId]. destruct (truthy idv).
  - eexists. eexists. split; [reflexivity|]. split; [reflexivity|].
    exists (obj_assign [("_id", idv)] task).
    split; [reflexivity|]. split; [reflexivity|]. split.
    + rewrite obj_get_assign by auto. rewrite Hid. reflexivity.
    + intros k N. rewrite obj_get_assign by auto. rewrite (Hother k N).
      destruct (obj_get k body); auto. cbn.
      apply String.eqb_neq in N. rewrite N. reflexivity.
  - eexists. eexists. split; [reflexivity|]. split; [reflexivity|].
    split; reflexivity.
Qed.

(** The theorem on a creation whose body brings [0] as [_id]: the task is
    stored, the answer is 500, nothing goes on the wire. *)
Lemma C3_created_task_carries_inserted_id_witness :
  let body := [("_id", VNum 0); ("title", VStr "T1")] in
  let done := run (post_tasks body) (world_one []) in
  fst (store_exec (InsertOne body) (db (world_one []))) =
    Resolved (RInsert {| insertedId := VNum 0 |} body)
  /\ tasks (db (snd done)) = [task1; body]
  /\ fst done = Normal {| status := 500; json := error_body "Task creation failed" |}
  /\ wire (io (snd done)) = wire (io (world_one [])).
Proof.
  cbv zeta. split; [reflexivity|].
  destruct (C3_created_task_carries_inserted_id
              [("_id", VNum 0); ("title", VStr "T1")] (world_one []) (VNum 0)
              [("_id", VNum 0); ("title", VStr "T1")]
              (snd (store_exec (InsertOne [("_id", VNum 0); ("title", VStr "T1")])
                               (db (world_one [])))))
    as (T & resp & w' & R & D & -> & W).
  - unfold unique_keys. cbn. repeat constructor; cbn; intuition discriminate.
  - reflexivity.
  - rewrite R. cbn [fst snd]. rewrite D, T, W. repeat split.
Defined.

(** C9, as the code has it.  [POST /tasks] stores what it is sent: when the
    request is answered 201, the collection has gained one document, whose
    fields other than [_id] are the fields of the body.  So the stored task
    has an owner email ([userEmail]) exactly when the body had one. *)
Theorem C9_stored_task_is_the_body
        (body : document) (w w' : world) (resp : response) :
  run (post_tasks body) w = (Normal resp, w') ->
  status resp = 201 ->
  exists d,
    tasks (db w') = tasks (db w) ++ [d]
    /\ (forall k, k <> "_id" -> obj_get k d = obj_get k body)
    /\ has_key "userEmail" d = has_key "userEmail" body.
Proof.
  rewrite post_tasks_run.
  destruct (store_exec (InsertOne body) (db w)) as [r s1] eqn:E.
  destruct r as [[res task|res|found|res]|e];
    try (intros R S; injection R as <- _; discriminate S).
  destruct (store_exec_insert_resolved E)
    as (idv & task' & Hr & Hid & Hother & _ & Htasks & _).
  injection Hr as -> ->. cbn [insertedId].
  destruct (truthy idv);
    intros R S; injection R as <- <-; [|discriminate S].
  exists (("_id", idv) :: obj_delete "_id" task').
  assert (forall k, k <> "_id" ->
            obj_get k (("_id", idv) :: obj_delete "_id" task') =
            obj_get k body) as F.
  { intros k N. cbn. apply String.eqb_neq in N. rewrite N.
    apply String.eqb_neq in N.
    rewrite obj_get_delete_other by exact N. apply Hother. exact N. }
  split; [exact Htasks|]. split; [exact F|].
  unfold has_key. rewrite F by discriminate. reflexivity.
Qed.

(** The theorem on the creation of a task that names its owner. *)
Lemma C9_stored_task_is_the_body_witness :
  let body := [("userEmail", VStr "a@x.com"); ("title", VStr "T1")] in
  let done := run (post_tasks body) world_empty in
  exists d,
    tasks (db (snd done)) = tasks (db world_empty) ++ [d]
    /\ (forall k, k <> "_id" -> obj_get k d = obj_get k body)
    /\ has_key "userEmail" d = has_key "userEmail" body.
Proof.
  cbv zeta.
  apply (C9_stored_task_is_the_body
           [("userEmail", VStr "a@x.com"); ("title", VStr "T1")] world_empty
           (snd (run (post_tasks [("userEmail", VStr "a@x.com");
                                  ("title", VStr "T1")]) world_empty))
           {| status := 201;
              json := VObj [("_id", VOid 1); ("userEmail", VStr "a@x.com");
                            ("title", VStr "T1")] |}).
  - reflexivity.
  - reflexivity.
Defined.

(** C9 as the spec words it does not hold.  A [POST /tasks] whose body has
    no owner email is answered 201, and the task is stored without one. *)
Lemma C9_counterexample_task_without_owner :
  let body := [("title", VStr "T1")] in
  let done := run (post_tasks body) world_empty in
  fst done =
    Normal {| status := 201; json := VObj [("_id", VOid 1); ("title", VStr "T1")] |}
  /\ tasks (db (snd done)) = [[("_id", VOid 1); ("title", VStr "T1")]]
  /\ existsb (has_key "userEmail") (tasks (db (snd done))) = false.
Proof.
  cbv zeta. repeat split.
Qed.

(* ===================================================================== *)
(** ** Updates (C2, C7) *)
(* ===================================================================== *)

Lemma unique_keys_delete (k : string) (o : document) :
  unique_keys o -> unique_keys (obj_delete k o).
Proof.
  unfold unique_keys. induction o as [|[k' v] o IH]; cbn; auto.
  intros U. inversion U as [|? ? Hnotin U']; subst.
  destruct (String.eqb k k'); cbn; auto.
  constructor; auto.
  intros Hin. apply Hnotin. clear - Hin.
  induction o as [|[k2 v2] o IH]; cbn in *; auto.
  destruct (String.eqb k k2); cbn in *; tauto.
Qed.

Lemma no_faults_answered (c : store_call) {s : store} :
  no_faults s ->
  store_exec c s =
    (let '(r, docs, pk) := store_apply c s in
     (r, {| tasks := docs; pk_counter := pk; faults := tl (faults s);
            journal := journal s ++ [(c, r)] |}))
  /\ no_faults (snd (store_exec c s)).
Proof.
  unfold no_faults, store_exec. intros NF.
  destruct (faults s) as [|[|] later]; cbn in NF; try discriminate;
    destruct (store_apply c s) as [[r docs] pk]; cbn; auto.
Qed.

Lemma update_first_spec (oid : N) (set : document) (docs : list document) :
  match coll_findOne oid docs with
  | None =>
      update_first oid set docs =
      (Resolved (RUpdate {| matchedCount := 0; modifiedCount := 0 |}), docs)
  | Some d =>
      match set_update set d with
      | Some d' =>
          exists docs',
            update_first oid set docs =
            (Resolved (RUpdate {| matchedCount := 1;
                                  modifiedCount :=
                                    if modifies (updates_of set) d then 1 else 0 |}),
             docs')
            /\ coll_findOne oid docs' = Some d'
            /\ (d' = d -> docs' = docs)
      | None => update_first oid set docs = (Rejected (JsError "WriteError"), docs)
      end
  end.
Proof.
  unfold coll_findOne.
  induction docs as [|d rest IH]; cbn; auto.
  destruct (id_is (VOid oid) d) eqn:E.
  - destruct (set_update set d) as [d'|] eqn:S; [|reflexivity].
    eexists. split; [reflexivity|]. cbn.
    assert (id_is (VOid oid) d' = true) as ->; [|split; [reflexivity|congruence]].
    apply id_is_oid. apply id_is_oid in E.
    rewrite (set_update_id _ _ _ S). exact E.
  - destruct (find (id_is (VOid oid)) rest) as [d0|].
    + destruct (set_update set d0) as [d'|].
      * destruct IH as (docs' & -> & F & Same). eexists. split; [reflexivity|].
        cbn. rewrite E. split; [exact F|]. intros H. rewrite (Same H). reflexivity.
      * rewrite IH. reflexivity.
    + rewrite IH. reflexivity.
Qed.

(** What [updateOne] does: with no document of that [_id], nothing, unless
    the database refuses the update as it stands; with one, what [$set]
    makes of it, or nothing when the database refuses the update for that
    document. *)
Lemma coll_updateOne_spec (oid : N) (set : document) (docs : list document) :
  match coll_findOne oid docs with
  | None =>
      coll_updateOne oid set docs =
      (if update_parses set
       then Resolved (RUpdate {| matchedCount := 0; modifiedCount := 0 |})
       else Rejected (JsError "WriteError"), docs)
  | Some d =>
      match set_update set d with
      | Some d' =>
          exists docs',
            coll_updateOne oid set docs =
            (Resolved (RUpdate {| matchedCount := 1;
                                  modifiedCount :=
                                    if modifies (updates_of set) d then 1 else 0 |}),
             docs')
            /\ coll_findOne oid docs' = Some d'
            /\ (d' = d -> docs' = docs)
      | None => coll_updateOne oid set docs = (Rejected (JsError "WriteError"), docs)
      end
  end.
Proof.
  pose proof (update_first_spec oid set docs) as Sp.
  unfold coll_updateOne.
  destruct (update_parses set) eqn:P; [exact Sp|].
  destruct (coll_findOne oid docs) as [d|]; [|reflexivity].
  unfold set_update. rewrite P. reflexivity.
Qed.

(** The ways [PUT /tasks/:id] can end, read off its store calls. *)
Lemma put_tasks_run (id : string) (body : document) (w : world) :
  run (put_tasks id body) w =
  match ObjectId_of_string id with
  | None =>
      (Normal {| status := 500; json := error_body "Task update failed" |}, w)
  | Some oid =>
      let (r1, s1) := store_exec (UpdateOne oid (obj_delete "_id" body)) (db w) in
      match r1 with
      | Resolved (RUpdate res) =>
          if Nat.eqb (modifiedCount res) 0 then
            (Normal {| status := 404; json := error_body "Task not found" |},
             with_db s1 w)
          else
            let (r2, s2) := store_exec (FindOne oid) s1 in
            match r2 with
            | Resolved (RFind found) =>
                (Normal {| status := 200; json := doc_or_null found |},
                 with_io (io_emit "taskUpdated" (doc_or_null found) (io w))
                         (with_db s2 w))
            | _ =>
                (Normal {| status := 500; json := error_body "Task update failed" |},
                 with_db s2 w)
            end
      | _ =>
          (Normal {| status := 500; json := error_body "Task update failed" |},
           with_db s1 w)
      end
  end.
Proof.
  unfold put_tasks, new_ObjectId.
  destruct (ObjectId_of_string id) as [oid|]; cbn; [|reflexivity].
  destruct (store_exec (UpdateOne oid (obj_delete "_id" body)) (db w)) as [r1 s1].
  destruct r1 as [[res doc|res|found|res]|e]; cbn; auto.
  destruct (Nat.eqb (modifiedCount res) 0); cbn; auto.
  destruct (store_exec (FindOne oid) s1) as [r2 s2].
  destruct r2 as [[res2 doc2|res2|found2|res2]|e2]; cbn; auto.
Qed.

(** What an [updateOne] that resolves has done. *)
Lemma store_exec_update_resolved {oid : N} {set : document} {s s1 : store}
      {res : UpdateResult} :
  store_exec (UpdateOne oid set) s = (Resolved (RUpdate res), s1) ->
  match coll_findOne oid (tasks s) with
  | None => modifiedCount res = 0 /\ tasks s1 = tasks s
  | Some d =>
      exists d',
        set_update set d = Some d'
        /\ modifiedCount res = (if modifies (updates_of set) d then 1 else 0)
        /\ coll_findOne oid (tasks s1) = Some d'
  end.
Proof.
  intros E. pose proof (coll_updateOne_spec oid set (tasks s)) as Sp.
  unfold store_exec in E.
  destruct (coll_findOne oid (tasks s)) as [d|].
  - destruct (set_update set d) as [d'|].
    + destruct Sp as (docs' & U & F & _). exists d'.
      destruct (faults s) as [|[|] later]; cbn in E; try discriminate;
        rewrite U in E; injection E as <- <-; cbn; auto.
    + destruct (faults s) as [|[|] later]; cbn in E; try discriminate;
        rewrite Sp in E; discriminate E.
  - destruct (faults s) as [|[|] later]; cbn in E; try discriminate;
      rewrite Sp in E; destruct (update_parses set); try discriminate;
      injection E as <- <-; cbn; auto.
Qed.

Lemma store_exec_find_resolved {oid : N} {s s2 : store} {r : settled} :
  store_exec (FindOne oid) s = (r, s2) ->
  tasks s2 = tasks s
  /\ (forall reply, r = Resolved reply -> reply = RFind (coll_findOne oid (tasks s))).
Proof.
  unfold store_exec. intros E.
  destruct (faults s) as [|[|] later]; cbn in E; injection E as <- <-; cbn;
    split; auto; intros reply R; congruence.
Qed.

(** [$set] merges. *)
Lemma set_update_merged (set d d' : document) :
  set_update set d = Some d' -> merged set d d'.
Proof.
  intros S. split; [|split].
  - intros k v Hin K. exact (set_update_at _ _ _ _ _ S Hin K).
  - intros f Hf. exact (set_update_other_fields _ _ _ _ S Hf).
  - intros P k. destruct (obj_get k set) as [v|] eqn:G.
    + pose proof (obj_get_Some_In _ _ _ G) as Hin.
      pose proof (set_update_at _ _ _ _ _ S Hin (or_introl (plain_canonical _ P))) as At.
      destruct (plain_name_parts k (plain_fields_In _ _ _ P Hin)) as (E & K & _).
      rewrite E in At. cbn in At. rewrite K in At.
      destruct (obj_get k d') as [c|]; [|tauto]. congruence.
    + eapply set_update_other_fields; [exact S|].
      intros k' v' Hin.
      destruct (plain_name_parts k' (plain_fields_In _ _ _ P Hin)) as (E & _).
      rewrite E. cbn. intros Q. injection Q as ->.
      apply (obj_get_In _ _ G). apply in_map_iff. exists (k, v'). auto.
Qed.

(** What a [PUT /tasks/:id] answered 200 has done, when it was served with
    nothing in between: the task was there, [$set] has modified it, and the
    task it has made is what the store holds, what the answer carries and
    what [taskUpdated] carries. *)
Lemma put_tasks_200 (id : string) (body : document) (w w1 : world) (resp : response) :
  run (put_tasks id body) w = (Normal resp, w1) ->
  status resp = 200 ->
  exists oid d d',
    ObjectId_of_string id = Some oid
    /\ coll_findOne oid (tasks (db w)) = Some d
    /\ set_update (obj_delete "_id" body) d = Some d'
    /\ modifies (updates_of (obj_delete "_id" body)) d = true
    /\ coll_findOne oid (tasks (db w1)) = Some d'
    /\ json resp = VObj d'
    /\ io w1 = io_emit "taskUpdated" (VObj d') (io w).
Proof.
  rewrite put_tasks_run.
  destruct (ObjectId_of_string id) as [oid|];
    [|intros R S; injection R as <- _; discriminate S].
  destruct (store_exec (UpdateOne oid (obj_delete "_id" body)) (db w))
    as [r1 s1] eqn:E1.
  destruct r1 as [[res doc|res|found|res]|e];
    try (intros R S; injection R as <- _; discriminate S).
  destruct (Nat.eqb (modifiedCount res) 0) eqn:M;
    [intros R S; injection R as <- _; discriminate S|].
  destruct (store_exec (FindOne oid) s1) as [r2 s2] eqn:E2.
  destruct (store_exec_find_resolved E2) as [T2 F2].
  destruct r2 as [[res2 doc2|res2|found2|res2]|e2];
    try (intros R S; injection R as <- _; discriminate S);
    try (specialize (F2 _ eq_refl); discriminate F2).
  specialize (F2 _ eq_refl). injection F2 as ->.
  intros R _. injection R as <- <-.
  pose proof (store_exec_update_resolved E1) as Sp.
  destruct (coll_findOne oid (tasks (db w))) as [d|] eqn:F0.
  - destruct Sp as (d' & S & Mc & F). exists oid, d, d'.
    cbn [db io with_io with_db json]. rewrite T2, F.
    assert (modifies (updates_of (obj_delete "_id" body)) d = true) as Ne.
    { destruct (modifies (updates_of (obj_delete "_id" body)) d); [reflexivity|].
      rewrite Mc in M. discriminate M. }
    auto 10.
  - destruct Sp as [Z _]. rewrite Z in M. discriminate M.
Qed.

(* ===================================================================== *)
(** ** Deletion (C4) and the uniqueness of identifiers *)
(* ===================================================================== *)


Lemma coll_deleteOne_sub (oid : N) (docs : list document) (x : option value) :
  In x (map doc_id (snd (coll_deleteOne oid docs))) -> In x (map doc_id docs).
Proof.
  induction docs as [|d rest IH]; cbn; auto.
  destruct (id_is (VOid oid) d); cbn; auto.
  destruct (coll_deleteOne oid rest) as [n rest']. cbn in *. tauto.
Qed.

(** What [deleteOne] does: nothing when no document has the [_id]; when
    one has and identifiers are unique, it is removed and no document has
    the [_id] any more. *)
Lemma coll_deleteOne_spec (oid : N) (docs : list document) :
  if holds oid docs then
    exists docs',
      coll_deleteOne oid docs = (1, docs')
      /\ (unique_ids docs -> holds oid docs' = false)
      /\ (unique_ids docs -> unique_ids docs')
  else coll_deleteOne oid docs = (0, docs).
Proof.
  unfold holds, unique_ids. induction docs as [|d rest IH]; cbn; auto.
  destruct (id_is (VOid oid) d) eqn:E; cbn.
  - exists rest. split; [reflexivity|]. split.
    + intros U. inversion U as [|? ? Hnotin U']; subst.
      destruct (existsb (id_is (VOid oid)) rest) eqn:X; auto.
      exfalso. apply Hnotin. apply existsb_exists in X.
      destruct X as (d' & Hin & Hd').
      apply id_is_oid in E. apply id_is_oid in Hd'. rewrite E, <- Hd'.
      apply in_map. exact Hin.
    + intros U. inversion U; assumption.
  - destruct (existsb (id_is (VOid oid)) rest) eqn:X.
    + destruct IH as (docs' & D & H1 & H2). rewrite D. exists (d :: docs').
      split; [reflexivity|]. split.
      * intros U. inversion U; subst. cbn. rewrite E. auto.
      * intros U. inversion U as [|? ? Hnotin U']; subst. cbn.
        constructor; auto. intros Hin. apply Hnotin.
        apply (coll_deleteOne_sub oid rest). rewrite D. exact Hin.
    + rewrite IH. reflexivity.
Qed.

(** The ways [DELETE /tasks/:id] can end, read off its store call. *)
Lemma delete_tasks_run (id : string) (w : world) :
  run (delete_tasks id) w =
  match ObjectId_of_string id with
  | None =>
      (Normal {| status := 500; json := error_body "Task deletion failed" |}, w)
  | Some oid =>
      let (r, s1) := store_exec (DeleteOne oid) (db w) in
      match r with
      | Resolved (RDelete res) =>
          if Nat.eqb (deletedCount res) 0 then
            (Normal {| status := 404; json := error_body "Task not found" |},
             with_db s1 w)
          else
            (Normal {| status := 200;
                       json := VObj [("message", VStr "Task deleted successfully")] |},
             with_io (io_emit "taskDeleted" (VStr id) (io w)) (with_db s1 w))
      | _ =>
          (Normal {| status := 500; json := error_body "Task deletion failed" |},
           with_db s1 w)
      end
  end.
Proof.
  unfold delete_tasks, new_ObjectId.
  destruct (ObjectId_of_string id) as [oid|]; cbn; [|reflexivity].
  destruct (store_exec (DeleteOne oid) (db w)) as [r s1].
  destruct r as [[res doc|res|found|res]|e]; cbn; auto.
  destruct (Nat.eqb (deletedCount res) 0); reflexivity.
Qed.

(** C4.  On a store that answers, two [DELETE /tasks/:id] in a row for an
    identifier that one stored task carries: the first is answered 200 and
    emits one [taskDeleted] event whose payload is the bare [id] string; the
    second is answered 404 and emits nothing.  The deletion is broadcast
    once. *)
Theorem C4_delete_twice (id : string) (oid : N) (w : world) :
  ObjectId_of_string id = Some oid ->
  no_faults (db w) ->
  unique_ids (tasks (db w)) ->
  holds oid (tasks (db w)) = true ->
  exists w1 w2,
    run (delete_tasks id) w =
      (Normal {| status := 200;
                 json := VObj [("message", VStr "Task deleted successfully")] |}, w1)
    /\ run (delete_tasks id) w1 =
      (Normal {| status := 404; json := error_body "Task not found" |}, w2)
    /\ wire (io w1) =
         wire (io w) ++ [({| ev_name := "taskDeleted"; ev_payload := VStr id |},
                          map sid (sockets (io w)))]
    /\ wire (io w2) = wire (io w1).
Proof.
  intros V NF U H. rewrite !delete_tasks_run, V.
  destruct (no_faults_answered (DeleteOne oid) NF) as [E1 NF1].
  pose proof (coll_deleteOne_spec oid (tasks (db w))) as Sp.
  rewrite H in Sp. destruct Sp as (docs' & D & Gone & _).
  cbn [store_apply] in E1. rewrite D in E1.
  rewrite E1 in *. cbn [snd] in NF1. cbn [deletedCount Nat.eqb].
  eexists. eexists. split; [reflexivity|].
  rewrite delete_tasks_run, V. cbn [db with_io with_db].
  destruct (no_faults_answered (DeleteOne oid) NF1) as [E2 _].
  pose proof (coll_deleteOne_spec oid docs') as Sp2.
  rewrite (Gone U) in Sp2.
  cbn [store_apply tasks] in E2. rewrite Sp2 in E2.
  rewrite E2. cbn [deletedCount Nat.eqb].
  split; [reflexivity|]. split; reflexivity.
Qed.

(** The theorem on the stored task of [world_one]. *)
Lemma C4_delete_twice_witness :
  exists w1 w2,
    run (delete_tasks id1) (world_one []) =
      (Normal {| status := 200;
                 json := VObj [("message", VStr "Task deleted successfully")] |}, w1)
    /\ run (delete_tasks id1) w1 =
      (Normal {| status := 404; json := error_body "Task not found" |}, w2)
    /\ wire (io w1) =
         wire (io (world_one [])) ++
         [({| ev_name := "taskDeleted"; ev_payload := VStr id1 |},
           map sid (sockets (io (world_one []))))]
    /\ wire (io w2) = wire (io w1).
Proof.
  apply (C4_delete_twice id1 1%N (world_one [])).
  - reflexivity.
  - reflexivity.
  - unfold unique_ids. cbn. constructor; [intros []|constructor].
  - reflexivity.
Defined.

Lemma coll_insertOne_unique_ids (doc : document) (docs : list document) (pk : N) :
  unique_ids docs ->
  unique_ids (snd (fst (coll_insertOne doc docs pk))).
Proof.
  intros U. destruct (coll_insertOne doc docs pk) as [[r docs'] pk'] eqn:E.
  cbn. destruct r as [reply|e].
  - destruct (coll_insertOne_resolved E) as (idv & task & _ & _ & _ & _ & -> & X).
    unfold unique_ids. rewrite map_app. cbn.
    apply NoDup_app; auto.
    + repeat constructor. intros [].
    + intros x Hx [<-|[]]. apply in_map_iff in Hx.
      destruct Hx as (d & Hd & Hin).
      assert (existsb (id_is idv) docs = true) as Y; [|congruence].
      apply existsb_exists. exists d. split; [exact Hin|].
      unfold id_is. unfold doc_id in *. cbn in Hd. rewrite Hd.
      apply value_eqb_refl.
  - unfold coll_insertOne in E.
    destruct (obj_get "_id" _) as [idv|]; [|injection E as _ <- _; exact U].
    destruct (is_array idv); [injection E as _ <- _; exact U|].
    destruct (existsb (id_is idv) docs); [injection E as _ <- _; exact U|].
    discriminate E.
Qed.

(** Every store call a handler makes keeps the identifiers of the
    collection distinct. *)
Lemma store_exec_unique_ids (c : store_call) (s : store) :
  match c with UpdateOne _ set => has_key "_id" set = false | _ => True end ->
  unique_ids (tasks s) ->
  unique_ids (tasks (snd (store_exec c s))).
Proof.
  intros K U.
  assert (unique_ids (snd (fst (store_apply c s)))) as A.
  { destruct c as [doc|oid set|oid|oid]; cbn.
    - apply coll_insertOne_unique_ids. exact U.
    - pose proof (coll_updateOne_ids oid set (tasks s)) as I.
      destruct (coll_updateOne oid set (tasks s)) as [r docs']. cbn in *.
      unfold unique_ids. rewrite I. exact U.
    - exact U.
    - pose proof (coll_deleteOne_spec oid (tasks s)) as Sp.
      destruct (holds oid (tasks s)).
      + destruct Sp as (docs' & -> & _ & Keep). cbn. auto.
      + rewrite Sp. exact U. }
  unfold store_exec.
  destruct (faults s) as [|[|] later]; cbn; auto;
    destruct (store_apply c s) as [[r docs'] pk']; exact A.
Qed.

(** Distinct identifiers are an invariant of the server: whatever request
    is served, they stay distinct. *)
Lemma handler_unique_ids (req : request) (w : world) :
  unique_ids (tasks (db w)) ->
  unique_ids (tasks (db (snd (run (handler req) w)))).
Proof.
  intros U. destruct req as [body|id body|id]; cbn [handler].
  - rewrite post_tasks_run.
    pose proof (store_exec_unique_ids (InsertOne body) (db w) I U) as H.
    destruct (store_exec (InsertOne body) (db w)) as [r s1].
    destruct r as [[res doc|res|found|res]|e]; cbn in *; auto.
    destruct (truthy (insertedId res)); exact H.
  - rewrite put_tasks_run.
    destruct (ObjectId_of_string id) as [oid|]; [|exact U].
    pose proof (store_exec_unique_ids (UpdateOne oid (obj_delete "_id" body))
                  (db w) (has_key_delete "_id" body) U) as H.
    destruct (store_exec (UpdateOne oid (obj_delete "_id" body)) (db w)) as [r s1].
    destruct r as [[res doc|res|found|res]|e]; cbn in *; auto.
    destruct (Nat.eqb (modifiedCount res) 0); [exact H|].
    pose proof (store_exec_unique_ids (FindOne oid) s1 I H) as H2.
    destruct (store_exec (FindOne oid) s1) as [r2 s2].
    destruct r2 as [[res2 doc2|res2|found2|res2]|e2]; exact H2.
  - rewrite delete_tasks_run.
    destruct (ObjectId_of_string id) as [oid|]; [|exact U].
    pose proof (store_exec_unique_ids (DeleteOne oid) (db w) I U) as H.
    destruct (store_exec (DeleteOne oid) (db w)) as [r s1].
    destruct r as [[res doc|res|found|res]|e]; cbn in *; auto.
    destruct (Nat.eqb (deletedCount res) 0); exact H.
Qed.

Lemma run_all_unique_ids (reqs : list request) (w : world) :
  unique_ids (tasks (db w)) ->
  unique_ids (tasks (db (run_all reqs w))).
Proof.
  unfold run_all. revert w.
  induction reqs as [|req rest IH]; intros w U; cbn; auto.
  apply IH. apply handler_unique_ids. exact U.
Qed.

(** Every handler catches what it throws: a request always gets an answer. *)
Lemma handler_answers (req : request) (w : world) :
  exists resp, fst (run (handler req) w) = Normal resp.
Proof.
  destruct req as [body|id body|id]; cbn [handler].
  - rewrite post_tasks_run.
    destruct (store_exec (InsertOne body) (db w)) as [r s1].
    destruct r as [[res doc|res|found|res]|e]; cbn; eauto.
    destruct (truthy (insertedId res)); cbn; eauto.
  - rewrite put_tasks_run.
    destruct (ObjectId_of_string id) as [oid|]; cbn; eauto.
    destruct (store_exec (UpdateOne oid (obj_delete "_id" body)) (db w)) as [r s1].
    destruct r as [[res doc|res|found|res]|e]; cbn; eauto.
    destruct (Nat.eqb (modifiedCount res) 0); cbn; eauto.
    destruct (store_exec (FindOne oid) s1) as [r2 s2].
    destruct r2 as [[res2 doc2|res2|found2|res2]|e2]; cbn; eauto.
  - rewrite delete_tasks_run.
    destruct (ObjectId_of_string id) as [oid|]; cbn; eauto.
    destruct (store_exec (DeleteOne oid) (db w)) as [r s1].
    destruct r as [[res doc|res|found|res]|e]; cbn; eauto.
    destruct (Nat.eqb (deletedCount res) 0); cbn; eauto.
Qed.

(** What a [deleteOne] that settles tells about the collection, faults or
    not: it reports a deletion only when a document had the [_id], and then
    none has it any more. *)
Lemma store_exec_delete_settled (oid : N) (s : store) :
  unique_ids (tasks s) ->
  match fst (store_exec (DeleteOne oid) s) with
  | Resolved (RDelete res) =>
      deletedCount res <> 0 -> holds oid (tasks (snd (store_exec (DeleteOne oid) s))) = false
  | _ => True
  end.
Proof.
  intros U. pose proof (coll_deleteOne_spec oid (tasks s)) as Sp.
  unfold store_exec.
  destruct (faults s) as [|[|] later]; cbn; auto;
    destruct (holds oid (tasks s)) eqn:H;
    try (destruct Sp as (docs' & -> & Gone & _); cbn; auto);
    try (rewrite Sp; cbn; congruence).
Qed.

(** Whatever the store does, two deletions in a row of the same identifier
    broadcast at most once. *)
Lemma delete_twice_at_most_one_broadcast (id : string) (w : world) :
  unique_ids (tasks (db w)) ->
  let w1 := snd (run (delete_tasks id) w) in
  let w2 := snd (run (delete_tasks id) w1) in
  List.length (wire (io w2)) <= S (List.length (wire (io w))).
Proof.
  intros U. cbv zeta. rewrite !delete_tasks_run.
  destruct (ObjectId_of_string id) as [oid|]; [|cbn; lia].
  pose proof (store_exec_delete_settled oid (db w) U) as G.
  pose proof (store_exec_unique_ids (DeleteOne oid) (db w) I U) as U1.
  destruct (store_exec (DeleteOne oid) (db w)) as [r s1]. cbn [fst snd] in G, U1.
  assert (forall w', List.length (wire (io (snd
            (let (r0, s2) := store_exec (DeleteOne oid) (db w') in
             match r0 with
             | Resolved (RDelete res) =>
                 if Nat.eqb (deletedCount res) 0
                 then (Normal {| status := 404; json := error_body "Task not found" |},
                       with_db s2 w')
                 else (Normal {| status := 200;
                                 json := VObj [("message",
                                                VStr "Task deleted successfully")] |},
                       with_io (io_emit "taskDeleted" (VStr id) (io w')) (with_db s2 w'))
             | _ => (Normal {| status := 500;
                               json := error_body "Task deletion failed" |},
                     with_db s2 w')
             end)))) <= S (List.length (wire (io w')))) as Any.
  { intros w'. destruct (store_exec (DeleteOne oid) (db w')) as [r0 s2].
    destruct r0 as [[res doc|res|found|res]|e]; cbn; try lia.
    destruct (Nat.eqb (deletedCount res) 0); cbn; rewrite ?length_app; cbn; lia. }
  destruct r as [[res doc|res|found|res]|e]; cbn [snd];
    try exact (Any (with_db s1 w)).
  destruct (Nat.eqb (deletedCount res) 0) eqn:Z; cbn [snd];
    [exact (Any (with_db s1 w))|].
  apply Nat.eqb_neq in Z. specialize (G Z).
  cbn [db with_io with_db io].
  pose proof (coll_deleteOne_spec oid (tasks s1)) as Sp. rewrite G in Sp.
  unfold store_exec.
  destruct (faults s1) as [|[|] later]; cbn; rewrite ?Sp; cbn;
    rewrite ?length_app; cbn; lia.
Qed.

(* ===================================================================== *)
(** ** Persist, then notify (C1) *)
(* ===================================================================== *)

(** [history] and [run] tell the same story: the calls of the history are
    what [run] adds to the journal, its events are what [run] puts on the
    wire, each to the sockets of the namespace. *)
Lemma run_history {A : Type} (p : prog A) (w : world) :
  let w' := snd (run p w) in
  journal (db w') = journal (db w) ++ calls_of (history p (db w))
  /\ wire (io w') = wire (io w) ++ deliveries (events_of (history p (db w))) (io w)
  /\ sockets (io w') = sockets (io w).
Proof.
  cbv zeta. revert w.
  induction p as [a|e|c k IH|n v k IH]; intros w; cbn.
  - rewrite !app_nil_r. auto.
  - rewrite !app_nil_r. auto.
  - assert (journal (fst (snd (store_exec c (db w)), tt)) =
            journal (db w) ++ [(c, fst (store_exec c (db w)))]) as J.
    { unfold store_exec. destruct (faults (db w)) as [|[|] later]; cbn; auto;
        destruct (store_apply c (db w)) as [[r docs] pk]; reflexivity. }
    cbn in J.
    destruct (store_exec c (db w)) as [r s1]. cbn in J.
    destruct (IH r (with_db s1 w)) as (H1 & H2 & H3). cbn in *.
    rewrite H1, H2, H3, J, <- app_assoc. auto.
  - destruct (IH (with_io (io_emit n v (io w)) w)) as (H1 & H2 & H3). cbn in *.
    rewrite H1, H2, H3, <- app_assoc. auto.
Qed.




(** The store answers a call with a reply of that call's kind. *)
Lemma store_exec_kind (c : store_call) (s : store) :
  match c, fst (store_exec c s) with
  | _, Rejected _ => True
  | InsertOne _, Resolved (RInsert _ _) => True
  | UpdateOne _ _, Resolved (RUpdate _) => True
  | FindOne _, Resolved (RFind _) => True
  | DeleteOne _, Resolved (RDelete _) => True
  | _, _ => False
  end.
Proof.
  unfold store_exec.
  destruct (faults s) as [|[|] later]; cbn; try (destruct c; exact I);
    destruct c as [doc|oid set|oid|oid]; cbn.
  all: try exact I.
  all: try (unfold coll_insertOne;
            destruct (obj_get "_id" _) as [idv|]; [|exact I];
            destruct (is_array idv); [exact I|];
            destruct (existsb (id_is idv) (tasks s)); exact I).
  all: try (destruct (coll_deleteOne oid (tasks s)); exact I).
  all: assert (forall docs, match fst (coll_updateOne oid set docs) with
                       | Resolved (RUpdate _) | Rejected _ => True
                       | _ => False end) as G;
    [ intros docs; unfold coll_updateOne;
      destruct (update_parses set); [|exact I];
      induction docs as [|d rest IH]; cbn; auto;
      destruct (id_is (VOid oid) d); cbn;
      [ destruct (set_update set d); exact I
      | destruct (update_first oid set rest); exact IH ]
    | specialize (G (tasks s));
      destruct (coll_updateOne oid set (tasks s)) as [r docs']; exact G ].
Qed.




(* ===================================================================== *)
(** ** Sessions (C5) *)
(* ===================================================================== *)

(** What a connection has been sent is read off the wire alone. *)
Lemma received_wire (c : nat) (h h' : hub) (more : list (event * list nat)) :
  wire h' = wire h ++ more ->
  received c h' = received c h ++ sent_to c more.
Proof.
  unfold received, sent_to. intros ->. rewrite filter_app, map_app. reflexivity.
Qed.

Lemma sent_to_app (c : nat) (l m : list (event * list nat)) :
  sent_to c (l ++ m) = sent_to c l ++ sent_to c m.
Proof.
  unfold sent_to. rewrite filter_app, map_app. reflexivity.
Qed.

Lemma admitted_recipient (c : nat) (h : hub) :
  existsb (Nat.eqb c) (map sid (sockets h)) = admitted c h.
Proof.
  unfold admitted. induction (sockets h) as [|s l IH]; cbn; congruence.
Qed.

Lemma received_emit (c : nat) (n : string) (v : value) (h : hub) :
  admitted c h = false -> received c (io_emit n v h) = received c h.
Proof.
  intros Hc. rewrite (received_wire c h (io_emit n v h) _ eq_refl).
  unfold sent_to. cbn [filter snd].
  rewrite admitted_recipient, Hc. cbn. apply app_nil_r.
Qed.

(** A turn of a handler leaves the connections alone; what it emits goes to
    the sockets of the namespace and to nobody else. *)
Lemma advance_hub {A : Type} (p : prog A) (h : hub) (c : nat) :
  let h' := snd (advance p h) in
  engine_clients h' = engine_clients h
  /\ sockets h' = sockets h
  /\ (exists more, wire h' = wire h ++ more)
  /\ (admitted c h = false -> received c h' = received c h).
Proof.
  cbv zeta. revert h.
  induction p as [a|e|call k IH|n v k IH]; intros h; cbn;
    try (repeat split; auto; exists []; rewrite app_nil_r; reflexivity).
  destruct (IH (io_emit n v h)) as (H1 & H2 & (more & H3) & H4).
  split; [exact H1|]. split; [exact H2|]. split.
  - eexists. rewrite H3. cbn [wire io_emit]. rewrite <- app_assoc. reflexivity.
  - intros Hc. rewrite H4 by exact Hc. apply received_emit. exact Hc.
Qed.

Lemma take_turn_hub (rid : nat) (req : request) (p : prog response) (s : system) :
  sys_hub (take_turn rid req p s) = snd (advance p (sys_hub s)).
Proof.
  unfold take_turn, sys_hub.
  destruct (advance p (io (sys_world s))) as [[c|call k] h]; reflexivity.
Qed.

(** Packets sent again to one connection reach no other. *)
Lemma sent_to_replay (c c' : nat) (missed : list event) :
  Nat.eqb c c' = false ->
  sent_to c (map (fun ev => (ev, [c'])) missed) = [].
Proof.
  intros N. unfold sent_to. induction missed as [|ev l IH]; cbn; auto.
  rewrite N. cbn. exact IH.
Qed.

(** A handshake with no identity claim that recovers no session is refused,
    and leaves the server as it was. *)
Lemma authless_join (c : nat) (auth : document) (h : hub) :
  truthy_prop (obj_get "email" auth) = false ->
  recovery auth h = None ->
  snd (ns_connect c auth h) = h
  /\ (existsb (Nat.eqb c) (engine_clients h) = true ->
      fst (ns_connect c auth h) = ConnectError (JsError "Unauthorized")).
Proof.
  intros T R. unfold ns_connect, auth_middleware. rewrite R.
  destruct (existsb (Nat.eqb c) (engine_clients h)); [|split; [reflexivity|discriminate]].
  unfold truthy_prop in T.
  destruct (obj_get "email" auth) as [email|]; [rewrite T|]; auto.
Qed.

(** Whoever joins, the connections that are not joining stay where they
    are: in or out of the namespace, and sent nothing. *)
Lemma ns_connect_others (c c' : nat) (auth : document) (h : hub) :
  Nat.eqb c c' = false ->
  admitted c (snd (ns_connect c' auth h)) = admitted c h
  /\ received c (snd (ns_connect c' auth h)) = received c h.
Proof.
  intros N. unfold ns_connect.
  destruct (existsb (Nat.eqb c') (engine_clients h)); [|auto].
  destruct (recovery auth h) as [[p missed]|].
  - cbn [snd]. split.
    + unfold admitted. cbn [sockets]. rewrite existsb_app. cbn. rewrite N.
      rewrite !orb_false_r. reflexivity.
    + unfold received. cbn [wire].
      rewrite sent_to_app, (sent_to_replay c c' missed N). apply app_nil_r.
  - destruct (auth_middleware auth) as [email|e]; [|auto].
    cbn [snd]. split; [|reflexivity].
    unfold admitted. cbn [sockets]. rewrite existsb_app. cbn. rewrite N.
    rewrite !orb_false_r. reflexivity.
Qed.

Lemma admitted_step (c : nat) (a : action) (s s' : system) :
  lets_in c a (sys_hub s) = false ->
  sys_step a s = Some s' ->
  admitted c (sys_hub s) = false ->
  admitted c (sys_hub s') = false /\ received c (sys_hub s') = received c (sys_hub s).
Proof.
  intros Cl St Ad.
  destruct a as [rid req|rid|rid|c'|c' auth|c'|gone old]; cbn in St.
  - destruct (pool_find rid (sys_pool s)); [discriminate|].
    injection St as <-. rewrite take_turn_hub.
    destruct (advance_hub (handler req) (sys_hub s) c) as (_ & H2 & _ & H4).
    split; [|auto]. unfold admitted in *. rewrite H2. exact Ad.
  - destruct (pool_find rid (sys_pool s)) as [e|]; [|discriminate].
    destruct (fl_promise e); [|discriminate].
    destruct (store_exec (fl_call e) (db (sys_world s))) as [r st].
    injection St as <-. auto.
  - destruct (pool_find rid (sys_pool s)) as [e|]; [|discriminate].
    destruct (fl_promise e) as [|r]; [discriminate|].
    injection St as <-. rewrite take_turn_hub.
    destruct (advance_hub (fl_k e r) (sys_hub s) c) as (_ & H2 & _ & H4).
    split; [|auto]. unfold admitted in *. rewrite H2. exact Ad.
  - injection St as <-. auto.
  - injection St as <-. unfold sys_hub in *. cbn [sys_world io with_io].
    cbn [lets_in] in Cl.
    destruct (Nat.eqb c c') eqn:E.
    + apply Nat.eqb_eq in E. subst c'. cbn [andb] in Cl.
      apply orb_false_iff in Cl. destruct Cl as [T R].
      destruct (recovery auth (io (sys_world s))) eqn:Rec; [discriminate|].
      destruct (authless_join c auth (io (sys_world s)) T Rec) as [-> _]. auto.
    + destruct (ns_connect_others c c' auth (io (sys_world s)) E) as [-> ->]. auto.
  - injection St as <-. unfold sys_hub, admitted in *. cbn. split; [|reflexivity].
    induction (sockets (io (sys_world s))) as [|x l IH]; cbn in *; auto.
    apply orb_false_iff in Ad. destruct Ad as [A1 A2].
    destruct (negb (Nat.eqb c' (sid x))); cbn; [rewrite A1|]; auto.
  - injection St as <-. auto.
Qed.

(** C5, as the code has it.  Let the handshake of connection [c] supply no
    identity claim.  Then (a) unless it recovers a session the server keeps,
    its request to join is refused with the error "Unauthorized" and leaves
    the server as it was; (b) along any run of the server in which no
    handshake of [c] supplies a claim or recovers a session, [c] is never a
    socket of the namespace and is sent nothing, neither a broadcast nor a
    packet sent again.  (c) What the health endpoint reports as [websockets]
    is the number of open transport connections, and it counts [c] from the
    moment its transport opened, refused or not. *)
Theorem C5_no_claim_no_session (c : nat) (auth : document) :
  truthy_prop (obj_get "email" auth) = false ->
  (forall h, existsb (Nat.eqb c) (engine_clients h) = true ->
     recovery auth h = None ->
     ns_connect c auth h = (ConnectError (JsError "Unauthorized"), h))
  /\ (forall tr s s',
        admitted c (sys_hub s) = false ->
        unauthenticated c tr s = true ->
        sys_run tr s = Some s' ->
        admitted c (sys_hub s') = false
        /\ received c (sys_hub s') = received c (sys_hub s))
  /\ (forall w,
        json (get_health w) =
          VObj [("status", VStr "ok");
                ("mongo", VStr (if topology_connected w
                                then "connected" else "disconnected"));
                ("websockets", VNum (Z.of_nat (List.length (engine_clients (io w)))))])
  /\ (forall h,
        recovery auth h = None ->
        In c (engine_clients (snd (ns_connect c auth (engine_open c h))))
        /\ admitted c (snd (ns_connect c auth (engine_open c h))) = admitted c h).
Proof.
  intros T. split; [|split; [|split]].
  - intros h Hc R. destruct (authless_join c auth h T R) as [H1 H2].
    specialize (H2 Hc). destruct (ns_connect c auth h) as [r h']. cbn in *.
    congruence.
  - intros tr. induction tr as [|a tr IH]; intros s s' Ad Un Run; cbn in Run.
    + injection Run as <-. auto.
    + destruct (sys_step a s) as [s1|] eqn:St; [|discriminate].
      cbn [unauthenticated] in Un. rewrite St in Un.
      apply andb_true_iff in Un. destruct Un as [Cl Un].
      apply negb_true_iff in Cl.
      destruct (admitted_step c a s s1 Cl St Ad) as [Ad1 R1].
      destruct (IH s1 s' Ad1 Un Run) as [Ad2 R2].
      split; [exact Ad2|congruence].
  - intros w. reflexivity.
  - intros h R.
    destruct (authless_join c auth (engine_open c h) T R) as [H1 _].
    rewrite H1. cbn. split; [|reflexivity].
    apply in_or_app. right. left. reflexivity.
Qed.

(** The theorem on connection 9, whose handshake carries an empty
    [email], while a deletion is served and broadcast. *)
Lemma C5_no_claim_no_session_witness :
  let h := engine_open 9 (io (world_one [])) in
  let tr := [Open 9; Join 9 [("email", VStr "")];
             Arrive 1 (ReqDelete id1); Exec 1; Resume 1] in
  let s := idle (world_one []) in
  ns_connect 9 [("email", VStr "")] h = (ConnectError (JsError "Unauthorized"), h)
  /\ admitted 9 (sys_hub (after tr s)) = false
  /\ received 9 (sys_hub (after tr s)) = received 9 (sys_hub s)
  /\ In 9 (engine_clients (snd (ns_connect 9 [("email", VStr "")] h))).
Proof.
  cbv zeta.
  destruct (C5_no_claim_no_session 9 [("email", VStr "")] eq_refl)
    as (H1 & H2 & _ & H4).
  split; [apply H1; reflexivity|].
  destruct (H2 [Open 9; Join 9 [("email", VStr "")];
                Arrive 1 (ReqDelete id1); Exec 1; Resume 1]
               (idle (world_one []))
               (after [Open 9; Join 9 [("email", VStr "")];
                       Arrive 1 (ReqDelete id1); Exec 1; Resume 1]
                      (idle (world_one [])))) as [A R].
  - reflexivity.
  - reflexivity.
  - reflexivity.
  - split; [exact A|]. split; [exact R|]. apply H4. reflexivity.
Defined.

(** C5 as the spec words it does not hold.  (a) The count: connection 9
    opens and asks to join with no [auth.email]; it is refused and is not a
    socket of the namespace, whose only session is connection 7, yet the
    health endpoint reports [websockets: 2].  (b) Admission: session 7 is
    sent a [taskUpdated] and loses its transport; a task is deleted; then
    connection 9 opens and asks to join with the private id of session 7
    and the offset of that [taskUpdated], and no [email].  It is admitted,
    and is sent the [taskDeleted] it has missed. *)
Lemma C5_counterexample_counted_or_recovered :
  (let refused := ns_connect 9 [] (engine_open 9 (io (world_one []))) in
   let w := with_io (snd refused) (world_one []) in
   fst refused = ConnectError (JsError "Unauthorized")
   /\ admitted 9 (io w) = false
   /\ map sid (sockets (io w)) = [7]
   /\ json (get_health w) =
        VObj [("status", VStr "ok"); ("mongo", VStr "connected");
              ("websockets", VNum 2)])
  /\ (let auth := [("pid", VStr (id_string 0)); ("offset", VStr (id_string 1))] in
      let before := [Arrive 1 (ReqPut id1 [("title", VStr "T2")]);
                     Exec 1; Resume 1; Exec 1; Resume 1;
                     Close 7;
                     Arrive 2 (ReqDelete id1); Exec 2; Resume 2;
                     Open 9] in
      let s := after before (idle (world_one [])) in
      sys_run (before ++ [Join 9 auth]) (idle (world_one [])) =
        Some (after [Join 9 auth] s)
      /\ truthy_prop (obj_get "email" auth) = false
      /\ map pid (sockets (io (world_one []))) = [id_string 0]
      /\ admitted 9 (sys_hub s) = false
      /\ fst (ns_connect 9 auth (sys_hub s)) = Connected
      /\ admitted 9 (sys_hub (after [Join 9 auth] s)) = true
      /\ received 9 (sys_hub (after [Join 9 auth] s)) =
           [{| ev_name := "taskDeleted"; ev_payload := VStr id1 |}]).
Proof.
  cbv zeta. split; repeat split.
Qed.

(* ===================================================================== *)
(** ** The order of emission under interleaving (C8) *)
(* ===================================================================== *)

Lemma pool_find_In {rid : nat} {pool : list inflight} {e : inflight} :
  pool_find rid pool = Some e -> In e pool.
Proof.
  induction pool as [|e' rest IH]; cbn; [discriminate|].
  destruct (Nat.eqb rid (fl_id e')).
  - intros E. injection E as ->. auto.
  - auto.
Qed.

Lemma In_pool_put {e e' : inflight} {pool : list inflight} :
  In e' (pool_put e pool) -> e' = e \/ In e' pool.
Proof.
  induction pool as [|x rest IH]; cbn.
  - intros [<-|[]]. auto.
  - destruct (Nat.eqb (fl_id e) (fl_id x)); cbn.
    + intros [<-|H]; auto.
    + intros [<-|H]; auto. destruct (IH H); auto.
Qed.

Lemma In_pool_remove (rid : nat) (e' : inflight) (pool : list inflight) :
  In e' (pool_remove rid pool) -> In e' pool.
Proof.
  induction pool as [|x rest IH]; cbn; auto.
  destruct (Nat.eqb rid (fl_id x)); cbn; [auto|].
  intros [<-|H]; auto.
Qed.

Lemma advance_pending {A : Type} (p : prog A) (h h' : hub)
      (c : store_call) (k : settled -> prog A) :
  advance p h = (Parked c k, h') -> pending_after p [] = Some (c, k).
Proof.
  revert h. induction p as [a|e|c0 k0 IH|n v k0 IH]; intros h; cbn;
    try discriminate.
  - intros E. injection E as -> -> _. reflexivity.
  - apply IH.
Qed.

Lemma pending_after_snoc {A : Type} (p : prog A) (hist : list settled)
      (c c' : store_call) (k k' : settled -> prog A) (r : settled) :
  pending_after p hist = Some (c, k) ->
  pending_after (k r) [] = Some (c', k') ->
  pending_after p (hist ++ [r]) = Some (c', k').
Proof.
  revert hist. induction p as [a|e|c0 k0 IH|n v k0 IH]; intros hist; cbn;
    try discriminate.
  - destruct hist as [|r0 later]; cbn.
    + intros E. injection E as -> ->. auto.
    + apply IH.
  - apply IH.
Qed.

Lemma take_turn_pool_ok (rid : nat) (req : request) (p : prog response) (s : system) :
  pool_ok s ->
  (forall c k h', advance p (sys_hub s) = (Parked c k, h') ->
                  exists hist, pending_after (handler req) hist = Some (c, k)) ->
  pool_ok (take_turn rid req p s).
Proof.
  intros Ok Hp. unfold take_turn. fold (sys_hub s).
  destruct (advance p (sys_hub s)) as [[c|call k] h] eqn:E; intros e; cbn.
  - intros H. apply Ok. eapply In_pool_remove. exact H.
  - intros H. destruct (In_pool_put H) as [->|H']; [|auto].
    exact (Hp call k h eq_refl).
Qed.

Lemma sys_step_pool_ok {a : action} {s s' : system} :
  pool_ok s -> sys_step a s = Some s' -> pool_ok s'.
Proof.
  intros Ok St.
  destruct a as [rid req|rid|rid|c|c auth|c|gone old]; cbn in St;
    try (injection St as <-; exact Ok).
  - destruct (pool_find rid (sys_pool s)); [discriminate|].
    injection St as <-. apply take_turn_pool_ok; auto.
    intros c k h' E. exists []. eapply advance_pending. exact E.
  - destruct (pool_find rid (sys_pool s)) as [e|] eqn:F; [|discriminate].
    destruct (fl_promise e); [|discriminate].
    destruct (store_exec (fl_call e) (db (sys_world s))) as [r st].
    injection St as <-. intros e' H. cbn in H.
    destruct (In_pool_put H) as [->|H']; [|auto].
    exact (Ok e (pool_find_In F)).
  - destruct (pool_find rid (sys_pool s)) as [e|] eqn:F; [|discriminate].
    destruct (fl_promise e) as [|r]; [discriminate|].
    injection St as <-. apply take_turn_pool_ok; auto.
    intros c k h' E. destruct (Ok e (pool_find_In F)) as [hist P].
    exists (hist ++ [r]). eapply pending_after_snoc; [exact P|].
    eapply advance_pending. exact E.
Qed.

Lemma sys_run_pool_ok {tr : list action} {s s' : system} :
  pool_ok s -> sys_run tr s = Some s' -> pool_ok s'.
Proof.
  revert s. induction tr as [|a tr IH]; intros s Ok Run; cbn in Run.
  - injection Run as <-. exact Ok.
  - destruct (sys_step a s) as [s1|] eqn:St; [|discriminate].
    eapply IH; [|exact Run]. exact (sys_step_pool_ok Ok St).
Qed.

Lemma idle_pool_ok (w : world) : pool_ok (idle w).
Proof. intros e []. Qed.

(** The wire only grows. *)
Lemma sys_step_wire {a : action} {s s' : system} :
  sys_step a s = Some s' -> exists more, sys_wire s' = sys_wire s ++ more.
Proof.
  intros St. unfold sys_wire. fold (sys_hub s) (sys_hub s').
  assert (forall rid req p, exists more,
             wire (sys_hub (take_turn rid req p s)) = wire (sys_hub s) ++ more) as T.
  { intros rid req p. rewrite take_turn_hub.
    destruct (advance_hub p (sys_hub s) 0) as (_ & _ & H & _). exact H. }
  destruct a as [rid req|rid|rid|c|c auth|c|gone old]; cbn in St.
  - destruct (pool_find rid (sys_pool s)); [discriminate|].
    injection St as <-. apply T.
  - destruct (pool_find rid (sys_pool s)) as [e|]; [|discriminate].
    destruct (fl_promise e); [|discriminate].
    destruct (store_exec (fl_call e) (db (sys_world s))) as [r st].
    injection St as <-. exists []. rewrite app_nil_r. reflexivity.
  - destruct (pool_find rid (sys_pool s)) as [e|]; [|discriminate].
    destruct (fl_promise e) as [|r]; [discriminate|].
    injection St as <-. apply T.
  - injection St as <-. exists []. rewrite app_nil_r. reflexivity.
  - injection St as <-. unfold sys_hub. cbn. unfold ns_connect.
    destruct (existsb (Nat.eqb c) (engine_clients (io (sys_world s))));
      [|exists []; rewrite app_nil_r; reflexivity].
    destruct (recovery auth (io (sys_world s))) as [[p missed]|];
      [eexists; reflexivity|].
    destruct (auth_middleware auth); exists []; rewrite app_nil_r; reflexivity.
  - injection St as <-. exists []. rewrite app_nil_r. reflexivity.
  - injection St as <-. exists []. rewrite app_nil_r. reflexivity.
Qed.

Lemma sys_run_wire {tr : list action} {s s' : system} :
  sys_run tr s = Some s' -> exists more, sys_wire s' = sys_wire s ++ more.
Proof.
  revert s. induction tr as [|a tr IH]; intros s Run; cbn in Run.
  - injection Run as <-. exists []. rewrite app_nil_r. reflexivity.
  - destruct (sys_step a s) as [s1|] eqn:St; [|discriminate].
    destruct (sys_step_wire St) as [m1 H1].
    destruct (IH _ Run) as [m2 H2].
    exists (m1 ++ m2). rewrite H2, H1, app_assoc. reflexivity.
Qed.

(** [run] is the event loop with nothing interleaved: serving a request
    alone, each call returning before the next thing happens, ends in the
    world and with the answer [run] computes. *)
Lemma serial_turns (rid : nat) (req : request) (p : prog response)
      (w : world) (pool : list inflight) (done : list (nat * completion response)) :
  pool = [] \/ (exists e, pool = [e] /\ fl_id e = rid) ->
  exists calls,
    sys_run (serial rid calls)
            (take_turn rid req p
                       {| sys_world := w; sys_pool := pool; sys_done := done |}) =
    Some {| sys_world := snd (run p w); sys_pool := [];
            sys_done := done ++ [(rid, fst (run p w))] |}.
Proof.
  assert (forall (x : completion response) w0 pool0,
             pool0 = [] \/ (exists e, pool0 = [e] /\ fl_id e = rid) ->
             {| sys_world := with_io (io w0) w0;
                sys_pool := pool_remove rid pool0;
                sys_done := done ++ [(rid, x)] |} =
             {| sys_world := w0; sys_pool := []; sys_done := done ++ [(rid, x)] |})
    as Fin.
  { intros x [d0 i0 t0] pool0 [->|(e & -> & <-)]; cbn; [reflexivity|].
    rewrite Nat.eqb_refl. reflexivity. }
  revert w pool. induction p as [a|e|c k IH|n v k IH]; intros w pool Hp.
  - exists 0. cbn. f_equal. apply Fin. exact Hp.
  - exists 0. cbn. f_equal. apply Fin. exact Hp.
  - destruct (store_exec c (db w)) as [r st] eqn:E.
    destruct (IH r (with_db st w)
                 [{| fl_id := rid; fl_req := req; fl_call := c;
                     fl_promise := Settled r; fl_k := k |}])
      as [calls Hc].
    { right. eexists. split; reflexivity. }
    exists (S calls). cbn [serial sys_run run]. rewrite E.
    unfold take_turn at 1. cbn [advance sys_world sys_pool sys_done].
    assert (pool_put {| fl_id := rid; fl_req := req; fl_call := c;
                        fl_promise := Pending; fl_k := k |} pool =
            [{| fl_id := rid; fl_req := req; fl_call := c;
                fl_promise := Pending; fl_k := k |}]) as ->.
    { destruct Hp as [->|(e & -> & He)]; cbn; [reflexivity|].
      rewrite He, Nat.eqb_refl. reflexivity. }
    cbn [sys_step sys_world sys_pool sys_done pool_find fl_id fl_promise fl_call
         db with_io].
    rewrite Nat.eqb_refl. cbn [fl_promise fl_call]. rewrite E.
    cbn [sys_step sys_world sys_pool sys_done pool_find pool_put fl_id fl_promise
         fl_req fl_k].
    rewrite !Nat.eqb_refl. cbn [fl_promise fl_req fl_k pool_find fl_id].
    rewrite Nat.eqb_refl. cbn [fl_promise fl_req fl_k].
    exact Hc.
  - destruct (IH (with_io (io_emit n v (io w)) w) pool Hp) as [calls Hc].
    exists calls. exact Hc.
Qed.

Lemma run_is_the_serial_schedule (rid : nat) (req : request) (w : world) :
  exists calls,
    sys_run (Arrive rid req :: serial rid calls) (idle w) =
    Some {| sys_world := snd (run (handler req) w); sys_pool := [];
            sys_done := [(rid, fst (run (handler req) w))] |}.
Proof.
  destruct (serial_turns rid req (handler req) w [] [] (or_introl eq_refl))
    as [calls H].
  exists calls. exact H.
Qed.

(** Where an update handler can be suspended, and what its next turn does:
    the turn in which [updateOne] returns emits nothing; the turn in which
    the [findOne] that follows returns emits [taskUpdated] and answers. *)
Lemma put_tasks_turns {id : string} {body : document} {hist : list settled}
      {c : store_call} {k : settled -> prog response} :
  pending_after (put_tasks id body) hist = Some (c, k) ->
  match c with
  | UpdateOne _ _ => forall r h, snd (advance (k r) h) = h
  | FindOne _ =>
      forall found h,
        advance (k (Resolved (RFind found))) h =
        (Finished (Normal {| status := 200; json := doc_or_null found |}),
         io_emit "taskUpdated" (doc_or_null found) h)
  | InsertOne _ | DeleteOne _ => False
  end.
Proof.
  unfold put_tasks, new_ObjectId.
  destruct (ObjectId_of_string id) as [oid|]; cbn; [|discriminate].
  destruct hist as [|r1 hist]; cbn.
  - intros E. injection E as <- <-. intros r h.
    destruct r as [[res doc|res|found|res]|e]; cbn; auto.
    destruct (Nat.eqb (modifiedCount res) 0); reflexivity.
  - destruct r1 as [[res doc|res|found|res]|e]; cbn; try discriminate.
    destruct (Nat.eqb (modifiedCount res) 0); cbn; [discriminate|].
    destruct hist as [|r2 hist]; cbn.
    + intros E. injection E as <- <-. reflexivity.
    + destruct r2 as [[res2 doc2|res2|found2|res2]|e2]; cbn; discriminate.
Qed.

(** A deletion handler is suspended on its [deleteOne] only; the turn in
    which that returns with a document deleted emits [taskDeleted]. *)
Lemma delete_tasks_turns {id : string} {hist : list settled}
      {c : store_call} {k : settled -> prog response} :
  pending_after (delete_tasks id) hist = Some (c, k) ->
  forall n h,
    advance (k (Resolved (RDelete {| deletedCount := S n |}))) h =
    (Finished (Normal {| status := 200;
                         json := VObj [("message", VStr "Task deleted successfully")] |}),
     io_emit "taskDeleted" (VStr id) h).
Proof.
  unfold delete_tasks, new_ObjectId.
  destruct (ObjectId_of_string id) as [oid|]; cbn; [|discriminate].
  destruct hist as [|r1 hist]; cbn.
  - intros E. injection E as <- <-. reflexivity.
  - destruct r1 as [[res doc|res|found|res]|e]; cbn; try discriminate.
    destruct (Nat.eqb (deletedCount res) 0); cbn; discriminate.
Qed.

Lemma returning_resume {rid : nat} {s s' : system} {req : request}
      {c : store_call} {r : settled} :
  returning rid s = Some (req, c, r) ->
  sys_step (Resume rid) s = Some s' ->
  exists e,
    In e (sys_pool s) /\ fl_req e = req /\ fl_call e = c
    /\ sys_hub s' = snd (advance (fl_k e r) (sys_hub s)).
Proof.
  unfold returning. cbn.
  destruct (pool_find rid (sys_pool s)) as [e|] eqn:F; [|discriminate].
  destruct (fl_promise e) as [|r0]; [discriminate|].
  intros E St. injection E as <- <- <-. injection St as <-.
  exists e. rewrite take_turn_hub. pose proof (pool_find_In F). auto.
Qed.

(** C8, as the code has it.  An update emits in the turn in which its
    re-read ([findOne]) returns, a deletion in the turn in which its
    [deleteOne] returns, and the wire keeps the order of emission.  So in any
    run of the server from rest, when the [deleteOne] of a deletion of [id]
    returns after the [findOne] of an update of [id] has returned, the
    [taskUpdated] event of the update is on the wire before the
    [taskDeleted] event of the deletion, and every connection that was a
    socket at both emissions is sent them in that order. *)
Theorem C8_emission_order_follows_last_store_call
        (w : world) (tr1 tr2 tr3 : list action) (sa sb sc sd se : system)
        (ru rd : nat) (id : string) (body : document) (oid : N)
        (found : option document) (n : nat) :
  sys_run tr1 (idle w) = Some sa ->
  returning ru sa = Some (ReqPut id body, FindOne oid, Resolved (RFind found)) ->
  sys_step (Resume ru) sa = Some sb ->
  sys_run tr2 sb = Some sc ->
  returning rd sc =
    Some (ReqDelete id, DeleteOne oid, Resolved (RDelete {| deletedCount := S n |})) ->
  sys_step (Resume rd) sc = Some sd ->
  sys_run tr3 sd = Some se ->
  let updated := {| ev_name := "taskUpdated"; ev_payload := doc_or_null found |} in
  let deleted := {| ev_name := "taskDeleted"; ev_payload := VStr id |} in
  exists mid post,
    sys_wire sb = sys_wire sa ++ [(updated, map sid (sockets (sys_hub sa)))]
    /\ sys_wire sd = sys_wire sc ++ [(deleted, map sid (sockets (sys_hub sc)))]
    /\ sys_wire se =
         sys_wire sa ++ (updated, map sid (sockets (sys_hub sa))) :: mid
                     ++ (deleted, map sid (sockets (sys_hub sc))) :: post
    /\ (forall c,
          admitted c (sys_hub sa) = true ->
          admitted c (sys_hub sc) = true ->
          received c (sys_hub se) =
            received c (sys_hub sa) ++ updated :: sent_to c mid
                                    ++ deleted :: sent_to c post).
Proof.
  intros R1 Ru Su R2 Rd Sd R3 updated deleted.
  pose proof (sys_run_pool_ok (idle_pool_ok w) R1) as Oka.
  pose proof (sys_step_pool_ok Oka Su) as Okb.
  pose proof (sys_run_pool_ok Okb R2) as Okc.
  destruct (returning_resume Ru Su) as (eu & Inu & Requ & Callu & Hb).
  destruct (Oka eu Inu) as [histu Pu]. rewrite Requ, Callu in Pu.
  pose proof (put_tasks_turns Pu found (sys_hub sa)) as Tu.
  rewrite Tu in Hb. cbn [snd] in Hb.
  destruct (returning_resume Rd Sd) as (ed & Ind & Reqd & Calld & Hd).
  destruct (Okc ed Ind) as [histd Pd]. rewrite Reqd, Calld in Pd.
  pose proof (delete_tasks_turns Pd n (sys_hub sc)) as Td.
  rewrite Td in Hd. cbn [snd] in Hd.
  destruct (sys_run_wire R2) as [mid Hmid].
  destruct (sys_run_wire R3) as [post Hpost].
  assert (sys_wire sb = sys_wire sa ++ [(updated, map sid (sockets (sys_hub sa)))]) as Wb.
  { unfold sys_wire. fold (sys_hub sb). rewrite Hb. reflexivity. }
  assert (sys_wire sd = sys_wire sc ++ [(deleted, map sid (sockets (sys_hub sc)))]) as Wd.
  { unfold sys_wire. fold (sys_hub sd). rewrite Hd. reflexivity. }
  assert (sys_wire se =
          sys_wire sa ++ (updated, map sid (sockets (sys_hub sa))) :: mid
                      ++ (deleted, map sid (sockets (sys_hub sc))) :: post) as We.
  { rewrite Hpost, Wd, Hmid, Wb. rewrite <- !app_assoc. reflexivity. }
  exists mid, post. split; [exact Wb|]. split; [exact Wd|]. split; [exact We|].
  intros c Aa Ac. unfold received.
  change (wire (sys_hub se)) with (sys_wire se).
  change (wire (sys_hub sa)) with (sys_wire sa). rewrite We.
  rewrite sent_to_app. f_equal.
  change (sent_to c ([(updated, map sid (sockets (sys_hub sa)))] ++ mid
                     ++ [(deleted, map sid (sockets (sys_hub sc)))] ++ post) =
          [updated] ++ sent_to c mid ++ [deleted] ++ sent_to c post).
  rewrite !sent_to_app. unfold sent_to at 1 3. cbn [filter snd map fst].
  rewrite !admitted_recipient, Aa, Ac. reflexivity.
Qed.

(** The theorem on the run [in_order]. *)
Lemma C8_emission_order_follows_last_store_call_witness :
  let s0 := idle (world_one []) in
  let sa := after (firstn 6 in_order) s0 in
  let sb := after (firstn 7 in_order) s0 in
  let se := after in_order s0 in
  let doc := [("_id", VOid 1); ("userEmail", VStr "a@x.com"); ("title", VStr "T2")] in
  let updated := {| ev_name := "taskUpdated"; ev_payload := VObj doc |} in
  let deleted := {| ev_name := "taskDeleted"; ev_payload := VStr id1 |} in
  exists mid post,
    sys_wire sb = sys_wire sa ++ [(updated, map sid (sockets (sys_hub sa)))]
    /\ sys_wire se = sys_wire sb ++ [(deleted, map sid (sockets (sys_hub sb)))]
    /\ sys_wire se =
         sys_wire sa ++ (updated, map sid (sockets (sys_hub sa))) :: mid
                     ++ (deleted, map sid (sockets (sys_hub sb))) :: post
    /\ (forall c,
          admitted c (sys_hub sa) = true ->
          admitted c (sys_hub sb) = true ->
          received c (sys_hub se) =
            received c (sys_hub sa) ++ updated :: sent_to c mid
                                    ++ deleted :: sent_to c post).
Proof.
  cbv zeta.
  apply (C8_emission_order_follows_last_store_call
           (world_one []) (firstn 6 in_order) [] []
           (after (firstn 6 in_order) (idle (world_one [])))
           (after (firstn 7 in_order) (idle (world_one [])))
           (after (firstn 7 in_order) (idle (world_one [])))
           (after in_order (idle (world_one [])))
           (after in_order (idle (world_one [])))
           1 2 id1 [("title", VStr "T2")] 1%N
           (Some [("_id", VOid 1); ("userEmail", VStr "a@x.com"); ("title", VStr "T2")])
           0); reflexivity.
Defined.

(** C8 as the spec words it does not hold.  In the run [race] the update's
    persistence call ([updateOne]) returns at the third action and the
    deletion's ([deleteOne]) at the seventh, later; yet [taskDeleted] is
    emitted first and session 7 is sent [taskUpdated] for the same task
    after it.  In [race_reread_late] the persistence calls return in the
    same order (third action, sixth action) and the update's event, read
    back as [null], again follows [taskDeleted]. *)
Lemma C8_counterexample_updated_after_deleted :
  let s0 := idle (world_one []) in
  let put := ReqPut id1 [("title", VStr "T2")] in
  let update_returns :=
    Some (put, UpdateOne 1 [("title", VStr "T2")],
          Resolved (RUpdate {| matchedCount := 1; modifiedCount := 1 |})) in
  let delete_returns :=
    Some (ReqDelete id1, DeleteOne 1, Resolved (RDelete {| deletedCount := 1 |})) in
  let deleted := {| ev_name := "taskDeleted"; ev_payload := VStr id1 |} in
  (sys_run race s0 = Some (after race s0)
   /\ returning 1 (after (firstn 2 race) s0) = update_returns
   /\ returning 2 (after (firstn 6 race) s0) = delete_returns
   /\ received 7 (sys_hub (after race s0)) =
        [deleted;
         {| ev_name := "taskUpdated";
            ev_payload := VObj [("_id", VOid 1); ("userEmail", VStr "a@x.com");
                                ("title", VStr "T2")] |}])
  /\ (sys_run race_reread_late s0 = Some (after race_reread_late s0)
      /\ returning 1 (after (firstn 2 race_reread_late) s0) = update_returns
      /\ returning 2 (after (firstn 5 race_reread_late) s0) = delete_returns
      /\ received 7 (sys_hub (after race_reread_late s0)) =
           [deleted; {| ev_name := "taskUpdated"; ev_payload := VNull |}]).
Proof.
  cbv zeta. repeat split.
Qed.

(* ===================================================================== *)
(** ** Updates, alone and interleaved (C2, C7) *)
(* ===================================================================== *)

Lemma pool_find_put (e : inflight) (pool : list inflight) :
  pool_find (fl_id e) (pool_put e pool) = Some e.
Proof.
  induction pool as [|x rest IH]; cbn.
  - rewrite Nat.eqb_refl. reflexivity.
  - destruct (Nat.eqb (fl_id e) (fl_id x)) eqn:E; cbn.
    + rewrite Nat.eqb_refl. reflexivity.
    + rewrite E. exact IH.
Qed.

Lemma take_turn_finished (rid : nat) (req : request) (p : prog response)
      (s : system) (c : completion response) (h' : hub) :
  advance p (sys_hub s) = (Finished c, h') ->
  sys_done (take_turn rid req p s) = sys_done s ++ [(rid, c)]
  /\ sys_hub (take_turn rid req p s) = h'.
Proof.
  unfold take_turn, sys_hub. intros ->. auto.
Qed.

Lemma take_turn_parked (rid : nat) (req : request) (p : prog response)
      (s : system) (call : store_call) (k : settled -> prog response) (h' : hub) :
  advance p (sys_hub s) = (Parked call k, h') ->
  sys_done (take_turn rid req p s) = sys_done s
  /\ sys_hub (take_turn rid req p s) = h'
  /\ waiting rid (take_turn rid req p s) = Some (req, call).
Proof.
  unfold take_turn, sys_hub, waiting. intros ->. cbn [sys_done sys_world sys_pool].
  split; [reflexivity|]. split; [reflexivity|].
  rewrite (pool_find_put {| fl_id := rid; fl_req := req; fl_call := call;
                            fl_promise := Pending; fl_k := k |}).
  reflexivity.
Qed.

(** The turn that [Resume rid] takes. *)
Lemma returning_resume_turn {rid : nat} {s s' : system} {req : request}
      {c : store_call} {r : settled} :
  returning rid s = Some (req, c, r) ->
  sys_step (Resume rid) s = Some s' ->
  exists e,
    In e (sys_pool s) /\ fl_req e = req /\ fl_call e = c
    /\ s' = take_turn rid req (fl_k e r) s.
Proof.
  unfold returning. cbn.
  destruct (pool_find rid (sys_pool s)) as [e|] eqn:F; [|discriminate].
  destruct (fl_promise e) as [|r0]; [discriminate|].
  intros E St. injection E as <- <- <-. injection St as <-.
  exists e. pose proof (pool_find_In F). auto.
Qed.

(** The store call that [Exec rid] has carried out. *)
Lemma exec_returning {rid : nat} {s s' : system} {req : request}
      {c : store_call} {r : settled} :
  sys_step (Exec rid) s = Some s' ->
  returning rid s' = Some (req, c, r) ->
  exists e,
    In e (sys_pool s) /\ fl_req e = req /\ fl_call e = c
    /\ store_exec c (db (sys_world s)) = (r, db (sys_world s')).
Proof.
  cbn. destruct (pool_find rid (sys_pool s)) as [e|] eqn:F; [|discriminate].
  destruct (fl_promise e); [|discriminate].
  destruct (store_exec (fl_call e) (db (sys_world s))) as [r0 st] eqn:X.
  intros St. injection St as <-. unfold returning. cbn [sys_pool].
  assert (rid = fl_id e) as Id.
  { clear - F. induction (sys_pool s) as [|x l IH]; cbn in F; [discriminate|].
    destruct (Nat.eqb rid (fl_id x)) eqn:E; [|auto].
    injection F as <-. apply Nat.eqb_eq. exact E. }
  rewrite (pool_find_put {| fl_id := rid; fl_req := fl_req e; fl_call := fl_call e;
                            fl_promise := Settled r0; fl_k := fl_k e |}).
  cbn. intros E. injection E as <- <- <-.
  exists e. pose proof (pool_find_In F). rewrite X. auto.
Qed.

(** Where an update handler can be suspended, and what it does when the
    call returns. *)
Lemma put_tasks_resumes {id : string} {body : document} {hist : list settled}
      {c : store_call} {k : settled -> prog response} :
  pending_after (put_tasks id body) hist = Some (c, k) ->
  exists oid,
    ObjectId_of_string id = Some oid
    /\ (forall e h,
          advance (k (Rejected e)) h =
          (Finished (Normal {| status := 500; json := error_body "Task update failed" |}),
           h))
    /\ match c with
       | UpdateOne oid' set =>
           oid' = oid /\ set = obj_delete "_id" body
           /\ (forall res h,
                 modifiedCount res = 0 ->
                 advance (k (Resolved (RUpdate res))) h =
                 (Finished (Normal {| status := 404;
                                      json := error_body "Task not found" |}), h))
           /\ (forall res h,
                 modifiedCount res <> 0 ->
                 exists k2,
                   advance (k (Resolved (RUpdate res))) h = (Parked (FindOne oid) k2, h))
       | FindOne oid' =>
           oid' = oid
           /\ (forall found h,
                 advance (k (Resolved (RFind found))) h =
                 (Finished (Normal {| status := 200; json := doc_or_null found |}),
                  io_emit "taskUpdated" (doc_or_null found) h))
       | InsertOne _ | DeleteOne _ => False
       end.
Proof.
  unfold put_tasks, new_ObjectId.
  destruct (ObjectId_of_string id) as [oid|]; cbn; [|discriminate].
  destruct hist as [|r1 hist]; cbn.
  - intros E. injection E as <- <-. exists oid.
    split; [reflexivity|]. split; [reflexivity|].
    split; [reflexivity|]. split; [reflexivity|]. split.
    + intros res h Z. cbn. rewrite Z. reflexivity.
    + intros res h Z. cbn. apply Nat.eqb_neq in Z. rewrite Z. cbn.
      eexists. reflexivity.
  - destruct r1 as [[res doc|res|found|res]|e]; cbn; try discriminate.
    destruct (Nat.eqb (modifiedCount res) 0); cbn; [discriminate|].
    destruct hist as [|r2 hist]; cbn.
    + intros E. injection E as <- <-. exists oid.
      split; [reflexivity|]. split; [reflexivity|].
      split; reflexivity.
    + destruct r2 as [[res2 doc2|res2|found2|res2]|e2]; cbn; discriminate.
Qed.

(** C2, as the code has it.  Take a [PUT /tasks/:id] with a well-formed
    [id].  (a) Whenever it is served, whatever else the server is doing: it
    is suspended on [updateOne] and then on [findOne], nowhere else; when
    [updateOne] returns with [modifiedCount] 0 it is answered 404 and nothing
    is emitted; when [updateOne] returns with another count it goes on to
    [findOne], and when that returns it is answered 200 with what [findOne]
    has read, and one [taskUpdated] carrying that same value goes to every
    socket; when either call fails it is answered 500 and nothing is
    emitted.  (b) Served with nothing in between by a store that answers:
    when no document has the [_id], and the update is one the database
    accepts, the answer is 404; when a document has it and [$set] changes
    it, the answer is 200 with the changed document, which is what the store
    holds and what [taskUpdated] carries.  (c) An update whose field names
    are plain is accepted, for every document. *)
Theorem C2_update_response (id : string) (oid : N) (body : document) :
  ObjectId_of_string id = Some oid ->
  let set := obj_delete "_id" body in
  let not_found := {| status := 404; json := error_body "Task not found" |} in
  let failed := {| status := 500; json := error_body "Task update failed" |} in
  (forall w tr sa sb rid c r,
     sys_run tr (idle w) = Some sa ->
     returning rid sa = Some (ReqPut id body, c, r) ->
     sys_step (Resume rid) sa = Some sb ->
     (c = UpdateOne oid set \/ c = FindOne oid)
     /\ match c, r with
        | _, Rejected _ =>
            sys_done sb = sys_done sa ++ [(rid, Normal failed)]
            /\ sys_wire sb = sys_wire sa
        | UpdateOne _ _, Resolved (RUpdate res) =>
            sys_wire sb = sys_wire sa
            /\ (modifiedCount res = 0 ->
                sys_done sb = sys_done sa ++ [(rid, Normal not_found)])
            /\ (modifiedCount res <> 0 ->
                sys_done sb = sys_done sa
                /\ waiting rid sb = Some (ReqPut id body, FindOne oid))
        | FindOne _, Resolved (RFind found) =>
            sys_done sb =
              sys_done sa ++
              [(rid, Normal {| status := 200; json := doc_or_null found |})]
            /\ sys_wire sb =
                 sys_wire sa ++
                 [({| ev_name := "taskUpdated"; ev_payload := doc_or_null found |},
                   map sid (sockets (sys_hub sa)))]
        | _, _ => True
        end)
  /\ (forall w,
        no_faults (db w) ->
        (coll_findOne oid (tasks (db w)) = None ->
         update_parses set = true ->
         exists w',
           run (put_tasks id body) w = (Normal not_found, w')
           /\ wire (io w') = wire (io w)
           /\ tasks (db w') = tasks (db w))
        /\ (forall d d',
              coll_findOne oid (tasks (db w)) = Some d ->
              set_update set d = Some d' ->
              d' <> d ->
              exists w',
                run (put_tasks id body) w =
                  (Normal {| status := 200; json := VObj d' |}, w')
                /\ coll_findOne oid (tasks (db w')) = Some d'
                /\ wire (io w') =
                     wire (io w) ++
                     [({| ev_name := "taskUpdated"; ev_payload := VObj d' |},
                       map sid (sockets (io w)))]))
  /\ (plain_fields set = true ->
      unique_keys body ->
      update_parses set = true
      /\ forall d, exists d', set_update set d = Some d').
Proof.
  intros V set not_found failed. split; [|split].
  - intros w tr sa sb rid c r Run Ret St.
    pose proof (sys_run_pool_ok (idle_pool_ok w) Run) as Ok.
    destruct (returning_resume_turn Ret St) as (e & Hin & Req & Call & ->).
    destruct (Ok e Hin) as [hist P]. rewrite Req, Call in P.
    destruct (put_tasks_resumes P) as (oid' & V' & Rej & Hc).
    assert (oid' = oid) as -> by congruence.
    unfold sys_wire. fold (sys_hub sa).
    change (io (sys_world (take_turn rid (ReqPut id body) (fl_k e r) sa)))
      with (sys_hub (take_turn rid (ReqPut id body) (fl_k e r) sa)).
    destruct c as [doc|o st|o|o]; try (exfalso; exact Hc).
    + destruct Hc as (-> & -> & H0 & H1). split; [left; reflexivity|].
      destruct r as [[res doc|res|found|res]|e0]; try exact I.
      * split; [|split].
        -- destruct (Nat.eq_dec (modifiedCount res) 0) as [Z|Z].
           ++ destruct (take_turn_finished rid (ReqPut id body) _ sa _ _
                          (H0 res (sys_hub sa) Z)) as [_ ->]. reflexivity.
           ++ destruct (H1 res (sys_hub sa) Z) as [k2 A].
              destruct (take_turn_parked rid (ReqPut id body) _ sa _ _ _ A)
                as (_ & -> & _). reflexivity.
        -- intros Z.
           destruct (take_turn_finished rid (ReqPut id body) _ sa _ _
                       (H0 res (sys_hub sa) Z)) as [-> _]. reflexivity.
        -- intros Z. destruct (H1 res (sys_hub sa) Z) as [k2 A].
           destruct (take_turn_parked rid (ReqPut id body) _ sa _ _ _ A)
             as (-> & _ & ->). auto.
      * destruct (take_turn_finished rid (ReqPut id body) _ sa _ _
                    (Rej e0 (sys_hub sa))) as [-> ->]. auto.
    + destruct Hc as (-> & H0). split; [right; reflexivity|].
      destruct r as [[res doc|res|found|res]|e0]; try exact I.
      * destruct (take_turn_finished rid (ReqPut id body) _ sa _ _
                    (H0 found (sys_hub sa))) as [-> ->]. auto.
      * destruct (take_turn_finished rid (ReqPut id body) _ sa _ _
                    (Rej e0 (sys_hub sa))) as [-> ->]. auto.
  - intros w NF. rewrite put_tasks_run, V. fold set.
    destruct (no_faults_answered (UpdateOne oid set) NF) as [E1 NF1].
    destruct (store_exec (UpdateOne oid set) (db w)) as [r1 s1] eqn:X1.
    cbn [snd] in NF1. cbn [store_apply] in E1.
    pose proof (coll_updateOne_spec oid set (tasks (db w))) as Sp.
    split.
    + intros F Pa. rewrite F, Pa in Sp. rewrite Sp in E1. injection E1 as -> ->. cbn.
      eexists. split; [reflexivity|]. split; reflexivity.
    + intros d d' F S Ch. rewrite F, S in Sp. destruct Sp as (docs' & Up & F' & _).
      rewrite Up in E1. injection E1 as -> ->.
      rewrite (modifies_changed _ _ _ (proj1 (proj2 (set_update_inv _ _ _ S))) Ch).
      cbn [modifiedCount Nat.eqb].
      match goal with |- context [store_exec (FindOne oid) ?s] =>
        assert (no_faults s) as NF2 by exact NF1;
        destruct (no_faults_answered (FindOne oid) NF2) as [E2 _];
        rewrite E2 end.
      cbn [store_apply tasks]. rewrite F'. cbn [doc_or_null].
      eexists. split; [reflexivity|].
      cbn [db io with_io with_db tasks wire io_emit]. rewrite F'. auto.
  - intros P U. pose proof (unique_keys_delete "_id" body U) as U'.
    split; [exact (plain_update_parses set P U')|].
    intros d.
    destruct (set_update_plain set d P U' (obj_get_delete_same _ _)) as (d' & S & _).
    exists d'. exact S.
Qed.

(** The theorem on an update that changes the title of the stored task. *)
Lemma C2_update_response_witness :
  let body := [("title", VStr "T2")] in
  let d' := [("_id", VOid 1); ("userEmail", VStr "a@x.com"); ("title", VStr "T2")] in
  ObjectId_of_string id1 = Some 1%N
  /\ exists w',
       run (put_tasks id1 body) (world_one []) =
         (Normal {| status := 200; json := VObj d' |}, w')
       /\ coll_findOne 1 (tasks (db w')) = Some d'
       /\ wire (io w') =
            wire (io (world_one [])) ++
            [({| ev_name := "taskUpdated"; ev_payload := VObj d' |},
              map sid (sockets (io (world_one []))))].
Proof.
  cbv zeta. split; [reflexivity|].
  destruct (C2_update_response id1 1%N [("title", VStr "T2")] eq_refl) as (_ & B & _).
  destruct (B (world_one []) eq_refl) as [_ H].
  apply (H task1); [reflexivity|reflexivity|discriminate].
Defined.

(** C2 as the spec words it does not hold.  (a) A [PUT] whose body repeats
    the values the stored task already has: the document matches (the store
    reports [matchedCount] 1), the answer is 404 "Task not found".  (b) A
    [PUT] with an identifier the driver cannot build: no document matches,
    the answer is 500, not 404.  (c) A [PUT] whose body names a path into
    the title, which is a string: the document matches, the database
    refuses the update, the answer is 500 and the task is as it was.  (d) In
    the run [race_reread_late] the update matches and modifies the task, a
    deletion is served before its re-read, and the update is answered 200
    with [null]. *)
Lemma C2_counterexample_404_is_not_no_match :
  let same := run (put_tasks id1 [("title", VStr "T1")]) (world_one []) in
  let bad := run (put_tasks "not-an-id" [("title", VStr "T2")]) (world_one []) in
  let refused := run (put_tasks id1 [("title.x", VNum 1)]) (world_one []) in
  let raced := after race_reread_late (idle (world_one [])) in
  (holds 1 (tasks (db (world_one []))) = true
   /\ fst same = Normal {| status := 404; json := error_body "Task not found" |}
   /\ journal (db (snd same)) =
        [(UpdateOne 1 [("title", VStr "T1")],
          Resolved (RUpdate {| matchedCount := 1; modifiedCount := 0 |}))])
  /\ (ObjectId_of_string "not-an-id" = None
      /\ fst bad = Normal {| status := 500; json := error_body "Task update failed" |})
  /\ (fst refused = Normal {| status := 500; json := error_body "Task update failed" |}
      /\ tasks (db (snd refused)) = [task1])
  /\ (sys_run race_reread_late (idle (world_one [])) = Some raced
      /\ sys_done raced =
           [(2, Normal {| status := 200;
                          json := VObj [("message",
                                         VStr "Task deleted successfully")] |});
            (1, Normal {| status := 200; json := VNull |})]).
Proof.
  cbv zeta. repeat split.
Qed.

(** C7, as the code has it.  An update is a [$set], which merges: take a
    [PUT /tasks/:id] with a well-formed [id] and body [B].  (a) Served with
    nothing in between and answered 200, it leaves the stored task with
    every field [B] names (other than [_id]) at the value [B] gives it, and
    so every path [B] names when no name in [B] is a number written with
    leading zeros, and with every field no path of [B] starts with as it
    was; when the names of [B] are plain, field by field.  A field present
    before the update and absent from [B] is retained.  (b) Whenever the request is served:
    the [updateOne] it issues is [$set] of [B] without [_id], and when the
    store has carried it out and reports a change, the stored task has been
    merged in the same way. *)
Theorem C7_update_merges_fields (id : string) (oid : N) (body : document) :
  ObjectId_of_string id = Some oid ->
  let set := obj_delete "_id" body in
  (forall w w' resp,
     run (put_tasks id body) w = (Normal resp, w') ->
     status resp = 200 ->
     exists d d',
       coll_findOne oid (tasks (db w)) = Some d
       /\ coll_findOne oid (tasks (db w')) = Some d'
       /\ json resp = VObj d'
       /\ merged set d d')
  /\ (forall w tr sa sb rid c r,
        sys_run tr (idle w) = Some sa ->
        sys_step (Exec rid) sa = Some sb ->
        returning rid sb = Some (ReqPut id body, c, r) ->
        reports_change r = true ->
        c = UpdateOne oid set
        /\ exists d d',
             coll_findOne oid (tasks (db (sys_world sa))) = Some d
             /\ coll_findOne oid (tasks (db (sys_world sb))) = Some d'
             /\ merged set d d').
Proof.
  intros V set. split.
  - intros w w' resp R S.
    destruct (put_tasks_200 id body w w' resp R S)
      as (oid' & d & d' & V' & F0 & Su & _ & F1 & J & _).
    assert (oid' = oid) as -> by congruence.
    exists d, d'. split; [exact F0|]. split; [exact F1|]. split; [exact J|].
    apply set_update_merged. exact Su.
  - intros w tr sa sb rid c r Run St Ret Ch.
    pose proof (sys_run_pool_ok (idle_pool_ok w) Run) as Ok.
    destruct (exec_returning St Ret) as (e & Hin & Req & Call & X).
    destruct (Ok e Hin) as [hist P]. rewrite Req, Call in P.
    destruct (put_tasks_resumes P) as (oid' & V' & _ & Hc).
    assert (oid' = oid) as -> by congruence.
    destruct c as [doc|o st|o|o]; try (exfalso; exact Hc).
    + destruct Hc as (-> & -> & _). split; [reflexivity|]. fold set in X.
      pose proof (store_exec_kind (UpdateOne oid set) (db (sys_world sa))) as K.
      cbv beta iota in K. rewrite X in K. cbn [fst] in K.
      destruct r as [[res doc|res|found|res]|e0];
        try discriminate Ch; try (exfalso; exact K).
      pose proof (store_exec_update_resolved X) as Sp.
      destruct (coll_findOne oid (tasks (db (sys_world sa)))) as [d|].
      * destruct Sp as (d' & Su & _ & F). exists d, d'.
        split; [reflexivity|]. split; [exact F|]. apply set_update_merged. exact Su.
      * destruct Sp as [Z _]. cbn in Ch. rewrite Z in Ch. discriminate Ch.
    + exfalso. destruct (store_exec_find_resolved X) as [_ F].
      destruct r as [reply|e0]; [|discriminate Ch].
      rewrite (F reply eq_refl) in Ch. discriminate Ch.
Qed.

(** The theorem on an update of the title alone. *)
Lemma C7_update_merges_fields_witness :
  let body := [("title", VStr "T2")] in
  let done := run (put_tasks id1 body) (world_one []) in
  ObjectId_of_string id1 = Some 1%N
  /\ exists d d',
       coll_findOne 1 (tasks (db (world_one []))) = Some d
       /\ coll_findOne 1 (tasks (db (snd done))) = Some d'
       /\ VObj [("_id", VOid 1); ("userEmail", VStr "a@x.com"); ("title", VStr "T2")]
          = VObj d'
       /\ merged (obj_delete "_id" body) d d'.
Proof.
  cbv zeta. split; [reflexivity|].
  destruct (C7_update_merges_fields id1 1%N [("title", VStr "T2")] eq_refl) as [A _].
  apply (A (world_one [])
           (snd (run (put_tasks id1 [("title", VStr "T2")]) (world_one [])))
           {| status := 200;
              json := VObj [("_id", VOid 1); ("userEmail", VStr "a@x.com");
                            ("title", VStr "T2")] |}).
  - reflexivity.
  - reflexivity.
Defined.

(** A name with a dot in it is a path: [{ "meta.done": true }] gives the
    task an embedded document [meta] with the field [done], and the same
    name on a task whose [meta] is a string is refused. *)
Example put_dotted_name_sets_embedded_field :
  let done := run (put_tasks id1 [("meta.done", VBool true)]) (world_one []) in
  let w := snd (run (put_tasks id1 [("meta", VStr "none")]) (world_one [])) in
  let refused := run (put_tasks id1 [("meta.done", VBool true)]) w in
  fst done =
    Normal {| status := 200;
              json := VObj [("_id", VOid 1); ("userEmail", VStr "a@x.com");
                            ("title", VStr "T1");
                            ("meta", VObj [("done", VBool true)])] |}
  /\ fst refused = Normal {| status := 500; json := error_body "Task update failed" |}
  /\ tasks (db (snd refused)) = tasks (db w)
  /\ wire (io (snd refused)) = wire (io w).
Proof.
  cbv zeta. repeat split.
Qed.

(** C7 as the spec words it does not hold.  A [PUT] with body
    [{ title: "T2" }] is answered 200, and the stored task still has the
    [userEmail] it had before, a field the body does not have. *)
Lemma C7_counterexample_absent_field_is_retained :
  let body := [("title", VStr "T2")] in
  let done := run (put_tasks id1 body) (world_one []) in
  option_map status (match fst done with Normal r => Some r | Abrupt _ => None end)
    = Some 200
  /\ obj_get "userEmail" body = None
  /\ tasks (db (snd done)) =
       [[("_id", VOid 1); ("userEmail", VStr "a@x.com"); ("title", VStr "T2")]].
Proof.
  cbv zeta. repeat split.
Qed.

(* ===================================================================== *)
(** ** Listing tasks: [GET /tasks] *)
(* ===================================================================== *)

Lemma take_fault_keeps (s : store) :
  tasks (snd (take_fault s)) = tasks s
  /\ pk_counter (snd (take_fault s)) = pk_counter s
  /\ journal (snd (take_fault s)) = journal s.
Proof. repeat split. Qed.

Lemma no_faults_take (s : store) :
  no_faults s -> fst (take_fault s) = false /\ no_faults (snd (take_fault s)).
Proof.
  unfold no_faults, take_fault. destruct (faults s) as [|[|] later]; cbn; auto.
  discriminate.
Qed.

(** X1.  Without an [email] in the query, or with one that is falsy (the empty
    string), [GET /tasks] is answered 400 "Email required" and the server is
    left exactly as it was: the store is not called. *)
Theorem get_tasks_requires_email (query : document) (sv : server) :
  truthy_prop (obj_get "email" query) = false ->
  get_tasks query sv =
    ({| status := 400; json := error_body "Email required" |}, sv).
Proof.
  unfold get_tasks, truthy_prop. destruct (obj_get "email" query) as [v|]; auto.
  intros ->. reflexivity.
Qed.

(** The theorem on a query with an empty [email]. *)
Lemma get_tasks_requires_email_witness :
  get_tasks [("email", VStr "")] (server_on (world_one [])) =
    ({| status := 400; json := error_body "Email required" |},
     server_on (world_one [])).
Proof.
  apply (get_tasks_requires_email [("email", VStr "")] (server_on (world_one []))).
  reflexivity.
Defined.

(** X2.  [GET /tasks] only reads.  Whatever the query and whatever the store
    does, it leaves the tasks, the users, the journal, the generator of
    identifiers and the whole Socket.IO side as they were: nothing is
    emitted. *)
Theorem get_tasks_reads_only (query : document) (sv : server) :
  let sv' := snd (get_tasks query sv) in
  tasks (db (srv_world sv')) = tasks (db (srv_world sv))
  /\ users sv' = users sv
  /\ io (srv_world sv') = io (srv_world sv)
  /\ pk_counter (db (srv_world sv')) = pk_counter (db (srv_world sv))
  /\ journal (db (srv_world sv')) = journal (db (srv_world sv)).
Proof.
  cbv zeta. unfold get_tasks.
  destruct (obj_get "email" query) as [v|]; [|auto 10].
  destruct (truthy v); cbn [negb]; [|auto 10].
  unfold tasks_find. cbn [take_fault].
  destruct (match faults (db (srv_world sv)) with true :: _ => true | _ => false end);
    [cbn; auto 10|].
  destruct (condition sv v); cbn; auto 10.
Qed.

(** The documents a listing for the string [e] is about: those whose
    [userEmail] is [e], or an array with [e] in it. *)
Lemma eq_match_string (e : string) (field : option value) :
  eq_match (VStr e) field = true <->
  field = Some (VStr e)
  \/ (exists items, field = Some (VArr items) /\ In (VStr e) items).
Proof.
  unfold eq_match. destruct field as [v|]; [|split; [discriminate|]].
  - rewrite orb_true_iff. split.
    + intros [H|H].
      * apply value_eqb_eq in H. subst v. auto.
      * destruct v as [ | | | | |items| ]; try discriminate.
        apply existsb_exists in H. destruct H as (x & Hin & Hx).
        apply value_eqb_eq in Hx. subst x. right. eauto.
    + intros [H|(items & H & Hin)]; injection H as ->.
      * left. apply value_eqb_refl.
      * right. apply existsb_exists. exists (VStr e). split; [exact Hin|].
        apply value_eqb_refl.
  - intros [H|(items & H & _)]; discriminate.
Qed.

Lemma get_tasks_listing (e : string) (sv : server) :
  e <> "" ->
  no_faults (db (srv_world sv)) ->
  fst (get_tasks [("email", VStr e)] sv) =
    {| status := 200;
       json := VArr (map VObj
                (filter (fun d => eq_match (VStr e) (obj_get "userEmail" d))
                        (tasks (db (srv_world sv))))) |}.
Proof.
  intros Ne NF. unfold get_tasks. cbn [obj_get String.eqb Ascii.eqb Bool.eqb].
  cbn [truthy]. apply String.eqb_neq in Ne. rewrite Ne. cbn [negb].
  unfold tasks_find. destruct (no_faults_take _ NF) as [F _].
  destruct (take_fault (db (srv_world sv))) as [fault s] eqn:T.
  cbn [fst] in F. subst fault. cbn [condition].
  assert (tasks s = tasks (db (srv_world sv))) as Ts.
  { pose proof (take_fault_keeps (db (srv_world sv))) as K. rewrite T in K. apply K. }
  rewrite Ts. reflexivity.
Qed.

(** X3.  On a store that answers, [GET /tasks?email=e] for a non-empty string [e]
    is answered 200 with the stored tasks whose [userEmail] is [e] (or an
    array holding [e]), all of them and no other, in the order of the
    collection. *)
Theorem get_tasks_lists_the_tasks_of_the_owner (e : string) (sv : server) :
  e <> "" ->
  no_faults (db (srv_world sv)) ->
  exists found,
    fst (get_tasks [("email", VStr e)] sv) =
      {| status := 200; json := VArr (map VObj found) |}
    /\ found = filter (fun d => eq_match (VStr e) (obj_get "userEmail" d))
                      (tasks (db (srv_world sv)))
    /\ (forall d,
          In d found <->
          In d (tasks (db (srv_world sv)))
          /\ (obj_get "userEmail" d = Some (VStr e)
              \/ exists items,
                   obj_get "userEmail" d = Some (VArr items)
                   /\ In (VStr e) items)).
Proof.
  intros Ne NF. eexists. split; [exact (get_tasks_listing e sv Ne NF)|].
  split; [reflexivity|].
  intros d. rewrite filter_In, eq_match_string. reflexivity.
Qed.

(** The theorem on the one task of [world_one]. *)
Lemma get_tasks_lists_the_tasks_of_the_owner_witness :
  exists found,
    fst (get_tasks [("email", VStr "a@x.com")] (server_on (world_one []))) =
      {| status := 200; json := VArr (map VObj found) |}
    /\ found = filter (fun d => eq_match (VStr "a@x.com") (obj_get "userEmail" d))
                      (tasks (db (srv_world (server_on (world_one [])))))
    /\ (forall d,
          In d found <->
          In d (tasks (db (srv_world (server_on (world_one [])))))
          /\ (obj_get "userEmail" d = Some (VStr "a@x.com")
              \/ exists items,
                   obj_get "userEmail" d = Some (VArr items)
                   /\ In (VStr "a@x.com") items)).
Proof.
  apply (get_tasks_lists_the_tasks_of_the_owner "a@x.com" (server_on (world_one []))).
  - discriminate.
  - reflexivity.
Defined.

(** X4.  When the store fails the [find], [GET /tasks] is answered 500 "Failed
    to fetch tasks"; the failed call is spent and nothing else changes. *)
Theorem get_tasks_store_failure
        (query : document) (email : value) (sv : server) (later : list bool) :
  obj_get "email" query = Some email ->
  truthy email = true ->
  faults (db (srv_world sv)) = true :: later ->
  fst (get_tasks query sv) =
    {| status := 500; json := error_body "Failed to fetch tasks" |}
  /\ faults (db (srv_world (snd (get_tasks query sv)))) = later
  /\ tasks (db (srv_world (snd (get_tasks query sv)))) = tasks (db (srv_world sv)).
Proof.
  intros Q T F. unfold get_tasks. rewrite Q, T. cbn [negb].
  unfold tasks_find, take_fault. rewrite F. cbn. auto.
Qed.

(** The theorem on a store whose next call fails. *)
Lemma get_tasks_store_failure_witness :
  let sv := server_on (world_one [true]) in
  let query := [("email", VStr "a@x.com")] in
  fst (get_tasks query sv) =
    {| status := 500; json := error_body "Failed to fetch tasks" |}
  /\ faults (db (srv_world (snd (get_tasks query sv)))) = []
  /\ tasks (db (srv_world (snd (get_tasks query sv)))) = tasks (db (srv_world sv)).
Proof.
  cbv zeta.
  apply (get_tasks_store_failure [("email", VStr "a@x.com")] (VStr "a@x.com")
           (server_on (world_one [true])) []); reflexivity.
Defined.

(* ===================================================================== *)
(** ** What is answered is what is stored *)
(* ===================================================================== *)

Lemma obj_delete_absent (k : string) (o : document) :
  ~ In k (map fst o) -> obj_delete k o = o.
Proof.
  induction o as [|[k' v'] o IH]; cbn; auto.
  intros H. destruct (String.eqb_spec k k') as [->|N]; [tauto|].
  rewrite IH by tauto. reflexivity.
Qed.

Lemma obj_set_fresh (k : string) (v : value) (o : document) :
  ~ In k (map fst o) -> obj_set k v o = o ++ [(k, v)].
Proof.
  intros H. apply obj_set_absent. apply obj_get_notin. exact H.
Qed.

Lemma spread_after_id (idv : value) (o acc : document) :
  unique_keys o ->
  (forall k, In k (map fst o) -> k <> "_id" -> ~ In k (map fst acc)) ->
  (forall v, In ("_id", v) o -> v = idv) ->
  obj_assign (("_id", idv) :: acc) o = ("_id", idv) :: acc ++ obj_delete "_id" o.
Proof.
  unfold obj_assign, unique_keys. revert acc.
  induction o as [|[k v] o IH]; intros acc U D V.
  - cbn. rewrite app_nil_r. reflexivity.
  - inversion U as [|? ? Hnotin U']; subst.
    cbn [fold_left fst snd obj_delete obj_set].
    rewrite (String.eqb_sym "_id" k).
    destruct (String.eqb_spec k "_id") as [->|N].
    + rewrite (V v (or_introl eq_refl)).
      apply IH; auto.
      * intros k Hk. apply D. right. exact Hk.
      * intros v0 Hv. apply V. right. exact Hv.
    + assert (~ In k (map fst acc)) as Hacc by (apply D; cbn; auto).
      rewrite (obj_set_fresh k v acc Hacc).
      rewrite (IH (acc ++ [(k, v)])); auto.
      * rewrite <- app_assoc. reflexivity.
      * intros k0 Hk0 N0. rewrite map_app, in_app_iff. cbn.
        intros [H|[H|[]]].
        -- exact (D k0 (or_intror Hk0) N0 H).
        -- subst k0. contradiction.
      * intros v0 Hv. apply V. right. exact Hv.
Qed.

Lemma spread_id (idv : value) (task : document) :
  unique_keys task ->
  obj_get "_id" task = Some idv ->
  obj_assign [("_id", idv)] task = ("_id", idv) :: obj_delete "_id" task.
Proof.
  intros U G. apply (spread_after_id idv task [] U).
  - intros k _ _ [].
  - intros v Hv. pose proof (obj_get_In_value "_id" v task U Hv). congruence.
Qed.

Lemma post_tasks_created (body : document) (w w' : world) (resp : response) :
  unique_keys body ->
  run (post_tasks body) w = (Normal resp, w') ->
  status resp = 201 ->
  exists idv task,
    obj_get "_id" task = Some idv
    /\ (forall k, k <> "_id" -> obj_get k task = obj_get k body)
    /\ json resp = VObj (("_id", idv) :: obj_delete "_id" task)
    /\ tasks (db w') = tasks (db w) ++ [("_id", idv) :: obj_delete "_id" task]
    /\ io w' = io_emit "taskAdded" (json resp) (io w).
Proof.
  intros U. rewrite post_tasks_run.
  destruct (store_exec (InsertOne body) (db w)) as [r s1] eqn:E.
  destruct r as [[res task|res|found|res]|e];
    try (intros R S; injection R as <- _; discriminate S).
  destruct (store_exec_insert_resolved E)
    as (idv & task' & Hr & Hid & Hother & Huniq & Htasks & _).
  injection Hr as -> ->. cbn [insertedId].
  destruct (truthy idv);
    intros R S; injection R as <- <-; [|discriminate S].
  exists idv, task'.
  rewrite (spread_id idv task' (Huniq U) Hid). cbn. auto.
Qed.

(** X5.  The task [POST /tasks] answers 201 with, and announces in [taskAdded],
    is field for field the document it has stored, and that document is the
    one the collection has gained. *)
Theorem post_tasks_answers_the_stored_document
        (body : document) (w w' : world) (resp : response) :
  unique_keys body ->
  run (post_tasks body) w = (Normal resp, w') ->
  status resp = 201 ->
  exists d,
    json resp = VObj d
    /\ tasks (db w') = tasks (db w) ++ [d]
    /\ wire (io w') =
         wire (io w) ++ [({| ev_name := "taskAdded"; ev_payload := VObj d |},
                          map sid (sockets (io w)))].
Proof.
  intros U R S.
  destruct (post_tasks_created body w w' resp U R S)
    as (idv & task & _ & _ & J & T & Io).
  exists (("_id", idv) :: obj_delete "_id" task).
  split; [exact J|]. split; [exact T|].
  rewrite Io, J. reflexivity.
Qed.

(** The theorem on the creation of a first task. *)
Lemma post_tasks_answers_the_stored_document_witness :
  let body := [("userEmail", VStr "a@x.com"); ("title", VStr "T1")] in
  let done := run (post_tasks body) world_empty in
  exists d,
    VObj [("_id", VOid 1); ("userEmail", VStr "a@x.com"); ("title", VStr "T1")]
      = VObj d
    /\ tasks (db (snd done)) = tasks (db world_empty) ++ [d]
    /\ wire (io (snd done)) =
         wire (io world_empty)
           ++ [({| ev_name := "taskAdded"; ev_payload := VObj d |},
                map sid (sockets (io world_empty)))].
Proof.
  cbv zeta.
  apply (post_tasks_answers_the_stored_document
           [("userEmail", VStr "a@x.com"); ("title", VStr "T1")] world_empty
           (snd (run (post_tasks [("userEmail", VStr "a@x.com");
                                  ("title", VStr "T1")]) world_empty))
           {| status := 201;
              json := VObj [("_id", VOid 1); ("userEmail", VStr "a@x.com");
                            ("title", VStr "T1")] |}).
  - unfold unique_keys. cbn. repeat constructor; cbn; intuition discriminate.
  - reflexivity.
  - reflexivity.
Defined.

(** X6.  Create, then list.  After a [POST /tasks] answered 201 for a body whose
    [userEmail] is the non-empty string [e], a [GET /tasks?email=e] that the
    store answers returns what it would have returned before, followed by
    the task the 201 carried. *)
Theorem created_task_is_listed
        (body : document) (e : string) (sv sv1 : server) (resp : response) :
  unique_keys body ->
  obj_get "userEmail" body = Some (VStr e) ->
  e <> "" ->
  serve (ReqPost body) sv = (Normal resp, sv1) ->
  status resp = 201 ->
  no_faults (db (srv_world sv1)) ->
  exists d,
    json resp = VObj d
    /\ fst (get_tasks [("email", VStr e)] sv1) =
         {| status := 200;
            json := VArr (map VObj
                     (filter (fun t => eq_match (VStr e) (obj_get "userEmail" t))
                             (tasks (db (srv_world sv))) ++ [d])) |}.
Proof.
  intros U Own Ne Sv St NF. unfold serve in Sv. cbn [handler] in Sv.
  destruct (run (post_tasks body) (srv_world sv)) as [c w1] eqn:R.
  injection Sv as -> <-.
  destruct (post_tasks_created _ _ _ _ U R St)
    as (idv & task & _ & Same & J & T & _).
  exists (("_id", idv) :: obj_delete "_id" task). split; [exact J|].
  rewrite (get_tasks_listing e (with_world w1 sv) Ne NF). cbn [srv_world with_world].
  rewrite T, filter_app. cbn [filter].
  assert (eq_match (VStr e)
            (obj_get "userEmail" (("_id", idv) :: obj_delete "_id" task)) = true)
    as ->; [|reflexivity].
  apply eq_match_string. left. cbn [obj_get].
  assert (String.eqb "userEmail" "_id" = false) as -> by reflexivity.
  rewrite obj_get_delete_other by discriminate.
  rewrite Same by discriminate. exact Own.
Qed.

(** The theorem on the creation of a first task. *)
Lemma created_task_is_listed_witness :
  let body := [("userEmail", VStr "a@x.com"); ("title", VStr "T1")] in
  let sv := server_on world_empty in
  let sv1 := snd (serve (ReqPost body) sv) in
  exists d,
    VObj [("_id", VOid 1); ("userEmail", VStr "a@x.com"); ("title", VStr "T1")]
      = VObj d
    /\ fst (get_tasks [("email", VStr "a@x.com")] sv1) =
         {| status := 200;
            json := VArr (map VObj
                     (filter (fun t => eq_match (VStr "a@x.com")
                                                (obj_get "userEmail" t))
                             (tasks (db (srv_world sv))) ++ [d])) |}.
Proof.
  cbv zeta.
  apply (created_task_is_listed
           [("userEmail", VStr "a@x.com"); ("title", VStr "T1")] "a@x.com"
           (server_on world_empty)
           (snd (serve (ReqPost [("userEmail", VStr "a@x.com");
                                 ("title", VStr "T1")]) (server_on world_empty)))
           {| status := 201;
              json := VObj [("_id", VOid 1); ("userEmail", VStr "a@x.com");
                            ("title", VStr "T1")] |}).
  - unfold unique_keys. cbn. repeat constructor; cbn; intuition discriminate.
  - reflexivity.
  - discriminate.
  - reflexivity.
  - reflexivity.
  - reflexivity.
Defined.

(* ===================================================================== *)
(** ** After a deletion *)
(* ===================================================================== *)


Lemma map_VObj_inj (a b : list document) : map VObj a = map VObj b -> a = b.
Proof.
  revert b. induction a as [|x a IH]; intros [|y b] E; try discriminate; auto.
  cbn in E. injection E as -> E. f_equal. apply IH. exact E.
Qed.






(* ===================================================================== *)
(** ** Users: [POST /users] *)
(* ===================================================================== *)

Lemma obj_delete_set_same (k : string) (v : value) (o : document) :
  obj_delete k (obj_set k v o) = obj_delete k o.
Proof.
  induction o as [|[k' v'] o IH]; cbn [obj_set obj_delete].
  - rewrite String.eqb_refl. reflexivity.
  - destruct (String.eqb k k') eqn:E; cbn [obj_delete].
    + rewrite String.eqb_refl. reflexivity.
    + rewrite E, IH. reflexivity.
Qed.



Lemma ids_below_fresh (pk : N) (docs : list document) :
  ids_below pk docs -> existsb (id_is (VOid pk)) docs = false.
Proof.
  intros B. destruct (existsb (id_is (VOid pk)) docs) eqn:X; auto.
  apply existsb_exists in X. destruct X as (d & Hin & Hd).
  apply id_is_oid in Hd. specialize (B d pk Hin Hd). lia.
Qed.

(** A body without [_id], on a store that answers and whose identifiers were
    all generated earlier, is inserted under the next identifier. *)
Lemma users_insertOne_fresh (body : document) (sv : server) :
  nullish (obj_get "_id" body) = true ->
  no_faults (db (srv_world sv)) ->
  ids_below (pk_counter (db (srv_world sv))) (users sv) ->
  let pk := pk_counter (db (srv_world sv)) in
  let doc := ("_id", VOid pk) :: obj_delete "_id" body in
  fst (post_users body sv) =
    {| status := 201;
       json := VObj [("acknowledged", VBool true); ("insertedId", VOid pk)] |}
  /\ users (snd (post_users body sv)) = users sv ++ [doc]
  /\ pk_counter (db (srv_world (snd (post_users body sv)))) = N.succ pk
  /\ no_faults (db (srv_world (snd (post_users body sv))))
  /\ ids_below (N.succ pk) (users (snd (post_users body sv))).
Proof.
  intros Nl NF B. cbv zeta.
  unfold post_users, users_insertOne.
  destruct (no_faults_take _ NF) as [F NF'].
  destruct (take_fault (db (srv_world sv))) as [fault s] eqn:T.
  cbn [fst snd] in F, NF'. subst fault.
  assert (pk_counter s = pk_counter (db (srv_world sv))) as Pk.
  { pose proof (take_fault_keeps (db (srv_world sv))) as K. rewrite T in K. apply K. }
  rewrite Pk. unfold coll_insertOne. rewrite Nl.
  rewrite obj_get_set_same. cbn [is_array].
  rewrite (ids_below_fresh _ _ B).
  rewrite obj_delete_set_same.
  cbn. repeat split; auto.
  intros d n Hin Hd. apply in_app_or in Hin. destruct Hin as [Hin|[<-|[]]].
  - specialize (B d n Hin Hd). lia.
  - cbn in Hd. injection Hd as <-. lia.
Qed.

(** X10.  Users are not unique.  Posting the same body (with no [_id]) twice to an
    answering store creates two users: both requests are answered 201, and
    [users] gains two documents with the fields of the body and two
    different identifiers. *)
Theorem post_users_twice_creates_two (body : document) (sv : server) :
  nullish (obj_get "_id" body) = true ->
  no_faults (db (srv_world sv)) ->
  ids_below (pk_counter (db (srv_world sv))) (users sv) ->
  let pk := pk_counter (db (srv_world sv)) in
  let sv1 := snd (post_users body sv) in
  let sv2 := snd (post_users body sv1) in
  status (fst (post_users body sv)) = 201
  /\ status (fst (post_users body sv1)) = 201
  /\ users sv2 =
       users sv ++ [("_id", VOid pk) :: obj_delete "_id" body;
                    ("_id", VOid (N.succ pk)) :: obj_delete "_id" body].
Proof.
  intros Nl NF B. cbv zeta.
  destruct (users_insertOne_fresh body sv Nl NF B) as (R1 & U1 & P1 & NF1 & B1).
  rewrite <- P1 in B1.
  destruct (users_insertOne_fresh body _ Nl NF1 B1) as (R2 & U2 & _).
  rewrite R1, R2, U2, U1, P1, <- app_assoc. auto.
Qed.

(** The theorem on a first user posted twice. *)
Lemma post_users_twice_creates_two_witness :
  let body := [("email", VStr "a@x.com")] in
  let sv := server_on world_empty in
  let sv1 := snd (post_users body sv) in
  let sv2 := snd (post_users body sv1) in
  status (fst (post_users body sv)) = 201
  /\ status (fst (post_users body sv1)) = 201
  /\ users sv2 =
       users sv ++ [("_id", VOid 1) :: obj_delete "_id" body;
                    ("_id", VOid 2) :: obj_delete "_id" body].
Proof.
  cbv zeta.
  apply (post_users_twice_creates_two [("email", VStr "a@x.com")]
           (server_on world_empty)).
  - reflexivity.
  - reflexivity.
  - intros d n [].
Defined.

(* ===================================================================== *)
(** ** Start-up: [connectDB] and [initializeServer] *)
(* ===================================================================== *)



(** X12.  [connectDB] connects once.  Called on a process that is connected, it
    makes no call on the driver and changes nothing; in particular calling
    it again after it has succeeded is a no-op, whatever the deployment has
    become. *)
Theorem connectDB_connects_once (env env' : deployment) (p : process) :
  (isConnected p = true -> connectDB env p = p)
  /\ (exited (connectDB env p) = None ->
      connectDB env' (connectDB env p) = connectDB env p).
Proof.
  split.
  - unfold connectDB. intros ->. reflexivity.
  - unfold connectDB. destruct (isConnected p) eqn:C.
    + intros _. rewrite C. reflexivity.
    + destruct (connect_succeeds env); [|discriminate].
      destruct (ping_succeeds env); [|discriminate].
      reflexivity.
Qed.

(** The theorem on a process that has connected, in a deployment that has
    since gone down. *)
Lemma connectDB_connects_once_witness :
  let up := {| connect_succeeds := true; ping_succeeds := true |} in
  let down := {| connect_succeeds := false; ping_succeeds := false |} in
  connectDB down (connectDB up process_start) = connectDB up process_start.
Proof.
  cbv zeta.
  destruct (connectDB_connects_once
              {| connect_succeeds := true; ping_succeeds := true |}
              {| connect_succeeds := false; ping_succeeds := false |}
              process_start) as [_ H].
  apply H. reflexivity.
Defined.

(* ===================================================================== *)
(** ** Answers and broadcasts of the mutation routes *)
(* ===================================================================== *)

(** X13.  The answer tells whether there was a broadcast.  Every mutation request
    is answered, with 200, 201, 404 or 500; answered 200 or 201 it has put
    exactly one event on the wire, of its own kind and for every socket;
    answered 404 or 500 it has put none. *)
Theorem broadcast_exactly_when_answered_2xx (req : request) (w : world) :
  exists resp,
    fst (run (handler req) w) = Normal resp
    /\ (((status resp = 200 \/ status resp = 201)
         /\ exists payload,
              wire (io (snd (run (handler req) w))) =
              wire (io w) ++ [({| ev_name := event_name req; ev_payload := payload |},
                               map sid (sockets (io w)))])
        \/ ((status resp = 404 \/ status resp = 500)
            /\ wire (io (snd (run (handler req) w))) = wire (io w))).
Proof.
  destruct req as [body|id body|id]; cbn [handler event_name].
  - rewrite post_tasks_run.
    destruct (store_exec (InsertOne body) (db w)) as [r s1].
    destruct r as [[res doc|res|found|res]|e]; cbn; eauto 10.
    destruct (truthy (insertedId res)); cbn; eauto 10.
  - rewrite put_tasks_run.
    destruct (ObjectId_of_string id) as [oid|]; cbn; eauto 10.
    destruct (store_exec (UpdateOne oid (obj_delete "_id" body)) (db w)) as [r s1].
    destruct r as [[res doc|res|found|res]|e]; cbn; eauto 10.
    destruct (Nat.eqb (modifiedCount res) 0); cbn; eauto 10.
    destruct (store_exec (FindOne oid) s1) as [r2 s2].
    destruct r2 as [[res2 doc2|res2|found2|res2]|e2]; cbn; eauto 10.
  - rewrite delete_tasks_run.
    destruct (ObjectId_of_string id) as [oid|]; cbn; eauto 10.
    destruct (store_exec (DeleteOne oid) (db w)) as [r s1].
    destruct r as [[res doc|res|found|res]|e]; cbn; eauto 10.
    destruct (Nat.eqb (deletedCount res) 0); cbn; eauto 10.
Qed.

(** An update that finds its values in place reports no modification and
    leaves the collection as it is. *)
Lemma coll_updateOne_unchanged (oid : N) (set : document) (docs : list document)
      (d : document) :
  coll_findOne oid docs = Some d ->
  set_update set d = Some d ->
  modifies (updates_of set) d = false ->
  coll_updateOne oid set docs =
    (Resolved (RUpdate {| matchedCount := 1; modifiedCount := 0 |}), docs).
Proof.
  intros F S M. pose proof (coll_updateOne_spec oid set docs) as Sp.
  rewrite F, S in Sp. destruct Sp as (docs' & -> & _ & Same).
  rewrite (Same eq_refl), M. reflexivity.
Qed.

(** X14.  Sending a successful update again is answered "not found".  When a
    [PUT /tasks/:id] has been answered 200, the same request repeated on a
    store that answers is answered 404, changes no task and broadcasts
    nothing: the task is there, and already has these values.  The names in
    the body are not numbers written with leading zeros; with two names for
    one array element, see [put_repeated_under_two_names]. *)
Theorem put_repeated_is_answered_404
        (id : string) (body : document) (w w1 : world) (resp : response) :
  unique_keys body ->
  canonical_paths (obj_delete "_id" body) = true ->
  run (put_tasks id body) w = (Normal resp, w1) ->
  status resp = 200 ->
  no_faults (db w1) ->
  fst (run (put_tasks id body) w1) =
    Normal {| status := 404; json := error_body "Task not found" |}
  /\ tasks (db (snd (run (put_tasks id body) w1))) = tasks (db w1)
  /\ wire (io (snd (run (put_tasks id body) w1))) = wire (io w1)
  /\ exists oid d, ObjectId_of_string id = Some oid
                   /\ coll_findOne oid (tasks (db w1)) = Some d.
Proof.
  intros U K R S NF.
  destruct (put_tasks_200 id body w w1 resp R S)
    as (oid & d & d' & V & _ & Su & _ & F1 & _).
  rewrite put_tasks_run, V.
  destruct (no_faults_answered (UpdateOne oid (obj_delete "_id" body)) NF) as [E _].
  rewrite E. cbn [store_apply].
  destruct (set_update_idem _ _ _ K Su) as [Su' M].
  rewrite (coll_updateOne_unchanged oid _ _ _ F1 Su' M).
  cbn. eauto 10.
Qed.

(** The theorem on an update of the title, sent twice. *)
Lemma put_repeated_is_answered_404_witness :
  let body := [("title", VStr "T2")] in
  let w1 := snd (run (put_tasks id1 body) (world_one [])) in
  fst (run (put_tasks id1 body) w1) =
    Normal {| status := 404; json := error_body "Task not found" |}
  /\ tasks (db (snd (run (put_tasks id1 body) w1))) = tasks (db w1)
  /\ wire (io (snd (run (put_tasks id1 body) w1))) = wire (io w1)
  /\ exists oid d, ObjectId_of_string id1 = Some oid
                   /\ coll_findOne oid (tasks (db w1)) = Some d.
Proof.
  cbv zeta.
  apply (put_repeated_is_answered_404 id1 [("title", VStr "T2")] (world_one [])
           (snd (run (put_tasks id1 [("title", VStr "T2")]) (world_one [])))
           {| status := 200;
              json := VObj [("_id", VOid 1); ("userEmail", VStr "a@x.com");
                            ("title", VStr "T2")] |}).
  - unfold unique_keys. cbn. repeat constructor; cbn; intuition discriminate.
  - reflexivity.
  - reflexivity.
  - reflexivity.
  - reflexivity.
Defined.

(** With two names for one element of an array, a repeated update can
    succeed again.  The task has an array [tags], and the body sets its
    second element under the names [1] and [01].  Each time the first path
    changes what the second has left, so the database counts a
    modification: the request is answered 200 and broadcast the second time
    as the first, with the same task. *)
Example put_repeated_under_two_names :
  let w := snd (run (put_tasks id1 [("tags", VArr [VStr "a"; VStr "b"])]) (world_one [])) in
  let body := [("tags.1", VStr "x"); ("tags.01", VStr "y")] in
  let d' := [("_id", VOid 1); ("userEmail", VStr "a@x.com"); ("title", VStr "T1");
             ("tags", VArr [VStr "a"; VStr "y"])] in
  let w1 := snd (run (put_tasks id1 body) w) in
  let w2 := snd (run (put_tasks id1 body) w1) in
  canonical_paths body = false
  /\ fst (run (put_tasks id1 body) w) = Normal {| status := 200; json := VObj d' |}
  /\ fst (run (put_tasks id1 body) w1) = Normal {| status := 200; json := VObj d' |}
  /\ tasks (db w2) = tasks (db w1)
  /\ List.length (wire (io w2)) = S (List.length (wire (io w1))).
Proof.
  cbv zeta. repeat split.
Qed.

Lemma coll_updateOne_empty (oid : N) (docs : list document) :
  exists m,
    coll_updateOne oid [] docs =
    (Resolved (RUpdate {| matchedCount := m; modifiedCount := 0 |}), docs).
Proof.
  pose proof (coll_updateOne_spec oid [] docs) as Sp.
  destruct (coll_findOne oid docs) as [d|].
  - rewrite set_update_nil in Sp. destruct Sp as (docs' & -> & _ & Same).
    rewrite (Same eq_refl). cbn. eauto.
  - rewrite Sp. cbn. eauto.
Qed.

(** X15.  An update with nothing to set is never a success.  When the body of a
    [PUT /tasks/:id] has no field besides [_id] (the empty object, say), the
    request is answered 404 or 500, never 200, whether or not the task
    exists; no task changes and nothing is broadcast. *)
Theorem put_without_fields_never_succeeds (id : string) (body : document) (w : world) :
  obj_delete "_id" body = [] ->
  exists resp,
    fst (run (put_tasks id body) w) = Normal resp
    /\ (status resp = 404 \/ status resp = 500)
    /\ tasks (db (snd (run (put_tasks id body) w))) = tasks (db w)
    /\ wire (io (snd (run (put_tasks id body) w))) = wire (io w).
Proof.
  intros E. rewrite put_tasks_run, E.
  destruct (ObjectId_of_string id) as [oid|]; [|cbn; eauto 10].
  destruct (coll_updateOne_empty oid (tasks (db w))) as [m U].
  unfold store_exec.
  destruct (faults (db w)) as [|[|] later]; cbn [store_apply];
    rewrite ?U; cbn; eauto 10.
Qed.

(** The theorem on an empty body sent for the stored task. *)
Lemma put_without_fields_never_succeeds_witness :
  exists resp,
    fst (run (put_tasks id1 []) (world_one [])) = Normal resp
    /\ (status resp = 404 \/ status resp = 500)
    /\ tasks (db (snd (run (put_tasks id1 []) (world_one [])))) =
       tasks (db (world_one []))
    /\ wire (io (snd (run (put_tasks id1 []) (world_one [])))) =
       wire (io (world_one [])).
Proof.
  apply (put_without_fields_never_succeeds id1 [] (world_one [])). reflexivity.
Defined.

(** X16.  A creation under an identifier that is taken is refused.  When the body
    of a [POST /tasks] brings an [_id] some stored task already has, the
    request is answered 500 "Internal server error", nothing is stored and
    nothing is broadcast. *)
Theorem post_with_taken_id_is_refused (body : document) (v : value) (w : world) :
  obj_get "_id" body = Some v ->
  v <> VNull ->
  existsb (id_is v) (tasks (db w)) = true ->
  fst (run (post_tasks body) w) =
    Normal {| status := 500; json := error_body "Internal server error" |}
  /\ tasks (db (snd (run (post_tasks body) w))) = tasks (db w)
  /\ wire (io (snd (run (post_tasks body) w))) = wire (io w).
Proof.
  intros G N X. rewrite post_tasks_run. unfold store_exec.
  assert (coll_insertOne body (tasks (db w)) (pk_counter (db w)) =
          (Rejected (JsError (if is_array v
                              then "The '_id' value cannot be of type array"
                              else "E11000 duplicate key error")),
           tasks (db w), pk_counter (db w))) as C.
  { unfold coll_insertOne. rewrite G.
    assert (nullish (Some v) = false) as -> by (destruct v; cbn; congruence).
    rewrite G. destruct (is_array v); [reflexivity|]. rewrite X. reflexivity. }
  destruct (faults (db w)) as [|[|] later]; cbn [store_apply];
    rewrite ?C; cbn; auto.
Qed.

(** The theorem on a body that brings the [_id] of the stored task. *)
Lemma post_with_taken_id_is_refused_witness :
  let body := [("_id", VStr "mine"); ("title", VStr "again")] in
  let w := snd (run (post_tasks [("_id", VStr "mine")]) world_empty) in
  fst (run (post_tasks body) w) =
    Normal {| status := 500; json := error_body "Internal server error" |}
  /\ tasks (db (snd (run (post_tasks body) w))) = tasks (db w)
  /\ wire (io (snd (run (post_tasks body) w))) = wire (io w).
Proof.
  cbv zeta.
  apply (post_with_taken_id_is_refused
           [("_id", VStr "mine"); ("title", VStr "again")] (VStr "mine")
           (snd (run (post_tasks [("_id", VStr "mine")]) world_empty))).
  - reflexivity.
  - discriminate.
  - reflexivity.
Defined.

(** X17.  A creation can be stored and yet reported as failed.  When the body of a
    [POST /tasks] brings a falsy [_id] that is free (0, the empty string,
    [false]), the store inserts the document and reports that [_id] as
    [insertedId]; [if (result.insertedId)] fails, so the request is answered
    500 "Task creation failed" and nothing is broadcast, with the task in
    the collection. *)
Theorem post_with_falsy_id_is_stored_and_answered_500
        (body : document) (v : value) (w : world) :
  obj_get "_id" body = Some v ->
  v <> VNull ->
  truthy v = false ->
  existsb (id_is v) (tasks (db w)) = false ->
  no_faults (db w) ->
  fst (run (post_tasks body) w) =
    Normal {| status := 500; json := error_body "Task creation failed" |}
  /\ tasks (db (snd (run (post_tasks body) w))) =
       tasks (db w) ++ [("_id", v) :: obj_delete "_id" body]
  /\ wire (io (snd (run (post_tasks body) w))) = wire (io w).
Proof.
  intros G N T X NF. rewrite post_tasks_run.
  destruct (no_faults_answered (InsertOne body) NF) as [E _]. rewrite E.
  cbn [store_apply]. unfold coll_insertOne. rewrite G.
  assert (nullish (Some v) = false) as -> by (destruct v; cbn; congruence).
  rewrite G.
  assert (is_array v = false) as -> by (destruct v; try reflexivity; discriminate T).
  rewrite X. cbn [insertedId]. rewrite T. cbn. auto.
Qed.

(** The theorem on a body whose [_id] is the number 0. *)
Lemma post_with_falsy_id_is_stored_and_answered_500_witness :
  let body := [("_id", VNum 0); ("title", VStr "T0")] in
  fst (run (post_tasks body) (world_one [])) =
    Normal {| status := 500; json := error_body "Task creation failed" |}
  /\ tasks (db (snd (run (post_tasks body) (world_one [])))) =
       tasks (db (world_one [])) ++ [("_id", VNum 0) :: obj_delete "_id" body]
  /\ wire (io (snd (run (post_tasks body) (world_one [])))) =
       wire (io (world_one [])).
Proof.
  cbv zeta.
  apply (post_with_falsy_id_is_stored_and_answered_500
           [("_id", VNum 0); ("title", VStr "T0")] (VNum 0) (world_one [])).
  - reflexivity.
  - discriminate.
  - reflexivity.
  - reflexivity.
  - reflexivity.
Defined.

(* ===================================================================== *)
(** ** Generated identifiers are fresh *)
(* ===================================================================== *)

Lemma ids_below_map (pk : N) (docs : list document) :
  ids_below pk docs <->
  (forall n, In (Some (VOid n)) (map doc_id docs) -> (n < pk)%N).
Proof.
  unfold ids_below. split.
  - intros B n Hin. apply in_map_iff in Hin. destruct Hin as (d & Hd & Hin).
    exact (B d n Hin Hd).
  - intros B d n Hin Hd. apply B. rewrite <- Hd. apply in_map. exact Hin.
Qed.

Lemma ids_below_mono (pk pk' : N) (docs : list document) :
  (pk <= pk')%N -> ids_below pk docs -> ids_below pk' docs.
Proof.
  intros L B d n Hin Hd. specialize (B d n Hin Hd). lia.
Qed.

Lemma coll_insertOne_ids_below (doc : document) (docs : list document) (pk : N) :
  json_id doc = true ->
  ids_below pk docs ->
  ids_below (snd (coll_insertOne doc docs pk)) (snd (fst (coll_insertOne doc docs pk))).
Proof.
  intros J B. unfold coll_insertOne.
  set (fresh := nullish (obj_get "_id" doc)).
  assert (pk <= (if fresh then N.succ pk else pk))%N as L
      by (destruct fresh; lia).
  destruct (obj_get "_id" (if fresh then obj_set "_id" (VOid pk) doc else doc))
    as [idv|] eqn:G; [|cbn; eapply ids_below_mono; eauto].
  destruct (is_array idv); [cbn; eapply ids_below_mono; eauto|].
  destruct (existsb (id_is idv) docs); [cbn; eapply ids_below_mono; eauto|].
  cbn. intros d n Hin Hd. apply in_app_or in Hin. destruct Hin as [Hin|[<-|[]]].
  - specialize (B d n Hin Hd). lia.
  - cbn in Hd. injection Hd as ->. subst fresh.
    destruct (nullish (obj_get "_id" doc)) eqn:Nl.
    + rewrite obj_get_set_same in G. injection G as <-. lia.
    + unfold json_id in J. rewrite G in J. discriminate J.
Qed.

Lemma store_exec_fresh_ids (c : store_call) (s : store) :
  match c with
  | InsertOne doc => json_id doc = true
  | UpdateOne _ set => has_key "_id" set = false
  | _ => True
  end ->
  ids_below (pk_counter s) (tasks s) ->
  ids_below (pk_counter (snd (store_exec c s))) (tasks (snd (store_exec c s))).
Proof.
  intros K B.
  assert (ids_below (snd (store_apply c s)) (snd (fst (store_apply c s)))) as A.
  { destruct c as [doc|oid set|oid|oid]; cbn [store_apply].
    - apply coll_insertOne_ids_below; assumption.
    - pose proof (coll_updateOne_ids oid set (tasks s)) as I.
      destruct (coll_updateOne oid set (tasks s)) as [r docs']. cbn in *.
      apply ids_below_map. rewrite I. apply ids_below_map. exact B.
    - exact B.
    - destruct (coll_deleteOne oid (tasks s)) as [n docs'] eqn:D. cbn.
      apply ids_below_map. intros m Hm. apply (proj1 (ids_below_map _ _) B).
      apply (coll_deleteOne_sub oid). rewrite D. exact Hm. }
  unfold store_exec.
  destruct (faults s) as [|[|] later]; cbn; auto;
    destruct (store_apply c s) as [[r docs'] pk']; exact A.
Qed.

Lemma handler_fresh_ids (req : request) (w : world) :
  json_request req = true ->
  fresh_ids w -> fresh_ids (snd (run (handler req) w)).
Proof.
  unfold fresh_ids. intros J B. destruct req as [body|id body|id]; cbn [handler].
  - rewrite post_tasks_run.
    pose proof (store_exec_fresh_ids (InsertOne body) (db w) J B) as H.
    destruct (store_exec (InsertOne body) (db w)) as [r s1].
    destruct r as [[res doc|res|found|res]|e]; cbn in *; auto.
    destruct (truthy (insertedId res)); exact H.
  - rewrite put_tasks_run.
    destruct (ObjectId_of_string id) as [oid|]; [|exact B].
    pose proof (store_exec_fresh_ids (UpdateOne oid (obj_delete "_id" body))
                  (db w) (has_key_delete "_id" body) B) as H.
    destruct (store_exec (UpdateOne oid (obj_delete "_id" body)) (db w)) as [r s1].
    destruct r as [[res doc|res|found|res]|e]; cbn in *; auto.
    destruct (Nat.eqb (modifiedCount res) 0); [exact H|].
    pose proof (store_exec_fresh_ids (FindOne oid) s1 I H) as H2.
    destruct (store_exec (FindOne oid) s1) as [r2 s2].
    destruct r2 as [[res2 doc2|res2|found2|res2]|e2]; exact H2.
  - rewrite delete_tasks_run.
    destruct (ObjectId_of_string id) as [oid|]; [|exact B].
    pose proof (store_exec_fresh_ids (DeleteOne oid) (db w) I B) as H.
    destruct (store_exec (DeleteOne oid) (db w)) as [r s1].
    destruct r as [[res doc|res|found|res]|e]; cbn in *; auto.
    destruct (Nat.eqb (deletedCount res) 0); exact H.
Qed.

Lemma run_all_fresh_ids (reqs : list request) (w : world) :
  forallb json_request reqs = true ->
  fresh_ids w -> fresh_ids (run_all reqs w).
Proof.
  unfold run_all. revert w.
  induction reqs as [|req rest IH]; intros w J B; cbn in *; auto.
  apply andb_true_iff in J. destruct J as [J1 J2].
  apply IH; [exact J2|]. apply handler_fresh_ids; assumption.
Qed.

(** What a creation without [_id] does on a store that answers, when the
    generated identifier is free. *)
Lemma post_tasks_fresh (body : document) (w : world) :
  unique_keys body ->
  nullish (obj_get "_id" body) = true ->
  no_faults (db w) ->
  existsb (id_is (VOid (pk_counter (db w)))) (tasks (db w)) = false ->
  let pk := pk_counter (db w) in
  let d := ("_id", VOid pk) :: obj_delete "_id" body in
  exists w1,
    run (post_tasks body) w = (Normal {| status := 201; json := VObj d |}, w1)
    /\ tasks (db w1) = tasks (db w) ++ [d]
    /\ wire (io w1) =
         wire (io w) ++ [({| ev_name := "taskAdded"; ev_payload := VObj d |},
                          map sid (sockets (io w)))]
    /\ sockets (io w1) = sockets (io w)
    /\ faults (db w1) = tl (faults (db w)).
Proof.
  intros U Nl NF X. cbv zeta. rewrite post_tasks_run.
  destruct (no_faults_answered (InsertOne body) NF) as [E _]. rewrite E.
  cbn [store_apply]. unfold coll_insertOne. rewrite Nl.
  rewrite obj_get_set_same. cbn [is_array]. rewrite X.
  cbn [insertedId truthy].
  rewrite (spread_id (VOid (pk_counter (db w))) _
             (unique_keys_set "_id" _ body U) (obj_get_set_same _ _ _)).
  rewrite obj_delete_set_same.
  eexists. split; [reflexivity|]. cbn. auto.
Qed.

(** X18.  Generated identifiers never collide.  Start from a server whose stored
    [ObjectId]s are all older than the driver's next one (an empty
    collection, say) and serve any requests clients can send.  Then the
    same holds afterwards, and a [POST /tasks] whose body brings no [_id] is
    answered 201 with the next identifier whenever the store answers: it
    never runs into a duplicate key. *)
Theorem creation_without_id_succeeds
        (reqs : list request) (body : document) (w : world) :
  fresh_ids w ->
  forallb json_request reqs = true ->
  unique_keys body ->
  nullish (obj_get "_id" body) = true ->
  no_faults (db (run_all reqs w)) ->
  fresh_ids (run_all reqs w)
  /\ fst (run (post_tasks body) (run_all reqs w)) =
       Normal {| status := 201;
                 json := VObj (("_id", VOid (pk_counter (db (run_all reqs w))))
                               :: obj_delete "_id" body) |}.
Proof.
  intros B J U Nl NF.
  pose proof (run_all_fresh_ids reqs w J B) as B'.
  split; [exact B'|].
  destruct (post_tasks_fresh body (run_all reqs w) U Nl NF
              (ids_below_fresh _ _ B')) as (w1 & R & _).
  rewrite R. reflexivity.
Qed.

(** The theorem on a creation that follows a creation under a chosen
    [_id], an update and a deletion. *)
Lemma creation_without_id_succeeds_witness :
  let reqs := [ReqPost [("_id", VStr "mine")]; ReqPut id1 [("title", VStr "T2")];
               ReqDelete id1] in
  let body := [("title", VStr "T3")] in
  fresh_ids (run_all reqs (world_one []))
  /\ fst (run (post_tasks body) (run_all reqs (world_one []))) =
       Normal {| status := 201;
                 json := VObj (("_id", VOid (pk_counter
                                               (db (run_all reqs (world_one [])))))
                               :: obj_delete "_id" body) |}.
Proof.
  cbv zeta.
  apply (creation_without_id_succeeds
           [ReqPost [("_id", VStr "mine")]; ReqPut id1 [("title", VStr "T2")];
            ReqDelete id1]
           [("title", VStr "T3")] (world_one [])).
  - intros d n [<-|[]] Hd. cbn in Hd. injection Hd as <-. reflexivity.
  - reflexivity.
  - unfold unique_keys. cbn. repeat constructor; cbn; intuition discriminate.
  - reflexivity.
  - reflexivity.
Defined.

(* ===================================================================== *)
(** ** Identifiers as strings *)
(* ===================================================================== *)

Lemma hex_digit_char (d : N) : (d < 16)%N -> hex_digit (hex_char d) = Some d.
Proof.
  intros L.
  assert (d = 0 \/ d = 1 \/ d = 2 \/ d = 3 \/ d = 4 \/ d = 5 \/ d = 6 \/ d = 7
          \/ d = 8 \/ d = 9 \/ d = 10 \/ d = 11 \/ d = 12 \/ d = 13 \/ d = 14
          \/ d = 15)%N as C by lia.
  repeat (destruct C as [->|C]; [reflexivity|]). subst d. reflexivity.
Qed.

Lemma hex_digits_length (k : nat) (x : N) (acc : string) :
  String.length (hex_digits k x acc) = k + String.length acc.
Proof.
  revert x acc. induction k as [|k IH]; intros x acc; cbn [hex_digits]; auto.
  rewrite IH. cbn. lia.
Qed.

Lemma hex_value_digits (k : nat) (x a : N) (acc : string) :
  hex_value a (hex_digits k x acc) =
  hex_value (a * 16 ^ N.of_nat k + x mod 16 ^ N.of_nat k)%N acc.
Proof.
  revert x a acc. induction k as [|k IH]; intros x a acc.
  - cbn [hex_digits]. f_equal. change (16 ^ N.of_nat 0)%N with 1%N.
    rewrite N.mod_1_r. lia.
  - cbn [hex_digits]. rewrite IH. cbn [hex_value].
    rewrite hex_digit_char by (apply N.mod_lt; discriminate).
    f_equal. rewrite Nat2N.inj_succ, N.pow_succ_r'.
    rewrite (N.Div0.mod_mul_r x 16 (16 ^ N.of_nat k)). lia.
Qed.

Lemma hex_digit_lt (c : ascii) (d : N) : hex_digit c = Some d -> (d < 16)%N.
Proof.
  unfold hex_digit.
  destruct ((48 <=? N_of_ascii c)%N && (N_of_ascii c <=? 57)%N) eqn:A.
  - apply andb_true_iff in A. destruct A as [A1 A2].
    apply N.leb_le in A1. apply N.leb_le in A2. intros E. injection E as <-. lia.
  - destruct ((97 <=? N_of_ascii c)%N && (N_of_ascii c <=? 102)%N) eqn:B.
    + apply andb_true_iff in B. destruct B as [B1 B2].
      apply N.leb_le in B1. apply N.leb_le in B2. intros E. injection E as <-. lia.
    + destruct ((65 <=? N_of_ascii c)%N && (N_of_ascii c <=? 70)%N) eqn:C;
        [|discriminate].
      apply andb_true_iff in C. destruct C as [C1 C2].
      apply N.leb_le in C1. apply N.leb_le in C2. intros E. injection E as <-. lia.
Qed.

Lemma hex_value_bound (s : string) (a n : N) :
  hex_value a s = Some n -> (n < (a + 1) * 16 ^ N.of_nat (String.length s))%N.
Proof.
  revert a. induction s as [|c s IH]; intros a; cbn [hex_value String.length].
  - intros E. injection E as <-. change (16 ^ N.of_nat 0)%N with 1%N. lia.
  - destruct (hex_digit c) as [d|] eqn:D; [|discriminate].
    apply hex_digit_lt in D. intros E. apply IH in E.
    rewrite Nat2N.inj_succ, N.pow_succ_r'.
    assert (16 * a + d + 1 <= 16 * (a + 1))%N as L by lia.
    pose proof (N.pow_nonzero 16 (N.of_nat (String.length s))) as P.
    nia.
Qed.

Lemma ObjectId_round_trip (oid : N) :
  ObjectId_range oid ->
  ObjectId_of_string (ObjectId_toHexString oid) = Some oid.
Proof.
  unfold ObjectId_range, ObjectId_of_string, ObjectId_toHexString. intros R.
  rewrite hex_digits_length. cbn [String.length Nat.add Nat.eqb].
  rewrite hex_value_digits. cbn [hex_value].
  change (16 ^ N.of_nat 24)%N with (16 ^ 24)%N.
  rewrite N.mod_small by exact R. reflexivity.
Qed.

(** X19.  The identifier a client reads in an answer works in a URL.  Written as
    [toHexString] writes it, an [ObjectId] of twelve bytes is a string of 24
    characters that [new ObjectId] reads back as the same identifier; and
    whatever string [new ObjectId] accepts denotes twelve bytes. *)
Theorem ObjectId_string_round_trip (oid : N) :
  (ObjectId_range oid ->
   String.length (ObjectId_toHexString oid) = 24
   /\ ObjectId_of_string (ObjectId_toHexString oid) = Some oid)
  /\ (forall id, ObjectId_of_string id = Some oid -> ObjectId_range oid).
Proof.
  split.
  - intros R. split; [apply hex_digits_length|exact (ObjectId_round_trip oid R)].
  - intros id. unfold ObjectId_of_string, ObjectId_range.
    destruct (Nat.eqb (String.length id) 24) eqn:L; [|discriminate].
    apply Nat.eqb_eq in L. intros H. apply hex_value_bound in H.
    rewrite L in H. exact H.
Qed.

(** The theorem on a twelve-byte identifier. *)
Lemma ObjectId_string_round_trip_witness :
  ObjectId_toHexString 24912482966938930280208240657 = "507f1f77bcf86cd799439011"
  /\ ObjectId_of_string "507f1f77bcf86cd799439011" = Some 24912482966938930280208240657%N
  /\ ObjectId_range 24912482966938930280208240657.
Proof.
  destruct (ObjectId_string_round_trip 24912482966938930280208240657) as (H & B).
  split; [reflexivity|]. split.
  - apply H. vm_compute. reflexivity.
  - apply (B "507F1F77BCF86CD799439011"). reflexivity.
Defined.

Lemma coll_deleteOne_last (oid : N) (docs : list document) (d : document) :
  existsb (id_is (VOid oid)) docs = false ->
  id_is (VOid oid) d = true ->
  coll_deleteOne oid (docs ++ [d]) = (1, docs).
Proof.
  intros X Hd. induction docs as [|x rest IH]; cbn in *.
  - rewrite Hd. reflexivity.
  - apply orb_false_iff in X. destruct X as [X1 X2]. rewrite X1, (IH X2).
    reflexivity.
Qed.

(** X20.  Create, then delete by the identifier that was answered.  A task created
    without [_id] and answered 201, then deleted under the identifier of the
    answer as the client reads it, on a store that answers: the deletion is
    answered 200, the collection is what it was before the creation, and the
    sockets have been sent [taskAdded] and then [taskDeleted]. *)
Theorem create_then_delete_restores_the_collection (body : document) (w : world) :
  unique_keys body ->
  nullish (obj_get "_id" body) = true ->
  no_faults (db w) ->
  fresh_ids w ->
  ObjectId_range (pk_counter (db w)) ->
  let pk := pk_counter (db w) in
  let d := ("_id", VOid pk) :: obj_delete "_id" body in
  let id := ObjectId_toHexString pk in
  let w1 := snd (run (post_tasks body) w) in
  let w2 := snd (run (delete_tasks id) w1) in
  fst (run (post_tasks body) w) = Normal {| status := 201; json := VObj d |}
  /\ fst (run (delete_tasks id) w1) =
       Normal {| status := 200;
                 json := VObj [("message", VStr "Task deleted successfully")] |}
  /\ tasks (db w2) = tasks (db w)
  /\ wire (io w2) =
       wire (io w)
         ++ [({| ev_name := "taskAdded"; ev_payload := VObj d |},
              map sid (sockets (io w)));
             ({| ev_name := "taskDeleted"; ev_payload := VStr id |},
              map sid (sockets (io w)))].
Proof.
  intros U Nl NF B R. cbv zeta.
  pose proof (ids_below_fresh _ _ B) as X.
  destruct (post_tasks_fresh body w U Nl NF X) as (w1 & P & T1 & W1 & S1 & F1).
  rewrite P. cbn [fst snd]. split; [reflexivity|].
  rewrite delete_tasks_run, (ObjectId_round_trip _ R).
  assert (no_faults (db w1)) as NF1.
  { unfold no_faults in *. rewrite F1.
    destruct (faults (db w)) as [|[|] later]; cbn in *; auto. discriminate. }
  destruct (no_faults_answered (DeleteOne (pk_counter (db w))) NF1) as [E _].
  rewrite E. cbn [store_apply]. rewrite T1.
  rewrite (coll_deleteOne_last _ _ _ X)
    by (apply id_is_oid; reflexivity).
  cbn. split; [reflexivity|]. split; [reflexivity|].
  rewrite W1, S1, <- app_assoc. reflexivity.
Qed.

(** The theorem on a task created on [world_one]. *)
Lemma create_then_delete_restores_the_collection_witness :
  let body := [("userEmail", VStr "b@y.org"); ("title", VStr "T9")] in
  let w := world_one [] in
  let d := ("_id", VOid 2) :: body in
  let id := "000000000000000000000002" in
  let w1 := snd (run (post_tasks body) w) in
  let w2 := snd (run (delete_tasks id) w1) in
  fst (run (post_tasks body) w) = Normal {| status := 201; json := VObj d |}
  /\ fst (run (delete_tasks id) w1) =
       Normal {| status := 200;
                 json := VObj [("message", VStr "Task deleted successfully")] |}
  /\ tasks (db w2) = tasks (db w)
  /\ wire (io w2) =
       wire (io w)
         ++ [({| ev_name := "taskAdded"; ev_payload := VObj d |},
              map sid (sockets (io w)));
             ({| ev_name := "taskDeleted"; ev_payload := VStr id |},
              map sid (sockets (io w)))].
Proof.
  cbv zeta.
  apply (create_then_delete_restores_the_collection
           [("userEmail", VStr "b@y.org"); ("title", VStr "T9")] (world_one [])).
  - unfold unique_keys. cbn. repeat constructor; cbn; intuition discriminate.
  - reflexivity.
  - reflexivity.
  - intros d n [<-|[]] Hd. cbn in Hd. injection Hd as <-. reflexivity.
  - reflexivity.
Defined.

(** X21.  [taskDeleted] carries the identifier as the URL spelled it.  Two strings
    that [new ObjectId] reads as the same identifier (hexadecimal digits in
    upper or lower case) get the same answer and leave the same store, and
    each is broadcast as it was written. *)
Theorem delete_broadcasts_the_spelling (id id' : string) (w : world) :
  ObjectId_of_string id = ObjectId_of_string id' ->
  fst (run (delete_tasks id) w) = fst (run (delete_tasks id') w)
  /\ db (snd (run (delete_tasks id) w)) = db (snd (run (delete_tasks id') w))
  /\ (forall r, fst (run (delete_tasks id) w) = Normal r -> status r = 200 ->
        wire (io (snd (run (delete_tasks id) w))) =
          wire (io w) ++ [({| ev_name := "taskDeleted"; ev_payload := VStr id |},
                           map sid (sockets (io w)))]
        /\ wire (io (snd (run (delete_tasks id') w))) =
          wire (io w) ++ [({| ev_name := "taskDeleted"; ev_payload := VStr id' |},
                           map sid (sockets (io w)))]).
Proof.
  intros E. rewrite !delete_tasks_run, <- E.
  assert (forall (x : response) (y : world) (P : Prop),
             status x <> 200 ->
             forall r, Normal (A := response) x = Normal r -> status r = 200 -> P)
    as Off.
  { intros x y P Hx r H S. injection H as <-. contradiction. }
  destruct (ObjectId_of_string id) as [oid|].
  - destruct (store_exec (DeleteOne oid) (db w)) as [r s1].
    destruct r as [[res doc|res|found|res]|e]; cbn [fst snd];
      try (split; [reflexivity|split; [reflexivity|apply (Off _ w); discriminate]]).
    destruct (Nat.eqb (deletedCount res) 0); cbn [fst snd].
    + split; [reflexivity|split; [reflexivity|apply (Off _ w); discriminate]].
    + split; [reflexivity|split; [reflexivity|]]. intros r0 _ _. split; reflexivity.
  - cbn [fst snd]. split; [reflexivity|split; [reflexivity|]].
    apply (Off _ w). discriminate.
Qed.

(** The theorem on two spellings of one identifier. *)
Lemma delete_broadcasts_the_spelling_witness :
  let lower := "00000000000000000000000a" in
  let upper := "00000000000000000000000A" in
  let w := snd (run (post_tasks [("title", VStr "T")])
                    {| db := {| tasks := []; pk_counter := 10; faults := [];
                                journal := [] |};
                       io := io (world_one []);
                       topology_connected := true |}) in
  wire (io (snd (run (delete_tasks lower) w))) =
    wire (io w) ++ [({| ev_name := "taskDeleted"; ev_payload := VStr lower |},
                     map sid (sockets (io w)))]
  /\ wire (io (snd (run (delete_tasks upper) w))) =
    wire (io w) ++ [({| ev_name := "taskDeleted"; ev_payload := VStr upper |},
                     map sid (sockets (io w)))].
Proof.
  cbv zeta.
  match goal with |- context [delete_tasks ?l] =>
    match goal with |- wire (io (snd (run (delete_tasks l) ?w))) = _ /\ _ =>
      destruct (delete_broadcasts_the_spelling
                  l "00000000000000000000000A" w eq_refl) as (_ & _ & H)
    end
  end.
  apply (H {| status := 200;
              json := VObj [("message", VStr "Task deleted successfully")] |});
    reflexivity.
Defined.

(* ===================================================================== *)
(** ** Sessions of one user *)
(* ===================================================================== *)





(* ===================================================================== *)
(** ** Updates in sequence *)
(* ===================================================================== *)

Lemma find_In (oid : N) (docs : list document) (d : document) :
  coll_findOne oid docs = Some d -> In d docs.
Proof.
  unfold coll_findOne. intros F. apply find_some in F. tauto.
Qed.

(** On a store that answers, an update that [$set] accepts for the stored
    task leaves the task as [$set] makes it, whatever the answer is. *)
Lemma put_tasks_stores (id : string) (oid : N) (body : document) (w : world)
      (d d' : document) :
  ObjectId_of_string id = Some oid ->
  no_faults (db w) ->
  coll_findOne oid (tasks (db w)) = Some d ->
  set_update (obj_delete "_id" body) d = Some d' ->
  coll_findOne oid (tasks (db (snd (run (put_tasks id body) w)))) = Some d'
  /\ no_faults (db (snd (run (put_tasks id body) w))).
Proof.
  intros V NF F S. rewrite put_tasks_run, V.
  set (set := obj_delete "_id" body) in *.
  destruct (no_faults_answered (UpdateOne oid set) NF) as [E1 NF1].
  destruct (store_exec (UpdateOne oid set) (db w)) as [r1 s1] eqn:X1.
  cbn [snd] in NF1. cbn [store_apply] in E1.
  pose proof (coll_updateOne_spec oid set (tasks (db w))) as Sp.
  rewrite F, S in Sp. destruct Sp as (docs' & Up & F' & _).
  rewrite Up in E1. injection E1 as -> ->.
  cbn [modifiedCount].
  destruct (modifies (updates_of set) d); cbn [Nat.eqb snd db with_db tasks].
  2: split; [exact F'|exact NF1].
  match goal with |- context [store_exec (FindOne oid) ?s] =>
    destruct (no_faults_answered (FindOne oid) (s := s) NF1) as [E2 NF2];
    destruct (store_exec (FindOne oid) s) as [r2 s2] eqn:X2
  end.
  cbn [snd] in NF2. cbn [store_apply tasks] in E2. injection E2 as -> ->.
  cbn [snd db with_io with_db tasks]. split; [exact F'|exact NF2].
Qed.

(** X23.  Updates of different fields do not undo each other.  On a store that
    answers, two [PUT /tasks/:id] of one stored task whose bodies name
    different fields, by plain names, leave the task with the same value
    for every field in whichever order they are served: each keeps what the
    other has set. *)
Theorem updates_of_different_fields_commute
        (id : string) (oid : N) (a b : document) (w : world) (d : document) :
  ObjectId_of_string id = Some oid ->
  no_faults (db w) ->
  coll_findOne oid (tasks (db w)) = Some d ->
  unique_keys a -> unique_keys b ->
  plain_fields (obj_delete "_id" a) = true ->
  plain_fields (obj_delete "_id" b) = true ->
  (forall k, k <> "_id" -> obj_get k a = None \/ obj_get k b = None) ->
  let ab := snd (run (put_tasks id b) (snd (run (put_tasks id a) w))) in
  let ba := snd (run (put_tasks id a) (snd (run (put_tasks id b) w))) in
  exists dab dba,
    coll_findOne oid (tasks (db ab)) = Some dab
    /\ coll_findOne oid (tasks (db ba)) = Some dba
    /\ (forall k, obj_get k dab = obj_get k dba)
    /\ (forall k v, k <> "_id" -> obj_get k a = Some v -> obj_get k dab = Some v)
    /\ (forall k v, k <> "_id" -> obj_get k b = Some v -> obj_get k dab = Some v).
Proof.
  intros V NF F Ua Ub Pa Pb Dj. cbv zeta.
  pose proof (unique_keys_delete "_id" a Ua) as Ua'.
  pose proof (unique_keys_delete "_id" b Ub) as Ub'.
  destruct (set_update_plain _ d Pa Ua' (obj_get_delete_same _ _)) as (da & Sa & Ga).
  destruct (set_update_plain _ da Pb Ub' (obj_get_delete_same _ _)) as (dab & Sab & Gab).
  destruct (set_update_plain _ d Pb Ub' (obj_get_delete_same _ _)) as (d_b & Sb & Gb).
  destruct (set_update_plain _ d_b Pa Ua' (obj_get_delete_same _ _)) as (dba & Sba & Gba).
  destruct (put_tasks_stores id oid a w d da V NF F Sa) as [Fa NFa].
  destruct (put_tasks_stores id oid b _ da dab V NFa Fa Sab) as [Fab _].
  destruct (put_tasks_stores id oid b w d d_b V NF F Sb) as [Fb NFb].
  destruct (put_tasks_stores id oid a _ d_b dba V NFb Fb Sba) as [Fba _].
  exists dab, dba. split; [exact Fab|]. split; [exact Fba|].
  assert (forall k, obj_get k (obj_delete "_id" a) = None
                    \/ obj_get k (obj_delete "_id" b) = None) as Dj'.
  { intros k. destruct (String.eqb_spec k "_id") as [->|N].
    - left. apply obj_get_delete_same.
    - rewrite !obj_get_delete_other by exact N. apply Dj. exact N. }
  split; [|split].
  - intros k. rewrite Gab, Ga, Gba, Gb.
    destruct (Dj' k) as [H|H]; rewrite H;
      destruct (obj_get k (obj_delete "_id" a)), (obj_get k (obj_delete "_id" b));
      congruence.
  - intros k v N Ha. rewrite Gab, Ga.
    rewrite <- (obj_get_delete_other k "_id" a N) in Ha.
    destruct (Dj' k) as [H|H]; [congruence|]. rewrite H, Ha. reflexivity.
  - intros k v N Hb. rewrite Gab.
    rewrite <- (obj_get_delete_other k "_id" b N) in Hb.
    rewrite Hb. reflexivity.
Qed.

(** The theorem on an update of the title and an update of a status. *)
Lemma updates_of_different_fields_commute_witness :
  let a := [("title", VStr "T2")] in
  let b := [("status", VStr "done")] in
  let w := world_one [] in
  let ab := snd (run (put_tasks id1 b) (snd (run (put_tasks id1 a) w))) in
  let ba := snd (run (put_tasks id1 a) (snd (run (put_tasks id1 b) w))) in
  exists dab dba,
    coll_findOne 1 (tasks (db ab)) = Some dab
    /\ coll_findOne 1 (tasks (db ba)) = Some dba
    /\ (forall k, obj_get k dab = obj_get k dba)
    /\ (forall k v, k <> "_id" -> obj_get k a = Some v -> obj_get k dab = Some v)
    /\ (forall k v, k <> "_id" -> obj_get k b = Some v -> obj_get k dab = Some v).
Proof.
  cbv zeta.
  apply (updates_of_different_fields_commute
           id1 1%N [("title", VStr "T2")] [("status", VStr "done")]
           (world_one []) task1).
  - reflexivity.
  - reflexivity.
  - reflexivity.
  - unfold unique_keys. cbn. repeat constructor; cbn; intuition discriminate.
  - unfold unique_keys. cbn. repeat constructor; cbn; intuition discriminate.
  - reflexivity.
  - reflexivity.
  - intros k _. cbn [obj_get].
    destruct (String.eqb k "title") eqn:E; [right|left; reflexivity].
    apply String.eqb_eq in E. subst k. reflexivity.
Defined.

(** X24.  An update can hand a task to another owner.  After a [PUT /tasks/:id]
    answered 200 whose body sets [userEmail] to the string [e'], the task is
    stored under [e']: a listing for a string [e] returns it exactly when
    [e] is [e'], so its previous owner no longer sees it. *)
Theorem update_moves_the_task_between_listings
        (id : string) (body : document) (e' : string)
        (w w1 : world) (resp : response) :
  unique_keys body ->
  obj_get "userEmail" body = Some (VStr e') ->
  run (put_tasks id body) w = (Normal resp, w1) ->
  status resp = 200 ->
  exists d',
    json resp = VObj d'
    /\ In d' (tasks (db w1))
    /\ obj_get "userEmail" d' = Some (VStr e')
    /\ (forall e sv sv' found,
          srv_world sv = w1 ->
          get_tasks [("email", VStr e)] sv =
            ({| status := 200; json := VArr (map VObj found) |}, sv') ->
          (In d' found <-> e = e')).
Proof.
  intros U Own R S.
  destruct (put_tasks_200 id body w w1 resp R S)
    as (oid & d & d' & V & F0 & Su & _ & F1 & J & _).
  assert (obj_get "userEmail" d' = Some (VStr e')) as Own'.
  { assert (In ("userEmail", VStr e') (obj_delete "_id" body)) as Hin.
    { apply obj_get_Some_In. rewrite obj_get_delete_other by discriminate.
      exact Own. }
    pose proof (set_update_at _ _ _ _ _ Su Hin (or_intror eq_refl)) as At.
    change (match obj_get "userEmail" d' with
            | Some c => c = VStr e'
            | None => False
            end) in At.
    destruct (obj_get "userEmail" d') as [c|]; [|tauto]. congruence. }
  exists d'. split; [exact J|]. split; [exact (find_In _ _ _ F1)|].
  split; [exact Own'|].
  intros e sv sv' found <-. unfold get_tasks.
  cbn [obj_get String.eqb Ascii.eqb Bool.eqb]. cbn [truthy].
  destruct (negb (negb (String.eqb e ""))); [discriminate|].
  unfold tasks_find. cbn [take_fault].
  destruct (match faults (db (srv_world sv)) with true :: _ => true | _ => false end);
    [discriminate|].
  cbn [condition]. intros E. injection E as E _.
  apply map_VObj_inj in E. subst found. cbn [tasks].
  rewrite filter_In, Own', eq_match_string. split.
  - intros [_ [H|(items & H & _)]]; congruence.
  - intros ->. split; [exact (find_In _ _ _ F1)|auto].
Qed.

(** The theorem on an update that hands the task of [world_one] over. *)
Lemma update_moves_the_task_between_listings_witness :
  let body := [("userEmail", VStr "b@y.org")] in
  let w1 := snd (run (put_tasks id1 body) (world_one [])) in
  exists d',
    VObj [("_id", VOid 1); ("userEmail", VStr "b@y.org"); ("title", VStr "T1")]
      = VObj d'
    /\ In d' (tasks (db w1))
    /\ obj_get "userEmail" d' = Some (VStr "b@y.org")
    /\ (forall e sv sv' found,
          srv_world sv = w1 ->
          get_tasks [("email", VStr e)] sv =
            ({| status := 200; json := VArr (map VObj found) |}, sv') ->
          (In d' found <-> e = "b@y.org")).
Proof.
  cbv zeta.
  apply (update_moves_the_task_between_listings
           id1 [("userEmail", VStr "b@y.org")] "b@y.org" (world_one [])
           (snd (run (put_tasks id1 [("userEmail", VStr "b@y.org")]) (world_one [])))
           {| status := 200;
              json := VObj [("_id", VOid 1); ("userEmail", VStr "b@y.org");
                            ("title", VStr "T1")] |}).
  - unfold unique_keys. cbn. repeat constructor; cbn; intuition discriminate.
  - reflexivity.
  - reflexivity.
  - reflexivity.
Defined.
